(** * variable_desired_locations: a shallow embedding and its properties

    The program reads a compiled variable font (fontTools [TTFont]) and its
    Glyphs source ([GSFont]), builds an [avar] table that sends each named
    instance's declared location to the location the masters really
    interpolate at, and rewrites the [STAT] and [fvar] instance records.

    Conventions of the embedding.
    - Python numbers are exact rationals ([Q]); numeric equality and order
      are [Qeq], [Qlt], [Qle], as Python's [==], [<], [<=] are on numbers.
      A division by zero raises [ZeroDivisionError], as it does in Python.
      Rounding is not modelled, so a strict inequality between two
      normalized values, or their being different, would hold of the model
      only: no statement below relies on one.
    - A Python [dict] is an association list in insertion order: assigning
      to a key that is present keeps the entry's position and its key
      object and replaces the value; a new key is appended.
    - A function that can raise returns a [result]; a function that mutates
      the font before raising returns the font as it stands at that moment
      together with the outcome. *)

From Stdlib Require Import QArith Lqa List Ascii String Bool Arith Lia.
Import ListNotations.

Local Open Scope Q_scope.

(** ** Exceptions and results *)

Inductive exn : Set :=
| KeyError
| IndexError
| ZeroDivisionError
| ValueError
| TypeError
| AttributeError.

Inductive result (A : Type) : Type :=
| Ok (a : A)
| Raise (e : exn).

Arguments Ok {A} a.
Arguments Raise {A} e.

Definition bind {A B : Type} (r : result A) (k : A -> result B) : result B :=
  match r with
  | Ok a => k a
  | Raise e => Raise e
  end.

Notation "x <- r ;; k" := (bind r (fun x => k))
  (at level 61, r at next level, right associativity).

(** [for x in l: acc = f acc x], stopping at the first exception. *)
Fixpoint foldM {A B : Type} (f : A -> B -> result A) (acc : A) (l : list B)
  : result A :=
  match l with
  | [] => Ok acc
  | x :: l' => acc' <- f acc x ;; foldM f acc' l'
  end.

(** [l[i]] on a list, for an index that is not negative. *)
Definition list_getitem {A : Type} (l : list A) (i : nat) : result A :=
  match nth_error l i with
  | Some a => Ok a
  | None => Raise IndexError
  end.

(** [enumerate(l)] *)
Definition enumerate {A : Type} (l : list A) : list (nat * A) :=
  combine (seq 0 (List.length l)) l.

(** ** Dictionaries *)

Section Dict.
Context {K V : Type}.
Variable keq : K -> K -> bool.

Definition dict : Type := list (K * V).

Fixpoint dict_get (d : dict) (k : K) : option V :=
  match d with
  | [] => None
  | (k', v) :: d' => if keq k' k then Some v else dict_get d' k
  end.

(** [d[k] = v] *)
Fixpoint dict_set (d : dict) (k : K) (v : V) : dict :=
  match d with
  | [] => [(k, v)]
  | (k', v') :: d' =>
      if keq k' k then (k', v) :: d' else (k', v') :: dict_set d' k v
  end.

(** [d[k]] *)
Definition getitem (d : dict) (k : K) : result V :=
  match dict_get d k with
  | Some v => Ok v
  | None => Raise KeyError
  end.

(** [k in d] *)
Definition contains (d : dict) (k : K) : bool :=
  match dict_get d k with
  | Some _ => true
  | None => false
  end.

Definition keys (d : dict) : list K := map fst d.
End Dict.

Arguments dict K V : clear implicits.

Definition sdict (V : Type) : Type := dict string V.
Definition sget {V} (d : sdict V) (k : string) : option V :=
  dict_get String.eqb d k.
Definition sset {V} (d : sdict V) (k : string) (v : V) : sdict V :=
  dict_set String.eqb d k v.
Definition sgetitem {V} (d : sdict V) (k : string) : result V :=
  getitem String.eqb d k.

(** A curve of the avar table: a dict from float to float. *)
Definition curve_t : Type := dict Q Q.
Definition qget (d : curve_t) (k : Q) : option Q := dict_get Qeq_bool d k.
Definition qset (d : curve_t) (k v : Q) : curve_t := dict_set Qeq_bool d k v.

(** ** Numbers *)

Definition Qltb (a b : Q) : bool := negb (Qle_bool b a).

(** [a / b] *)
Definition truediv (a b : Q) : result Q :=
  if Qeq_bool b 0 then Raise ZeroDivisionError else Ok (a / b).

(** ** The two font models *)

(** The dict [{"max": .., "min": .., "def": ..}] of one axis. *)
Record axis_values_t : Type := mk_axis_values {
  v_max : Q;
  v_min : Q;
  v_def : Q
}.

(** Glyphs source. *)
Record GSAxis : Type := mk_GSAxis {
  gs_axis_name : string;
  gs_axisTag : string
}.

Record GSFontMaster : Type := mk_GSFontMaster {
  master_id : string;
  master_axes : list Q
}.

(** One entry of the "Axis Location" custom parameter. *)
Record AxisLocation : Type := mk_AxisLocation {
  Axis : string;
  Location : Q
}.

Record GSInstance : Type := mk_GSInstance {
  instance_name : string;
  instance_axes : list Q;
  (** [customParameters["Axis Location"]], [None] when it is not set *)
  instance_axis_location : option (list AxisLocation)
}.

Record GSFont : Type := mk_GSFont {
  gs_axes : list GSAxis;
  gs_masters : list GSFontMaster;
  gs_instances : list GSInstance;
  (** [customParameters["Variable Font Origin"]], [None] when it is not set *)
  gs_variable_font_origin : option string
}.

(** Compiled font. *)
Record FvarAxis : Type := mk_FvarAxis {
  axisTag : string;
  minValue : Q;
  defaultValue : Q;
  maxValue : Q
}.

Record NamedInstance : Type := mk_NamedInstance {
  subfamilyNameID : nat;
  coordinates : sdict Q
}.

Record NameRecord : Type := mk_NameRecord {
  nameID : nat;
  platformID : nat;
  platEncID : nat;
  name_string : string
}.

Record AxisValue : Type := mk_AxisValue {
  Format : nat;
  AxisIndex : nat;
  Flags : nat;
  ValueNameID : nat;
  Value : Q
}.

Record TTFont : Type := mk_TTFont {
  fvar_axes : list FvarAxis;
  fvar_instances : list NamedInstance;
  name_names : list NameRecord;
  (** the [AxisTag] of each record of [STAT.DesignAxisRecord.Axis] *)
  stat_axes : list string;
  stat_axis_values : list AxisValue;
  (** [avar.segments], [None] while the font has no avar table *)
  avar_segments : option (sdict curve_t)
}.

(** ** defaultNormalizedValue *)

Definition defaultNormalizedValue (axis : axis_values_t) (instanceValue : Q)
  : result Q :=
  if Qltb instanceValue (v_def axis) then
    truediv (- (v_def axis - instanceValue)) (v_def axis - v_min axis)
  else if Qltb (v_def axis) instanceValue then
    truediv (instanceValue - v_def axis) (v_max axis - v_def axis)
  else Ok 0.

(** ** Locations of the instances *)

(** [{_.name: _.axisTag for _ in gsfont.axes}] *)
Definition axes_tags_by_name (gsfont : GSFont) : sdict string :=
  fold_left (fun d a => sset d (gs_axis_name a) (gs_axisTag a))
            (gs_axes gsfont) [].

(** The dict comprehension over one instance's "Axis Location" parameter;
    iterating over a parameter that is not set ([None]) is a [TypeError]. *)
Definition declared_location (axes_tags : sdict string) (instance : GSInstance)
  : result (sdict Q) :=
  match instance_axis_location instance with
  | None => Raise TypeError
  | Some entries =>
      foldM (fun d e =>
               tag <- sgetitem axes_tags (Axis e) ;;
               Ok (sset d tag (Location e)))
            [] entries
  end.

Definition get_instance_locations (gsfont : GSFont)
  : result (sdict (sdict Q)) :=
  let axes_tags := axes_tags_by_name gsfont in
  foldM (fun instance_locations instance =>
           loc <- declared_location axes_tags instance ;;
           Ok (sset instance_locations (instance_name instance) loc))
        [] (gs_instances gsfont).

(** One instance's entry of [get_gvar_instance_locations]: every tag at
    [0.0], then [axes_tags[i]] set to the i-th value of
    [instance.axes[:len(axes_tags)]] ([combine] stops at the shorter list,
    as the slice does). *)
Definition gvar_location (axes_tags : list string) (instance : GSInstance)
  : sdict Q :=
  fold_left (fun d p => sset d (fst p) (snd p))
            (combine axes_tags (instance_axes instance))
            (fold_left (fun d axis_tag => sset d axis_tag 0) axes_tags []).

Definition get_gvar_instance_locations (gsfont : GSFont) : sdict (sdict Q) :=
  let axes_tags := map gs_axisTag (gs_axes gsfont) in
  fold_left (fun instance_locations instance =>
               sset instance_locations (instance_name instance)
                    (gvar_location axes_tags instance))
            (gs_instances gsfont) [].

(** ** Ranges of the axes *)

Definition get_axes_values (ttfont : TTFont) : sdict axis_values_t :=
  fold_left (fun d a =>
               sset d (axisTag a)
                    {| v_max := maxValue a; v_min := minValue a;
                       v_def := defaultValue a |})
            (fvar_axes ttfont) [].

(** [m.id == gsfont.customParameters["Variable Font Origin"]]; a parameter
    that is not set reads as [None], which equals no id. *)
Definition is_origin (gsfont : GSFont) (m : GSFontMaster) : bool :=
  match gs_variable_font_origin gsfont with
  | Some o => String.eqb (master_id m) o
  | None => false
  end.

(** [try: value = master.axes[axis_index] except IndexError: pass], from
    the initial [value = 0.0]. *)
Definition master_value (master : GSFontMaster) (axis_index : nat) : Q :=
  match list_getitem (master_axes master) axis_index with
  | Ok v => v
  | Raise _ => 0
  end.

(** The running [max_value] and [min_value] start at [-Inf] and [Inf]. *)
Inductive ext : Type :=
| NegInf
| Fin (q : Q)
| PosInf.

(** [value > b] and [value < b] for a finite [value]. *)
Definition gt_ext (value : Q) (b : ext) : bool :=
  match b with
  | NegInf => true
  | Fin q => Qltb q value
  | PosInf => false
  end.

Definition lt_ext (value : Q) (b : ext) : bool :=
  match b with
  | NegInf => false
  | Fin q => Qltb value q
  | PosInf => true
  end.

(** One turn of the loop over the masters; the state is
    [(max_value, min_value)]. *)
Definition scan_step (st : ext * ext) (value : Q) : ext * ext :=
  (if gt_ext value (fst st) then Fin value else fst st,
   if lt_ext value (snd st) then Fin value else snd st).

Definition scan_masters (masters : list GSFontMaster) (axis_index : nat)
  : ext * ext :=
  fold_left (fun st master => scan_step st (master_value master axis_index))
            masters (NegInf, PosInf).

(** The number stored in the dict. The loop has run at least once whenever
    the origin master exists, so both bounds are finite there
    (see [scan_masters_finite]); the infinite cases are never read. *)
Definition ext_value (b : ext) : Q :=
  match b with
  | Fin q => q
  | NegInf | PosInf => 0
  end.

Definition source_axis_values (gsfont : GSFont) (default_master : GSFontMaster)
  (axis_index : nat) : axis_values_t :=
  let default_value := master_value default_master axis_index in
  let st := scan_masters (gs_masters gsfont) axis_index in
  {| v_max := ext_value (fst st); v_min := ext_value (snd st);
     v_def := default_value |}.

Definition get_source_axes_values (gsfont : GSFont)
  : result (sdict axis_values_t) :=
  let axes_tags := map gs_axisTag (gs_axes gsfont) in
  default_master <-
    list_getitem (filter (is_origin gsfont) (gs_masters gsfont)) 0 ;;
  Ok (fold_left
        (fun axes_values p =>
           sset axes_values (snd p)
                (source_axis_values gsfont default_master (fst p)))
        (enumerate axes_tags) []).

(** ** create_avar *)

(** [max(len(_.name) for _ in gsfont.instances)]: [max] of an empty
    sequence is a [ValueError]. *)
Definition max_name_len (instances : list GSInstance) : result nat :=
  match instances with
  | [] => Raise ValueError
  | i :: rest =>
      Ok (fold_left (fun m j => Nat.max m (String.length (instance_name j)))
                    rest (String.length (instance_name i)))
  end.

Definition anchors : curve_t := [(-1, -1); (0, 0); (1, 1)].

(** The lookups of the diagnostic line, in the order the f-string makes
    them; what is printed is not part of the model. *)
Definition print_line (desired_locations : sdict (sdict Q))
  (axis_tag instance_name : string) (current_location : sdict Q)
  : result unit :=
  _ <- sgetitem current_location axis_tag ;;
  dl <- sgetitem desired_locations instance_name ;;
  _ <- sgetitem dl axis_tag ;;
  Ok tt.

(** The pair [(key, value)] of the assignment [curve[key] = value] for one
    instance: Python evaluates the right-hand side first, then the key. *)
Definition instance_point (verbose : bool) (axis_values : axis_values_t)
  (source_axes_values : sdict axis_values_t)
  (desired_locations : sdict (sdict Q))
  (axis_tag : string) (item : string * sdict Q) : result (Q * Q) :=
  let instance_name := fst item in
  let current_location := snd item in
  _ <- (if verbose
        then print_line desired_locations axis_tag instance_name
                        current_location
        else Ok tt) ;;
  source_axis <- sgetitem source_axes_values axis_tag ;;
  current <- sgetitem current_location axis_tag ;;
  value <- defaultNormalizedValue source_axis current ;;
  dl <- sgetitem desired_locations instance_name ;;
  desired <- sgetitem dl axis_tag ;;
  key <- defaultNormalizedValue axis_values desired ;;
  Ok (key, value).

(** The body of the inner loop: [curve[key] = value]. *)
Definition curve_step (verbose : bool) (axis_values : axis_values_t)
  (source_axes_values : sdict axis_values_t)
  (desired_locations : sdict (sdict Q)) (axis_tag : string)
  (curve : curve_t) (item : string * sdict Q) : result curve_t :=
  p <- instance_point verbose axis_values source_axes_values
                      desired_locations axis_tag item ;;
  Ok (qset curve (fst p) (snd p)).

(** The inner loop: the curve of one axis, from the three anchors. *)
Definition build_curve (verbose : bool) (axis_values : axis_values_t)
  (source_axes_values : sdict axis_values_t)
  (desired_locations current_locations : sdict (sdict Q))
  (axis_tag : string) : result curve_t :=
  foldM (curve_step verbose axis_values source_axes_values desired_locations
                    axis_tag)
        anchors current_locations.

(** The body of the outer loop: the curve of [axis_tag] is stored in
    [avar.segments]. *)
Definition segments_step (verbose : bool)
  (source_axes_values : sdict axis_values_t)
  (desired_locations current_locations : sdict (sdict Q))
  (segments : sdict curve_t) (a : string * axis_values_t)
  : result (sdict curve_t) :=
  curve <- build_curve verbose (snd a) source_axes_values desired_locations
                       current_locations (fst a) ;;
  Ok (sset segments (fst a) curve).

(** The outer loop: [avar.segments]. *)
Definition build_segments (verbose : bool) (axes_values : sdict axis_values_t)
  (source_axes_values : sdict axis_values_t)
  (desired_locations current_locations : sdict (sdict Q))
  : result (sdict curve_t) :=
  foldM (segments_step verbose source_axes_values desired_locations
                       current_locations)
        [] axes_values.

Definition set_avar (ttfont : TTFont) (segments : sdict curve_t) : TTFont :=
  {| fvar_axes := fvar_axes ttfont;
     fvar_instances := fvar_instances ttfont;
     name_names := name_names ttfont;
     stat_axes := stat_axes ttfont;
     stat_axis_values := stat_axis_values ttfont;
     avar_segments := Some segments |}.

(** The avar table is a local object until the last line, so an exception
    leaves [ttfont] as it was: only the outcome is returned. *)
Definition create_avar (ttfont : TTFont) (gsfont : GSFont) (verbose : bool)
  : result TTFont :=
  let axes_values := get_axes_values ttfont in
  source_axes_values <- get_source_axes_values gsfont ;;
  let current_locations := get_gvar_instance_locations gsfont in
  desired_locations <- get_instance_locations gsfont ;;
  _ <- max_name_len (gs_instances gsfont) ;;
  segments <- build_segments verbose axes_values source_axes_values
                             desired_locations current_locations ;;
  Ok (set_avar ttfont segments).

(** ** Rewriting the instance records *)

(** [name.getName(id, 3, 1)]: the first record with these ids, or [None]. *)
Definition getName (names : list NameRecord) (id platform enc : nat)
  : option NameRecord :=
  find (fun r => Nat.eqb (nameID r) id && Nat.eqb (platformID r) platform
                 && Nat.eqb (platEncID r) enc)
       names.

(** [.toUnicode()] on [None] is an [AttributeError]. *)
Definition get_name (ttfont : TTFont) (id : nat) : result string :=
  match getName (name_names ttfont) id 3 1 with
  | Some r => Ok (name_string r)
  | None => Raise AttributeError
  end.

(** A loop whose body mutates a state [S] and can raise: the state reached
    is returned with the outcome. *)
Fixpoint foldS {S B : Type} (f : S -> B -> S * result unit) (s : S)
  (l : list B) : S * result unit :=
  match l with
  | [] => (s, Ok tt)
  | x :: l' =>
      match f s x with
      | (s', Ok _) => foldS f s' l'
      | (s', Raise e) => (s', Raise e)
      end
  end.

(** The body of the loop over [stat.DesignAxisRecord.Axis]. *)
Definition stat_axis_step (desired_locations : sdict (sdict Q))
  (instance_name : string) (instance : NamedInstance)
  (values : list AxisValue) (p : nat * string)
  : list AxisValue * result unit :=
  let axisIndex := fst p in
  let axis_tag := snd p in
  match sgetitem desired_locations instance_name with
  | Raise e => (values, Raise e)
  | Ok dl =>
      if negb (contains String.eqb dl axis_tag) then (values, Ok tt)
      else
        match sgetitem dl axis_tag with
        | Raise e => (values, Raise e)
        | Ok v =>
            (values ++ [ {| Format := 1; AxisIndex := axisIndex; Flags := 0;
                            ValueNameID := subfamilyNameID instance;
                            Value := v |} ],
             Ok tt)
        end
  end.

(** The body of the loop over [fvar.instances] in [update_stat]. *)
Definition stat_instance_step (ttfont : TTFont)
  (desired_locations : sdict (sdict Q)) (axes_tags : list string)
  (values : list AxisValue) (instance : NamedInstance)
  : list AxisValue * result unit :=
  match get_name ttfont (subfamilyNameID instance) with
  | Raise e => (values, Raise e)
  | Ok instance_name =>
      foldS (stat_axis_step desired_locations instance_name instance)
            values (enumerate axes_tags)
  end.

Definition set_stat_axis_values (ttfont : TTFont) (values : list AxisValue)
  : TTFont :=
  {| fvar_axes := fvar_axes ttfont;
     fvar_instances := fvar_instances ttfont;
     name_names := name_names ttfont;
     stat_axes := stat_axes ttfont;
     stat_axis_values := values;
     avar_segments := avar_segments ttfont |}.

Definition update_stat (ttfont : TTFont) (gsfont : GSFont)
  : TTFont * result unit :=
  match get_instance_locations gsfont with
  | Raise e => (ttfont, Raise e)
  | Ok desired_locations =>
      let axes_tags := stat_axes ttfont in
      let r := foldS (stat_instance_step ttfont desired_locations axes_tags)
                     [] (fvar_instances ttfont) in
      (set_stat_axis_values ttfont (fst r), snd r)
  end.

(** The body of the loop over [instance.coordinates]. *)
Definition fvar_axis_step (desired_locations : sdict (sdict Q))
  (instance_name : string) (coords : sdict Q) (axis_tag : string)
  : sdict Q * result unit :=
  match sgetitem desired_locations instance_name with
  | Raise e => (coords, Raise e)
  | Ok dl =>
      match sgetitem dl axis_tag with
      | Raise e => (coords, Raise e)
      | Ok v => (sset coords axis_tag v, Ok tt)
      end
  end.

Definition set_coordinates (instance : NamedInstance) (coords : sdict Q)
  : NamedInstance :=
  {| subfamilyNameID := subfamilyNameID instance; coordinates := coords |}.

(** One instance of the loop in [update_fvar]: the instance as it is left,
    and the outcome. *)
Definition fvar_instance_step (ttfont : TTFont)
  (desired_locations : sdict (sdict Q)) (instance : NamedInstance)
  : NamedInstance * result unit :=
  match get_name ttfont (subfamilyNameID instance) with
  | Raise e => (instance, Raise e)
  | Ok instance_name =>
      let r := foldS (fvar_axis_step desired_locations instance_name)
                     (coordinates instance)
                     (keys (coordinates instance)) in
      (set_coordinates instance (fst r), snd r)
  end.

(** The loop over [fvar.instances]: the instances are mutated in place, one
    after the other, and the ones after an exception are not reached. *)
Fixpoint fvar_loop (ttfont : TTFont) (desired_locations : sdict (sdict Q))
  (instances : list NamedInstance) : list NamedInstance * result unit :=
  match instances with
  | [] => ([], Ok tt)
  | instance :: rest =>
      match fvar_instance_step ttfont desired_locations instance with
      | (instance', Raise e) => (instance' :: rest, Raise e)
      | (instance', Ok _) =>
          let r := fvar_loop ttfont desired_locations rest in
          (instance' :: fst r, snd r)
      end
  end.

Definition set_fvar_instances (ttfont : TTFont)
  (instances : list NamedInstance) : TTFont :=
  {| fvar_axes := fvar_axes ttfont;
     fvar_instances := instances;
     name_names := name_names ttfont;
     stat_axes := stat_axes ttfont;
     stat_axis_values := stat_axis_values ttfont;
     avar_segments := avar_segments ttfont |}.

Definition update_fvar (ttfont : TTFont) (gsfont : GSFont)
  : TTFont * result unit :=
  match get_instance_locations gsfont with
  | Raise e => (ttfont, Raise e)
  | Ok desired_locations =>
      let r := fvar_loop ttfont desired_locations (fvar_instances ttfont) in
      (set_fvar_instances ttfont (fst r), snd r)
  end.

(** ** Statements shared by the properties *)

(** Numeric equality of an outcome with a number. *)
Definition returns (r : result Q) (q : Q) : Prop :=
  exists x, r = Ok x /\ x == q.

(** [min < default < max] *)
Definition well_formed (axis : axis_values_t) : Prop :=
  v_min axis < v_def axis /\ v_def axis < v_max axis.

(** The curve that [create_avar] stores for [axis_tag]. *)
Definition avar_curve (ttfont' : TTFont) (axis_tag : string) : option curve_t :=
  match avar_segments ttfont' with
  | Some segments => sget segments axis_tag
  | None => None
  end.

(** The two normalized positions of an instance on an axis:
    [current] from the interpolation coordinates of the source under the
    source-side range, [desired] from the declared location under the
    range of the compiled font. *)
Definition normalized_pair (ttfont : TTFont) (gsfont : GSFont)
  (axis_tag instance_name : string) (current desired : Q) : Prop :=
  exists axis_values source_axes_values source_axis current_location
         desired_locations dl c d,
    sget (get_axes_values ttfont) axis_tag = Some axis_values /\
    get_source_axes_values gsfont = Ok source_axes_values /\
    sget source_axes_values axis_tag = Some source_axis /\
    sget (get_gvar_instance_locations gsfont) instance_name
      = Some current_location /\
    sget current_location axis_tag = Some c /\
    get_instance_locations gsfont = Ok desired_locations /\
    sget desired_locations instance_name = Some dl /\
    sget dl axis_tag = Some d /\
    defaultNormalizedValue source_axis c = Ok current /\
    defaultNormalizedValue axis_values d = Ok desired.

(** The curve of every axis has the entry [current -> desired] for every
    instance. *)
Definition curve_sends_current_to_desired (ttfont : TTFont) (gsfont : GSFont)
  : Prop :=
  forall ttfont' axis_tag instance_name current desired,
    create_avar ttfont gsfont true = Ok ttfont' ->
    normalized_pair ttfont gsfont axis_tag instance_name current desired ->
    exists curve v,
      avar_curve ttfont' axis_tag = Some curve /\
      qget curve current = Some v /\ v == desired.

(** Some instance of the compiled font has a name that no instance of the
    source carries. *)
Definition has_unmatched_instance (ttfont : TTFont) (gsfont : GSFont) : Prop :=
  exists instance name,
    In instance (fvar_instances ttfont) /\
    get_name ttfont (subfamilyNameID instance) = Ok name /\
    ~ In name (map instance_name (gs_instances gsfont)).

(** Both rewriters raise and leave the font as it was. *)
Definition rewriting_is_all_or_nothing (ttfont : TTFont) (gsfont : GSFont)
  : Prop :=
  has_unmatched_instance ttfont gsfont ->
  (exists e, update_stat ttfont gsfont = (ttfont, Raise e)) /\
  (exists e, update_fvar ttfont gsfont = (ttfont, Raise e)).

(** Each anchor key of every curve maps to itself. *)
Definition anchors_map_to_themselves (ttfont : TTFont) (gsfont : GSFont)
  : Prop :=
  forall ttfont' axis_tag curve,
    create_avar ttfont gsfont true = Ok ttfont' ->
    avar_curve ttfont' axis_tag = Some curve ->
    returns (getitem Qeq_bool curve (-1)) (-1) /\
    returns (getitem Qeq_bool curve 0) 0 /\
    returns (getitem Qeq_bool curve 1) 1.

(** The normalized current position of every instance on every axis equals
    its normalized desired position. *)
Definition normalized_locations_agree (ttfont : TTFont) (gsfont : GSFont)
  : Prop :=
  forall axis_tag instance_name current desired,
    normalized_pair ttfont gsfont axis_tag instance_name current desired ->
    current == desired.

(** Every curve is the three anchors and nothing else. *)
Definition curves_are_the_anchors (ttfont : TTFont) (gsfont : GSFont) : Prop :=
  forall ttfont' axis_tag curve,
    create_avar ttfont gsfont true = Ok ttfont' ->
    avar_curve ttfont' axis_tag = Some curve ->
    curve = anchors.

(** The curve has an entry equal, as numbers, to [k -> v]. *)
Definition contains_point (curve : curve_t) (k v : Q) : Prop :=
  exists k' v', In (k', v') curve /\ k' == k /\ v' == v.

(** Every entry of a curve maps its key to itself. *)
Definition identity_curve (curve : curve_t) : Prop :=
  forall k v, In (k, v) curve -> k == v.

(** An instance of the compiled font that [update_fvar] can rewrite: its
    name resolves, the source declares a location under that name, and the
    declaration covers every tag of the instance's coordinates. *)
Definition rewritable (ttfont : TTFont) (desired_locations : sdict (sdict Q))
  (instance : NamedInstance) : Prop :=
  exists name dl,
    get_name ttfont (subfamilyNameID instance) = Ok name /\
    sget desired_locations name = Some dl /\
    forall axis_tag, In axis_tag (keys (coordinates instance)) ->
                     sget dl axis_tag <> None.

(** [instance'] is [instance] with every coordinate replaced by the declared
    design-space value of the same tag. *)
Definition rewritten (ttfont : TTFont) (desired_locations : sdict (sdict Q))
  (instance instance' : NamedInstance) : Prop :=
  subfamilyNameID instance' = subfamilyNameID instance /\
  keys (coordinates instance') = keys (coordinates instance) /\
  exists name dl,
    get_name ttfont (subfamilyNameID instance) = Ok name /\
    sget desired_locations name = Some dl /\
    forall axis_tag, In axis_tag (keys (coordinates instance)) ->
                     sget (coordinates instance') axis_tag = sget dl axis_tag
                     /\ sget dl axis_tag <> None.

(** Every rewritable instance is rewritten, whatever the other instances
    are. *)
Definition every_rewritable_instance_is_rewritten (ttfont : TTFont)
  (gsfont : GSFont) : Prop :=
  forall desired_locations n instance,
    get_instance_locations gsfont = Ok desired_locations ->
    nth_error (fvar_instances ttfont) n = Some instance ->
    rewritable ttfont desired_locations instance ->
    exists instance',
      nth_error (fvar_instances (fst (update_fvar ttfont gsfont))) n
        = Some instance' /\
      rewritten ttfont desired_locations instance instance'.

(** A record of the STAT axis-value array built for one of [instances]. *)
Definition stat_record_of (ttfont : TTFont)
  (desired_locations : sdict (sdict Q)) (instances : list NamedInstance)
  (r : AxisValue) : Prop :=
  exists instance name dl axis_tag,
    In instance instances /\
    ValueNameID r = subfamilyNameID instance /\
    get_name ttfont (subfamilyNameID instance) = Ok name /\
    sget desired_locations name = Some dl /\
    nth_error (stat_axes ttfont) (AxisIndex r) = Some axis_tag /\
    sget dl axis_tag = Some (Value r).

(** Every master with explicit coordinates: the missing ones written out
    as [0.0], up to [n] coordinates. *)
Definition pad_master (n : nat) (m : GSFontMaster) : GSFontMaster :=
  {| master_id := master_id m;
     master_axes := master_axes m
                    ++ repeat 0 (n - List.length (master_axes m)) |}.

Definition pad_masters (n : nat) (gsfont : GSFont) : GSFont :=
  {| gs_axes := gs_axes gsfont;
     gs_masters := map (pad_master n) (gs_masters gsfont);
     gs_instances := gs_instances gsfont;
     gs_variable_font_origin := gs_variable_font_origin gsfont |}.

(** ** Fonts used in the examples *)

Local Open Scope string_scope.

Definition weight_axis : GSAxis :=
  {| gs_axis_name := "Weight"; gs_axisTag := "wght" |}.

Definition name_record (id : nat) (s : string) : NameRecord :=
  {| nameID := id; platformID := 3; platEncID := 1; name_string := s |}.

Definition one_axis_source (lo origin hi : Q) (instances : list GSInstance)
  : GSFont :=
  {| gs_axes := [weight_axis];
     gs_masters := [ {| master_id := "light"; master_axes := [lo] |};
                     {| master_id := "regular"; master_axes := [origin] |};
                     {| master_id := "black"; master_axes := [hi] |} ];
     gs_instances := instances;
     gs_variable_font_origin := Some "regular" |}.

Definition source_instance (name : string) (current desired : Q) : GSInstance :=
  {| instance_name := name;
     instance_axes := [current];
     instance_axis_location :=
       Some [ {| Axis := "Weight"; Location := desired |} ] |}.

Definition one_axis_font (lo default hi : Q)
  (instances : list (nat * string * Q)) : TTFont :=
  {| fvar_axes := [ {| axisTag := "wght"; minValue := lo;
                       defaultValue := default; maxValue := hi |} ];
     fvar_instances :=
       map (fun i => {| subfamilyNameID := fst (fst i);
                        coordinates := [("wght", snd i)] |}) instances;
     name_names := map (fun i => name_record (fst (fst i)) (snd (fst i)))
                       instances;
     stat_axes := ["wght"];
     stat_axis_values := [];
     avar_segments := None |}.

(** "wght" with both ranges (100, 400, 900); "Bold" at 700 on both sides. *)
Definition bold_source : GSFont :=
  one_axis_source 100 400 900 [source_instance "Bold" 700 700].
Definition bold_font : TTFont :=
  one_axis_font 100 400 900 [(256%nat, "Bold", 700)].

(** Source range (0, 400, 800), compiled range (100, 400, 800); "Medium"
    interpolates at 600 and is declared at 500. *)
Definition medium_source : GSFont :=
  one_axis_source 0 400 800 [source_instance "Medium" 600 500].
Definition medium_font : TTFont :=
  one_axis_font 100 400 800 [(256%nat, "Medium", 600)].

(** "Light" interpolates at 200 and is declared at the default, 400. *)
Definition light_source : GSFont :=
  one_axis_source 0 400 800 [source_instance "Light" 200 400].
Definition light_font : TTFont :=
  one_axis_font 100 400 800 [(256%nat, "Light", 200)].

(** The compiled font names "Regular" and "Bold"; the source has only
    "Regular", declared at 450. *)
Definition regular_source : GSFont :=
  one_axis_source 100 400 900 [source_instance "Regular" 400 450].
Definition regular_bold_font : TTFont :=
  {| fvar_axes := fvar_axes (one_axis_font 100 400 900 []);
     fvar_instances :=
       fvar_instances
         (one_axis_font 100 400 900
            [(256%nat, "Regular", 400); (257%nat, "Bold", 700)]);
     name_names :=
       name_names
         (one_axis_font 100 400 900
            [(256%nat, "Regular", 400); (257%nat, "Bold", 700)]);
     stat_axes := ["wght"];
     stat_axis_values :=
       [ {| Format := 1; AxisIndex := 0; Flags := 0; ValueNameID := 256;
            Value := 400 |} ];
     avar_segments := None |}.

(** The same names in the other order: "Bold" comes first. *)
Definition bold_regular_font : TTFont :=
  one_axis_font 100 400 900
    [(257%nat, "Bold", 700); (256%nat, "Regular", 400)].

(** Two masters at the same weight: the source range is (400, 400, 400). *)
Definition flat_source : GSFont :=
  one_axis_source 400 400 400 [source_instance "Regular" 400 400].

(** A master without coordinates beside explicit ones. *)
Definition sparse_source : GSFont :=
  {| gs_axes := [weight_axis;
                 {| gs_axis_name := "Width"; gs_axisTag := "wdth" |}];
     gs_masters := [ {| master_id := "light"; master_axes := [] |};
                     {| master_id := "regular"; master_axes := [400] |};
                     {| master_id := "black"; master_axes := [900; 120] |} ];
     gs_instances := [];
     gs_variable_font_origin := Some "regular" |}.

Local Close Scope string_scope.


(** ** The rest of the program *)

(** [{name.getName(_.subfamilyNameID, 3, 1).toUnicode(): _.coordinates
      for _ in ttfont["fvar"].instances}] *)
Definition get_current_instance_locations (ttfont : TTFont)
  : result (sdict (sdict Q)) :=
  foldM (fun instances i =>
           name <- get_name ttfont (subfamilyNameID i) ;;
           Ok (sset instances name (coordinates i)))
        [] (fvar_instances ttfont).

(** [s.split(".")], with [cur] the piece read so far. A path is a string
    of bytes here; in UTF-8 the dot is one byte and part of no other
    character, so the pieces are those of the Python string. *)
Fixpoint split_from (cur s : string) : list string :=
  match s with
  | EmptyString => [cur]
  | String c s' =>
      if Ascii.eqb c "."%char then cur :: split_from EmptyString s'
      else split_from (cur ++ String c EmptyString) s'
  end.

Definition split_dot (s : string) : list string := split_from EmptyString s.

(** ["." in s] *)
Fixpoint has_dot (s : string) : bool :=
  match s with
  | EmptyString => false
  | String c s' => Ascii.eqb c "."%char || has_dot s'
  end.

(** [".".join(path.split(".")[:-1]) + "_avar.ttf"] *)
Definition save_path (path : string) : string :=
  (String.concat "." (removelast (split_dot path)) ++ "_avar.ttf")%string.

(** The three steps of [main] on the loaded fonts: the font as it stands at
    the end or at the exception, and the outcome. *)
Definition transform (ttfont : TTFont) (gsfont : GSFont)
  : TTFont * result unit :=
  match create_avar ttfont gsfont true with
  | Raise e => (ttfont, Raise e)
  | Ok ttfont1 =>
      match update_stat ttfont1 gsfont with
      | (ttfont2, Raise e) => (ttfont2, Raise e)
      | (ttfont2, Ok _) => update_fvar ttfont2 gsfont
      end
  end.

(** [main] after the two files are loaded: what is saved, and where. The
    font is saved on the last line, so an exception saves nothing. *)
Definition main (path : string) (ttfont : TTFont) (gsfont : GSFont)
  : result (string * TTFont) :=
  match transform ttfont gsfont with
  | (ttfont', Ok _) => Ok (save_path path, ttfont')
  | (_, Raise e) => Raise e
  end.

(** ** Statements of the further properties *)

(** No two entries of a curve have equal keys. *)
Fixpoint distinct_keys (curve : curve_t) : Prop :=
  match curve with
  | [] => True
  | (k, _) :: curve' => qget curve' k = None /\ distinct_keys curve'
  end.

(** An instance of the source whose "Axis Location" parameter is set and
    names only axes of the source. *)
Definition well_declared (gsfont : GSFont) (instance : GSInstance) : Prop :=
  exists entries,
    instance_axis_location instance = Some entries /\
    forall e, In e entries ->
              In (Axis e) (map gs_axis_name (gs_axes gsfont)).

(** The name of an instance of the compiled font resolves. *)
Definition name_resolves (ttfont : TTFont) (instance : NamedInstance) : Prop :=
  exists name, get_name ttfont (subfamilyNameID instance) = Ok name.

(** The name of an instance of the compiled font resolves to a name under
    which the source declares a location. *)
Definition matched (ttfont : TTFont) (desired_locations : sdict (sdict Q))
  (instance : NamedInstance) : Prop :=
  exists name dl,
    get_name ttfont (subfamilyNameID instance) = Ok name /\
    sget desired_locations name = Some dl.

(** The declared location of an instance of the compiled font, the empty
    dict when there is none. *)
Definition declared_for (ttfont : TTFont)
  (desired_locations : sdict (sdict Q)) (instance : NamedInstance) : sdict Q :=
  match get_name ttfont (subfamilyNameID instance) with
  | Ok name =>
      match sget desired_locations name with
      | Some dl => dl
      | None => []
      end
  | Raise _ => []
  end.

(** The records of one instance: a format-1 record for every design axis,
    in order, whose tag the instance's location declares. *)
Definition stat_records (dl : sdict Q) (axes_tags : list string) (id : nat)
  : list AxisValue :=
  flat_map (fun p =>
              match sget dl (snd p) with
              | Some v => [ {| Format := 1; AxisIndex := fst p; Flags := 0;
                               ValueNameID := id; Value := v |} ]
              | None => []
              end)
           (enumerate axes_tags).

(** Two fonts that differ at most in the coordinates' values of the fvar
    instances. *)
Definition same_but_coordinate_values (t t' : TTFont) : Prop :=
  fvar_axes t' = fvar_axes t /\
  name_names t' = name_names t /\
  stat_axes t' = stat_axes t /\
  stat_axis_values t' = stat_axis_values t /\
  avar_segments t' = avar_segments t /\
  map subfamilyNameID (fvar_instances t')
  = map subfamilyNameID (fvar_instances t) /\
  map (fun i => keys (coordinates i)) (fvar_instances t')
  = map (fun i => keys (coordinates i)) (fvar_instances t).

(** [instance'] is what [update_fvar] leaves of [instance] when it
    returns: the same name id and the same coordinate tags, each holding
    the value that the source declares for it under the instance's name. *)
Definition settled (ttfont : TTFont) (desired_locations : sdict (sdict Q))
  (instance instance' : NamedInstance) : Prop :=
  subfamilyNameID instance' = subfamilyNameID instance /\
  keys (coordinates instance') = keys (coordinates instance) /\
  exists name,
    get_name ttfont (subfamilyNameID instance) = Ok name /\
    forall axis_tag,
      In axis_tag (keys (coordinates instance)) ->
      exists dl v,
        sget desired_locations name = Some dl /\
        sget dl axis_tag = Some v /\
        sget (coordinates instance') axis_tag = Some v.

(** ** Data of the further examples *)

Local Open Scope string_scope.

(** A source without the "Variable Font Origin" parameter. *)
Definition no_origin_source : GSFont :=
  {| gs_axes := [weight_axis];
     gs_masters := [ {| master_id := "light"; master_axes := [100] |} ];
     gs_instances := [source_instance "Regular" 100 100];
     gs_variable_font_origin := None |}.

(** A source without instances. *)
Definition no_instance_source : GSFont := one_axis_source 100 400 900 [].

(** Two axes; "Bold" has one interpolation coordinate and three would be
    too many. *)
Definition two_axis_source (coords : list Q) : GSFont :=
  {| gs_axes := [weight_axis;
                 {| gs_axis_name := "Width"; gs_axisTag := "wdth" |}];
     gs_masters := [ {| master_id := "regular"; master_axes := [400; 100] |};
                     {| master_id := "black"; master_axes := [900; 125] |} ];
     gs_instances :=
       [ {| instance_name := "Bold"; instance_axes := coords;
            instance_axis_location :=
              Some [ {| Axis := "Weight"; Location := 700 |};
                     {| Axis := "Width"; Location := 100 |} ] |} ];
     gs_variable_font_origin := Some "regular" |}.

(** A compiled font with a width axis that the one-axis sources lack. *)
Definition width_font : TTFont :=
  {| fvar_axes := [ {| axisTag := "wdth"; minValue := 75;
                       defaultValue := 100; maxValue := 125 |} ];
     fvar_instances := [];
     name_names := [];
     stat_axes := [];
     stat_axis_values := [];
     avar_segments := None |}.

(** "Regular" with a width coordinate that the source does not declare;
    STAT lists the width axis too. *)
Definition regular_width_font : TTFont :=
  {| fvar_axes := fvar_axes (one_axis_font 100 400 900 []);
     fvar_instances :=
       [ {| subfamilyNameID := 256;
            coordinates := [("wght", 400); ("wdth", 100)] |} ];
     name_names := [name_record 256 "Regular"];
     stat_axes := ["wght"; "wdth"];
     stat_axis_values := [];
     avar_segments := None |}.

Local Close Scope string_scope.
Local Open Scope string_scope.

(** "Regular" is declared at 450; "Draft" has no "Axis Location". *)
Definition draft_source : GSFont :=
  one_axis_source 100 400 900
    [ source_instance "Regular" 400 450;
      {| instance_name := "Draft"; instance_axes := [500];
         instance_axis_location := None |} ].

(** A compiled font with the one instance "Regular" at 400. *)
Definition regular_font : TTFont :=
  one_axis_font 100 400 900 [(256%nat, "Regular", 400)].

Local Close Scope string_scope.

(** * Properties *)

(** ** Numbers *)

Lemma Qltb_lt (a b : Q) : Qltb a b = true <-> a < b.
Proof.
  unfold Qltb. rewrite negb_true_iff. split.
  - intros H. apply Qnot_le_lt. intros Hle.
    apply Qle_bool_iff in Hle. congruence.
  - intros H. destruct (Qle_bool b a) eqn:E; [|reflexivity].
    apply Qle_bool_iff in E. exfalso. apply (Qlt_not_le _ _ H E).
Qed.

Lemma Qltb_ge (a b : Q) : Qltb a b = false <-> b <= a.
Proof.
  unfold Qltb. rewrite negb_false_iff. apply Qle_bool_iff.
Qed.

Lemma truediv_ok (a b : Q) : ~ b == 0 -> truediv a b = Ok (a / b).
Proof.
  intros H. unfold truediv.
  destruct (Qeq_bool b 0) eqn:E; [|reflexivity].
  apply Qeq_bool_iff in E. contradiction.
Qed.

Lemma truediv_zero (a b : Q) : b == 0 -> truediv a b = Raise ZeroDivisionError.
Proof.
  intros H. unfold truediv. apply Qeq_bool_iff in H. now rewrite H.
Qed.

Lemma Qdiv_le_compat (a b d : Q) : 0 < d -> a <= b -> a / d <= b / d.
Proof.
  intros Hd Hab. unfold Qdiv. apply Qmult_le_compat_r; [assumption|].
  apply Qinv_le_0_compat. now apply Qlt_le_weak.
Qed.

Lemma Qdiv_nonneg (a d : Q) : 0 < d -> 0 <= a -> 0 <= a / d.
Proof.
  intros Hd Ha. setoid_replace 0 with (0 / d) at 1 by (unfold Qdiv; ring).
  now apply Qdiv_le_compat.
Qed.

Lemma Qdiv_nonpos (a d : Q) : 0 < d -> a <= 0 -> a / d <= 0.
Proof.
  intros Hd Ha. setoid_replace 0 with (0 / d) at 1 by (unfold Qdiv; ring).
  now apply Qdiv_le_compat.
Qed.

(** The three branches of [defaultNormalizedValue] on a well-formed range. *)
Lemma normalize_below (axis : axis_values_t) (v : Q) :
  v_min axis < v_def axis -> v < v_def axis ->
  defaultNormalizedValue axis v
  = Ok (- (v_def axis - v) / (v_def axis - v_min axis)).
Proof.
  intros Hm Hv. unfold defaultNormalizedValue.
  apply Qltb_lt in Hv. rewrite Hv. apply truediv_ok. lra.
Qed.

Lemma normalize_above (axis : axis_values_t) (v : Q) :
  v_def axis < v_max axis -> v_def axis < v ->
  defaultNormalizedValue axis v
  = Ok ((v - v_def axis) / (v_max axis - v_def axis)).
Proof.
  intros Hm Hv. unfold defaultNormalizedValue.
  assert (Qltb v (v_def axis) = false) as -> by (apply Qltb_ge; lra).
  apply Qltb_lt in Hv. rewrite Hv. apply truediv_ok. lra.
Qed.

Lemma normalize_at_default (axis : axis_values_t) (v : Q) :
  v == v_def axis -> defaultNormalizedValue axis v = Ok 0.
Proof.
  intros Hv. unfold defaultNormalizedValue.
  assert (Qltb v (v_def axis) = false) as -> by (apply Qltb_ge; lra).
  assert (Qltb (v_def axis) v = false) as -> by (apply Qltb_ge; lra).
  reflexivity.
Qed.

(** On a well-formed range the function always returns. *)
Lemma normalize_total (axis : axis_values_t) (v : Q) :
  well_formed axis -> exists r, defaultNormalizedValue axis v = Ok r.
Proof.
  intros [Hlo Hhi].
  destruct (Q_dec v (v_def axis)) as [[Hlt | Hgt] | Heq].
  - eexists. now apply normalize_below.
  - eexists. now apply normalize_above.
  - eexists. now apply normalize_at_default.
Qed.

(** C3: on a range with [min < default < max], [defaultNormalizedValue]
    returns 0.0 at the default, -1.0 at the minimum and 1.0 at the
    maximum. *)
Theorem normalize_anchor_values (axis : axis_values_t) :
  v_min axis < v_def axis -> v_def axis < v_max axis ->
  defaultNormalizedValue axis (v_def axis) = Ok 0 /\
  returns (defaultNormalizedValue axis (v_min axis)) (-1) /\
  returns (defaultNormalizedValue axis (v_max axis)) 1.
Proof.
  intros Hlo Hhi. split; [|split].
  - apply normalize_at_default. reflexivity.
  - eexists. split; [now apply normalize_below|].
    field. lra.
  - eexists. split; [now apply normalize_above|].
    field. lra.
Qed.

Lemma normalize_anchor_values_witness :
  let axis := {| v_max := 900; v_min := 100; v_def := 400 |} in
  defaultNormalizedValue axis 400 = Ok 0 /\
  returns (defaultNormalizedValue axis 100) (-1) /\
  returns (defaultNormalizedValue axis 900) 1.
Proof.
  apply (normalize_anchor_values
           {| v_max := 900; v_min := 100; v_def := 400 |});
    reflexivity.
Defined.

(** C7: on a range with [min < default < max], [defaultNormalizedValue]
    returns on every input and is monotonically non-decreasing. *)
Theorem normalize_monotone (axis : axis_values_t) (v1 v2 : Q) :
  v_min axis < v_def axis -> v_def axis < v_max axis ->
  v1 <= v2 ->
  exists r1 r2,
    defaultNormalizedValue axis v1 = Ok r1 /\
    defaultNormalizedValue axis v2 = Ok r2 /\
    r1 <= r2.
Proof.
  intros Hlo Hhi Hle.
  destruct (Q_dec v1 (v_def axis)) as [[H1 | H1] | H1];
    destruct (Q_dec v2 (v_def axis)) as [[H2 | H2] | H2];
    try (exfalso; lra).
  - do 2 eexists. split; [now apply normalize_below|].
    split; [now apply normalize_below|].
    apply Qdiv_le_compat; lra.
  - do 2 eexists. split; [now apply normalize_below|].
    split; [now apply normalize_above|].
    apply Qle_trans with 0; [apply Qdiv_nonpos | apply Qdiv_nonneg]; lra.
  - do 2 eexists. split; [now apply normalize_below|].
    split; [now apply normalize_at_default|].
    apply Qdiv_nonpos; lra.
  - do 2 eexists. split; [now apply normalize_above|].
    split; [now apply normalize_above|].
    apply Qdiv_le_compat; lra.
  - do 2 eexists. split; [now apply normalize_at_default|].
    split; [now apply normalize_above|].
    apply Qdiv_nonneg; lra.
  - do 2 eexists. split; [now apply normalize_at_default|].
    split; [now apply normalize_at_default|].
    lra.
Qed.

Lemma normalize_monotone_witness :
  exists r1 r2,
    defaultNormalizedValue {| v_max := 900; v_min := 100; v_def := 400 |} 250
      = Ok r1 /\
    defaultNormalizedValue {| v_max := 900; v_min := 100; v_def := 400 |} 700
      = Ok r2 /\
    r1 <= r2.
Proof.
  apply (normalize_monotone {| v_max := 900; v_min := 100; v_def := 400 |}
                            250 700);
    vm_compute; congruence.
Defined.

(** ** Dictionaries *)

Section DictFacts.
Context {K V : Type}.
Variable keq : K -> K -> bool.
Hypothesis keq_refl : forall a, keq a a = true.
Hypothesis keq_sym : forall a b, keq a b = keq b a.
Hypothesis keq_trans :
  forall a b c, keq a b = true -> keq b c = true -> keq a c = true.

Lemma dict_get_set (d : dict K V) (k k' : K) (v : V) :
  dict_get keq (dict_set keq d k v) k'
  = if keq k k' then Some v else dict_get keq d k'.
Proof.
  induction d as [|[k0 v0] d IH]; simpl.
  - reflexivity.
  - destruct (keq k0 k) eqn:E0; simpl.
    + destruct (keq k0 k') eqn:E1.
      * rewrite (keq_trans k k0 k'); [reflexivity| |assumption].
        now rewrite keq_sym.
      * destruct (keq k k') eqn:E2; [|reflexivity].
        rewrite (keq_trans k0 k k') in E1; [discriminate|assumption..].
    + destruct (keq k0 k') eqn:E1.
      * destruct (keq k k') eqn:E2; [|reflexivity].
        rewrite keq_sym in E2.
        rewrite (keq_trans k0 k' k) in E0; [discriminate|assumption..].
      * apply IH.
Qed.

(** An assignment leaves the entries or puts the new value under a key
    equal to the assigned one. *)
Lemma dict_set_In (d : dict K V) (k k0 : K) (v v0 : V) :
  In (k, v) (dict_set keq d k0 v0) ->
  In (k, v) d \/ (v = v0 /\ keq k k0 = true).
Proof.
  induction d as [|[k1 v1] d IH]; simpl.
  - intros [H | []]. inversion H; subst. right. now split.
  - destruct (keq k1 k0) eqn:E; simpl.
    + intros [H | H].
      * inversion H; subst. right. now split.
      * left. now right.
    + intros [H | H].
      * left. now left.
      * destruct (IH H) as [H' | H']; [left; now right | now right].
Qed.

Lemma dict_get_In (d : dict K V) (k : K) (v : V) :
  dict_get keq d k = Some v -> exists k', In (k', v) d /\ keq k' k = true.
Proof.
  induction d as [|[k1 v1] d IH]; simpl; [discriminate|].
  destruct (keq k1 k) eqn:E.
  - intros H. inversion H; subst. exists k1. split; [now left | assumption].
  - intros H. destruct (IH H) as (k' & Hin & Hk).
    exists k'. split; [now right | assumption].
Qed.
End DictFacts.

Lemma sget_sset {V} (d : sdict V) (k k' : string) (v : V) :
  sget (sset d k v) k' = if String.eqb k k' then Some v else sget d k'.
Proof.
  unfold sget, sset. apply dict_get_set.
  - apply String.eqb_sym.
  - intros a b c Hab Hbc. apply String.eqb_eq in Hab, Hbc. subst.
    apply String.eqb_refl.
Qed.

Lemma qget_qset (d : curve_t) (k k' v : Q) :
  qget (qset d k v) k' = if Qeq_bool k k' then Some v else qget d k'.
Proof.
  unfold qget, qset. apply dict_get_set.
  - apply Qeq_bool_comm.
  - apply Qeq_bool_trans.
Qed.

Lemma qset_In (d : curve_t) (k k0 v v0 : Q) :
  In (k, v) (qset d k0 v0) -> In (k, v) d \/ (v = v0 /\ k == k0).
Proof.
  intros H. apply (dict_set_In Qeq_bool Qeq_bool_refl) in H.
  destruct H as [H | [H1 H2]]; [now left|].
  right. split; [assumption | now apply Qeq_bool_iff].
Qed.

(** ** Lists *)

Lemma In_combine_seq {A : Type} (l : list A) (s i : nat) (a : A) :
  In (i, a) (combine (seq s (List.length l)) l) ->
  (s <= i)%nat /\ nth_error l (i - s) = Some a.
Proof.
  revert s. induction l as [|x l IH]; intros s; simpl; [intros []|].
  intros [H | H].
  - inversion H; subst. split; [lia|]. now rewrite Nat.sub_diag.
  - destruct (IH (S s) H) as [Hle Hn]. split; [lia|].
    replace (i - s)%nat with (S (i - S s)) by lia. exact Hn.
Qed.

Lemma In_enumerate {A : Type} (l : list A) (i : nat) (a : A) :
  In (i, a) (enumerate l) -> nth_error l i = Some a.
Proof.
  intros H. apply In_combine_seq in H. destruct H as [_ H].
  now rewrite Nat.sub_0_r in H.
Qed.

(** What a dict filled by a loop holds under a key. *)
Lemma sget_fold_sset {A V : Type} (key : A -> string) (val : A -> V)
  (l : list A) (d0 : sdict V) (k : string) (v : V) :
  sget (fold_left (fun d a => sset d (key a) (val a)) l d0) k = Some v ->
  (exists a, In a l /\ key a = k /\ val a = v) \/ sget d0 k = Some v.
Proof.
  revert d0. induction l as [|a l IH]; intros d0; simpl; [now right|].
  intros H. destruct (IH _ H) as [(b & Hb & Hk & Hv) | H0].
  - left. exists b. split; [now right | now split].
  - rewrite sget_sset in H0. destruct (String.eqb (key a) k) eqn:E.
    + left. exists a. apply String.eqb_eq in E. inversion H0.
      split; [now left | now split].
    + now right.
Qed.

(** ** The source-side range *)

(** The running maximum and minimum over values that all equal [c]. *)
Lemma scan_constant (c : Q) (values : list Q) (st : ext * ext) :
  (forall v, In v values -> v == c) ->
  (exists mx mn, st = (Fin mx, Fin mn) /\ mx == c /\ mn == c) ->
  exists mx mn,
    fold_left scan_step values st = (Fin mx, Fin mn) /\ mx == c /\ mn == c.
Proof.
  revert st. induction values as [|v values IH]; intros st Hall Hst; simpl.
  - exact Hst.
  - apply IH; [intros w Hw; apply Hall; now right|].
    destruct Hst as (mx & mn & -> & Hmx & Hmn).
    assert (Hv : v == c) by (apply Hall; now left).
    unfold scan_step; simpl.
    assert (Qltb mx v = false) as -> by (apply Qltb_ge; lra).
    assert (Qltb v mn = false) as -> by (apply Qltb_ge; lra).
    now exists mx, mn.
Qed.

Lemma scan_masters_values (masters : list GSFontMaster) (i : nat) :
  scan_masters masters i
  = fold_left scan_step (map (fun m => master_value m i) masters)
              (NegInf, PosInf).
Proof.
  unfold scan_masters. generalize (NegInf, PosInf).
  induction masters as [|m masters IH]; intros st; simpl; [reflexivity|].
  apply IH.
Qed.

(** Once a master has been seen, both bounds are finite. *)
Lemma scan_step_finite (values : list Q) (mx mn : Q) :
  exists mx' mn',
    fold_left scan_step values (Fin mx, Fin mn) = (Fin mx', Fin mn').
Proof.
  revert mx mn. induction values as [|v values IH]; intros mx mn; simpl.
  - now exists mx, mn.
  - unfold scan_step at 2; simpl.
    destruct (Qltb mx v), (Qltb v mn); apply IH.
Qed.

Lemma scan_masters_finite (masters : list GSFontMaster) (i : nat) :
  masters <> [] ->
  exists mx mn, scan_masters masters i = (Fin mx, Fin mn).
Proof.
  intros Hne. rewrite scan_masters_values.
  destruct masters as [|m masters]; [contradiction|]. simpl.
  unfold scan_step at 2; simpl. apply scan_step_finite.
Qed.

Lemma scan_masters_constant (masters : list GSFontMaster) (i : nat) (c : Q) :
  masters <> [] ->
  (forall m, In m masters -> master_value m i == c) ->
  exists mx mn,
    scan_masters masters i = (Fin mx, Fin mn) /\ mx == c /\ mn == c.
Proof.
  intros Hne Hall. rewrite scan_masters_values.
  destruct masters as [|m masters]; [contradiction|]. simpl.
  unfold scan_step at 2; simpl.
  apply scan_constant.
  - intros v Hv. apply in_map_iff in Hv. destruct Hv as (m' & <- & Hm').
    apply Hall. now right.
  - exists (master_value m i), (master_value m i).
    split; [reflexivity|]. split; apply Hall; now left.
Qed.

(** What [get_source_axes_values] stores under a tag. *)
Lemma get_source_axes_values_entry (gsfont : GSFont)
  (source_axes_values : sdict axis_values_t) (axis_tag : string)
  (axis : axis_values_t) :
  get_source_axes_values gsfont = Ok source_axes_values ->
  sget source_axes_values axis_tag = Some axis ->
  exists default_master i,
    In default_master (gs_masters gsfont) /\
    is_origin gsfont default_master = true /\
    nth_error (map gs_axisTag (gs_axes gsfont)) i = Some axis_tag /\
    axis = source_axis_values gsfont default_master i.
Proof.
  unfold get_source_axes_values, list_getitem. intros Hg Hs.
  destruct (filter (is_origin gsfont) (gs_masters gsfont))
    as [|dm rest] eqn:Ef; simpl in Hg; [discriminate|].
  inversion Hg; subst; clear Hg.
  assert (Hdm : In dm (filter (is_origin gsfont) (gs_masters gsfont)))
    by (rewrite Ef; now left).
  apply filter_In in Hdm. destruct Hdm as [Hin Hor].
  apply (sget_fold_sset snd
           (fun p => source_axis_values gsfont dm (fst p))) in Hs.
  destruct Hs as [([i t] & Hp & Hk & Hv) | Hs]; [|discriminate].
  simpl in Hk, Hv. subst t.
  exists dm, i. repeat split; try assumption.
  - now apply In_enumerate.
  - now symmetry.
Qed.

Lemma normalize_degenerate (axis : axis_values_t) (v : Q) :
  v_min axis == v_def axis -> v_def axis == v_max axis ->
  ~ v == v_def axis ->
  defaultNormalizedValue axis v = Raise ZeroDivisionError.
Proof.
  intros Hlo Hhi Hv. unfold defaultNormalizedValue.
  destruct (Qltb v (v_def axis)) eqn:E1.
  - apply truediv_zero. lra.
  - destruct (Qltb (v_def axis) v) eqn:E2.
    + apply truediv_zero. lra.
    + apply Qltb_ge in E1, E2. exfalso. apply Hv. lra.
Qed.

(** C8: when every master of the source has the same coordinate on an axis,
    the source-side range of that axis has [min == default == max], and
    normalizing any value other than the default raises (the division by
    zero); no number is returned. *)
Theorem degenerate_axis_raises (gsfont : GSFont)
  (source_axes_values : sdict axis_values_t) (axis_tag : string)
  (axis : axis_values_t) (c v : Q) :
  get_source_axes_values gsfont = Ok source_axes_values ->
  sget source_axes_values axis_tag = Some axis ->
  (forall i m, nth_error (map gs_axisTag (gs_axes gsfont)) i = Some axis_tag ->
               In m (gs_masters gsfont) -> master_value m i == c) ->
  ~ v == v_def axis ->
  (v_min axis == v_def axis /\ v_def axis == v_max axis) /\
  defaultNormalizedValue axis v = Raise ZeroDivisionError.
Proof.
  intros Hg Hs Hall Hv.
  destruct (get_source_axes_values_entry _ _ _ _ Hg Hs)
    as (dm & i & Hin & _ & Hi & ->).
  destruct (scan_masters_constant (gs_masters gsfont) i c)
    as (mx & mn & Hscan & Hmx & Hmn).
  - intros E. rewrite E in Hin. contradiction.
  - intros m Hm. now apply Hall.
  - assert (Hd : master_value dm i == c) by now apply Hall.
    assert (Hrange : v_min (source_axis_values gsfont dm i)
                     == v_def (source_axis_values gsfont dm i) /\
                     v_def (source_axis_values gsfont dm i)
                     == v_max (source_axis_values gsfont dm i)).
    { unfold source_axis_values; simpl. rewrite Hscan; simpl. split; lra. }
    split; [exact Hrange|].
    destruct Hrange. now apply normalize_degenerate.
Qed.

Lemma degenerate_axis_raises_witness :
  (400 == 400 /\ 400 == 400) /\
  defaultNormalizedValue {| v_max := 400; v_min := 400; v_def := 400 |} 700
  = Raise ZeroDivisionError.
Proof.
  apply (degenerate_axis_raises flat_source
           [("wght"%string, {| v_max := 400; v_min := 400; v_def := 400 |})]
           "wght" {| v_max := 400; v_min := 400; v_def := 400 |} 400 700).
  - reflexivity.
  - reflexivity.
  - intros i m Hi Hm.
    destruct i as [|[|i]]; simpl in Hi; try discriminate.
    simpl in Hm. destruct Hm as [<- | [<- | [<- | []]]]; reflexivity.
  - vm_compute. discriminate.
Defined.

(** A coordinate written out as [0.0] reads as the missing one does. *)
Lemma master_value_pad (n : nat) (m : GSFontMaster) (i : nat) :
  master_value (pad_master n m) i = master_value m i.
Proof.
  unfold master_value, list_getitem, pad_master; simpl.
  destruct (Nat.lt_ge_cases i (List.length (master_axes m))) as [Hlt | Hge].
  - now rewrite nth_error_app1.
  - rewrite nth_error_app2 by assumption.
    assert (nth_error (master_axes m) i = None) as ->
        by now apply nth_error_None.
    destruct (nth_error (repeat 0 (n - List.length (master_axes m)))
                        (i - List.length (master_axes m))) eqn:E;
      [|reflexivity].
    apply nth_error_In, repeat_spec in E. now subst.
Qed.

Lemma is_origin_pad (n : nat) (gsfont : GSFont) (m : GSFontMaster) :
  is_origin (pad_masters n gsfont) (pad_master n m) = is_origin gsfont m.
Proof. reflexivity. Qed.

Lemma filter_origin_pad (n : nat) (gsfont : GSFont) (ms : list GSFontMaster) :
  filter (is_origin (pad_masters n gsfont)) (map (pad_master n) ms)
  = map (pad_master n) (filter (is_origin gsfont) ms).
Proof.
  induction ms as [|m ms IH]; simpl; [reflexivity|].
  rewrite is_origin_pad.
  destruct (is_origin gsfont m); simpl; now rewrite IH.
Qed.

Lemma scan_masters_pad (n : nat) (ms : list GSFontMaster) (i : nat) :
  scan_masters (map (pad_master n) ms) i = scan_masters ms i.
Proof.
  rewrite !scan_masters_values, map_map.
  f_equal. apply map_ext. intros m. apply master_value_pad.
Qed.

Lemma source_axis_values_pad (n : nat) (gsfont : GSFont) (dm : GSFontMaster)
  (i : nat) :
  source_axis_values (pad_masters n gsfont) (pad_master n dm) i
  = source_axis_values gsfont dm i.
Proof.
  unfold source_axis_values; simpl.
  now rewrite scan_masters_pad, master_value_pad.
Qed.

Lemma fold_left_ext_fun {A B : Type} (f g : A -> B -> A) (l : list B) (a : A) :
  (forall x y, f x y = g x y) -> fold_left f l a = fold_left g l a.
Proof.
  intros H. revert a. induction l as [|b l IH]; intros a; simpl;
    [reflexivity|].
  now rewrite H, IH.
Qed.

(** C9: a master without a coordinate at an axis index contributes 0.0, and
    [get_source_axes_values] gives the same outcome as on the source whose
    masters have the missing coordinates written out as 0.0. *)
Theorem sparse_masters_read_as_zero (gsfont : GSFont) (n : nat) :
  (forall m i, nth_error (master_axes m) i = None -> master_value m i = 0) /\
  get_source_axes_values (pad_masters n gsfont)
  = get_source_axes_values gsfont.
Proof.
  split.
  - intros m i H. unfold master_value, list_getitem. now rewrite H.
  - unfold get_source_axes_values, list_getitem.
    change (gs_masters (pad_masters n gsfont))
      with (map (pad_master n) (gs_masters gsfont)).
    change (gs_axes (pad_masters n gsfont)) with (gs_axes gsfont).
    rewrite filter_origin_pad.
    destruct (filter (is_origin gsfont) (gs_masters gsfont)) as [|dm rest];
      simpl; [reflexivity|].
    f_equal. apply fold_left_ext_fun. intros d p.
    now rewrite source_axis_values_pad.
Qed.

(** On a source with a sparse master the missing weight and widths count
    as 0.0. *)
Example sparse_source_ranges :
  get_source_axes_values sparse_source
  = Ok [("wght"%string, {| v_max := 900; v_min := 0; v_def := 400 |});
        ("wdth"%string, {| v_max := 120; v_min := 0; v_def := 0 |})].
Proof. reflexivity. Qed.

Lemma sparse_masters_read_as_zero_witness :
  master_value {| master_id := "light"; master_axes := [] |} 0 = 0 /\
  get_source_axes_values (pad_masters 2 sparse_source)
  = get_source_axes_values sparse_source.
Proof.
  destruct (sparse_masters_read_as_zero sparse_source 2) as [Hzero Hsame].
  split; [apply Hzero; reflexivity | exact Hsame].
Defined.

(** ** Keys of a dict are pairwise different *)

Lemma keys_sset {V} (d : sdict V) (k : string) (v : V) :
  keys (sset d k v) = if contains String.eqb d k then keys d
                      else keys d ++ [k].
Proof.
  unfold sset, contains, keys.
  induction d as [|[k1 v1] d IH]; simpl; [reflexivity|].
  destruct (String.eqb k1 k) eqn:E; simpl; [reflexivity|].
  rewrite IH. now destruct (dict_get String.eqb d k).
Qed.

Lemma contains_keys {V} (d : sdict V) (k : string) :
  contains String.eqb d k = false -> ~ In k (keys d).
Proof.
  unfold contains, keys.
  induction d as [|[k1 v1] d IH]; simpl; [tauto|].
  destruct (String.eqb k1 k) eqn:E; [discriminate|].
  intros H [H1 | H1].
  - subst. now rewrite String.eqb_refl in E.
  - now apply IH.
Qed.

Lemma sset_NoDup {V} (d : sdict V) (k : string) (v : V) :
  NoDup (keys d) -> NoDup (keys (sset d k v)).
Proof.
  intros H. rewrite keys_sset.
  destruct (contains String.eqb d k) eqn:E; [assumption|].
  apply NoDup_app; [assumption | repeat constructor; tauto |].
  intros x Hx [Hk | []]. subst x. now apply (contains_keys d k).
Qed.

Lemma fold_sset_NoDup {A V : Type} (key : A -> string) (val : A -> V)
  (l : list A) (d0 : sdict V) :
  NoDup (keys d0) ->
  NoDup (keys (fold_left (fun d a => sset d (key a) (val a)) l d0)).
Proof.
  revert d0. induction l as [|a l IH]; intros d0 H; simpl; [assumption|].
  apply IH. now apply sset_NoDup.
Qed.

Lemma sget_In {V} (d : sdict V) (k : string) (v : V) :
  sget d k = Some v -> In (k, v) d.
Proof.
  intros H. apply dict_get_In in H. destruct H as (k' & Hin & Hk).
  apply String.eqb_eq in Hk. now subst.
Qed.

Lemma In_sget {V} (d : sdict V) (k : string) (v : V) :
  NoDup (keys d) -> In (k, v) d -> sget d k = Some v.
Proof.
  unfold sget, keys.
  induction d as [|[k1 v1] d IH]; simpl; [tauto|].
  intros Hnd [H | H].
  - inversion H; subst. now rewrite String.eqb_refl.
  - inversion Hnd as [|? ? Hnotin Hnd']; subst.
    destruct (String.eqb k1 k) eqn:E.
    + apply String.eqb_eq in E. subst. exfalso. apply Hnotin.
      apply in_map_iff. now exists (k, v).
    + now apply IH.
Qed.

Lemma get_axes_values_NoDup (ttfont : TTFont) :
  NoDup (keys (get_axes_values ttfont)).
Proof.
  unfold get_axes_values.
  apply (fold_sset_NoDup axisTag
           (fun a => {| v_max := maxValue a; v_min := minValue a;
                        v_def := defaultValue a |})).
  constructor.
Qed.

Lemma get_gvar_instance_locations_NoDup (gsfont : GSFont) :
  NoDup (keys (get_gvar_instance_locations gsfont)).
Proof.
  unfold get_gvar_instance_locations.
  apply (fold_sset_NoDup instance_name
           (gvar_location (map gs_axisTag (gs_axes gsfont)))).
  constructor.
Qed.

(** ** The loops of create_avar *)

Lemma bind_ok {A B : Type} (r : result A) (k : A -> result B) (b : B) :
  bind r k = Ok b -> exists a, r = Ok a /\ k a = Ok b.
Proof.
  destruct r as [a | e]; simpl; [|discriminate].
  intros H. now exists a.
Qed.

Lemma create_avar_ok (ttfont ttfont' : TTFont) (gsfont : GSFont)
  (verbose : bool) :
  create_avar ttfont gsfont verbose = Ok ttfont' ->
  exists source_axes_values desired_locations segments,
    get_source_axes_values gsfont = Ok source_axes_values /\
    get_instance_locations gsfont = Ok desired_locations /\
    build_segments verbose (get_axes_values ttfont) source_axes_values
                   desired_locations (get_gvar_instance_locations gsfont)
    = Ok segments /\
    ttfont' = set_avar ttfont segments.
Proof.
  unfold create_avar. intros H.
  apply bind_ok in H. destruct H as (sav & Hsav & H).
  apply bind_ok in H. destruct H as (dls & Hdls & H).
  apply bind_ok in H. destruct H as (len & _ & H).
  apply bind_ok in H. destruct H as (segs & Hsegs & H).
  inversion H; subst. now exists sav, dls, segs.
Qed.

(** The curve stored under a tag was built for an entry of the axis dict
    with that tag. *)
Lemma build_segments_entry (verbose : bool)
  (source_axes_values : sdict axis_values_t)
  (desired_locations current_locations : sdict (sdict Q))
  (axes_values : sdict axis_values_t) (acc segments : sdict curve_t)
  (axis_tag : string) (curve : curve_t) :
  foldM (segments_step verbose source_axes_values desired_locations
                       current_locations)
        acc axes_values = Ok segments ->
  sget segments axis_tag = Some curve ->
  sget acc axis_tag = Some curve \/
  exists axis_values,
    In (axis_tag, axis_values) axes_values /\
    build_curve verbose axis_values source_axes_values desired_locations
                current_locations axis_tag = Ok curve.
Proof.
  revert acc. induction axes_values as [|[t av] avs IH]; intros acc; simpl.
  - intros H Hs. inversion H; subst. now left.
  - intros H Hs. apply bind_ok in H. destruct H as (acc' & Hstep & H).
    unfold segments_step in Hstep.
    apply bind_ok in Hstep. destruct Hstep as (c & Hc & Hacc').
    inversion Hacc'; subst; clear Hacc'.
    destruct (IH _ H Hs) as [Hacc | (av' & Hin & Hb)].
    + rewrite sget_sset in Hacc.
      destruct (String.eqb t axis_tag) eqn:E.
      * apply String.eqb_eq in E. subst. inversion Hacc; subst.
        right. exists av. split; [now left | assumption].
      * now left.
    + right. exists av'. split; [now right | assumption].
Qed.

(** Every entry of the axis dict gets a curve. *)
Lemma build_segments_total (verbose : bool)
  (source_axes_values : sdict axis_values_t)
  (desired_locations current_locations : sdict (sdict Q))
  (axes_values : sdict axis_values_t) (acc segments : sdict curve_t)
  (axis_tag : string) :
  foldM (segments_step verbose source_axes_values desired_locations
                       current_locations)
        acc axes_values = Ok segments ->
  In axis_tag (keys axes_values) \/ sget acc axis_tag <> None ->
  sget segments axis_tag <> None.
Proof.
  revert acc. induction axes_values as [|[t av] avs IH]; intros acc; simpl.
  - intros H [[] | Hacc]. now inversion H; subst.
  - intros H Hk. apply bind_ok in H. destruct H as (acc' & Hstep & H).
    unfold segments_step in Hstep.
    apply bind_ok in Hstep. destruct Hstep as (c & Hc & Hacc').
    inversion Hacc'; subst; clear Hacc'.
    apply (IH _ H). rewrite sget_sset.
    destruct (String.eqb t axis_tag) eqn:E; [right; discriminate|].
    destruct Hk as [[Ht | Hin] | Hacc].
    + subst. now rewrite String.eqb_refl in E.
    + now left.
    + now right.
Qed.

Lemma create_avar_curve (ttfont ttfont' : TTFont) (gsfont : GSFont)
  (verbose : bool) (axis_tag : string) (curve : curve_t) :
  create_avar ttfont gsfont verbose = Ok ttfont' ->
  avar_curve ttfont' axis_tag = Some curve ->
  exists source_axes_values desired_locations axis_values,
    get_source_axes_values gsfont = Ok source_axes_values /\
    get_instance_locations gsfont = Ok desired_locations /\
    sget (get_axes_values ttfont) axis_tag = Some axis_values /\
    build_curve verbose axis_values source_axes_values desired_locations
                (get_gvar_instance_locations gsfont) axis_tag = Ok curve.
Proof.
  intros H Hc.
  destruct (create_avar_ok _ _ _ _ H) as (sav & dls & segs & Hs & Hd & Hb & ->).
  unfold avar_curve in Hc; simpl in Hc.
  destruct (build_segments_entry _ _ _ _ _ _ _ _ _ Hb Hc)
    as [Hacc | (av & Hin & Hcurve)]; [discriminate|].
  exists sav, dls, av. repeat split; try assumption.
  apply In_sget; [apply get_axes_values_NoDup | assumption].
Qed.

Lemma create_avar_has_curve (ttfont ttfont' : TTFont) (gsfont : GSFont)
  (verbose : bool) (axis_tag : string) :
  create_avar ttfont gsfont verbose = Ok ttfont' ->
  In axis_tag (keys (get_axes_values ttfont)) ->
  exists curve, avar_curve ttfont' axis_tag = Some curve.
Proof.
  intros H Hk.
  destruct (create_avar_ok _ _ _ _ H) as (sav & dls & segs & Hs & Hd & Hb & ->).
  unfold avar_curve; simpl.
  destruct (sget segs axis_tag) as [c|] eqn:E; [now exists c|].
  exfalso. apply (build_segments_total _ _ _ _ _ _ _ axis_tag Hb);
    [now left | assumption].
Qed.

Lemma sgetitem_ok {V} (d : sdict V) (k : string) (v : V) :
  sgetitem d k = Ok v -> sget d k = Some v.
Proof.
  unfold sgetitem, getitem, sget.
  destruct (dict_get String.eqb d k); [|discriminate].
  intros H. now inversion H.
Qed.

Section CurveLoop.
Variable verbose : bool.
Variable axis_values : axis_values_t.
Variable source_axes_values : sdict axis_values_t.
Variable desired_locations : sdict (sdict Q).
Variable axis_tag : string.

(** The key is the declared location normalized under the compiled font's
    range; the value is the interpolation coordinate normalized under the
    source's range. *)
Lemma instance_point_ok (item : string * sdict Q) (p : Q * Q) :
  instance_point verbose axis_values source_axes_values
                   desired_locations axis_tag item = Ok p ->
  exists source_axis c dl d,
    sget source_axes_values axis_tag = Some source_axis /\
    sget (snd item) axis_tag = Some c /\
    sget desired_locations (fst item) = Some dl /\
    sget dl axis_tag = Some d /\
    defaultNormalizedValue source_axis c = Ok (snd p) /\
    defaultNormalizedValue axis_values d = Ok (fst p).
Proof.
  unfold instance_point. intros H.
  apply bind_ok in H. destruct H as (_ & _ & H).
  apply bind_ok in H. destruct H as (src & Hsrc & H).
  apply bind_ok in H. destruct H as (c & Hc & H).
  apply bind_ok in H. destruct H as (value & Hvalue & H).
  apply bind_ok in H. destruct H as (dl & Hdl & H).
  apply bind_ok in H. destruct H as (d & Hd & H).
  apply bind_ok in H. destruct H as (key & Hkey & H).
  inversion H; subst; simpl.
  exists src, c, dl, d.
  repeat split; auto using sgetitem_ok.
Qed.

Lemma curve_loop_app (acc curve : curve_t) (pre post : list (string * sdict Q))
  (item : string * sdict Q) :
  foldM (curve_step verbose axis_values source_axes_values
                    desired_locations axis_tag)
        acc (pre ++ item :: post) = Ok curve ->
  exists acc1 p,
    foldM (curve_step verbose axis_values source_axes_values
                    desired_locations axis_tag)
        acc pre = Ok acc1 /\
    instance_point verbose axis_values source_axes_values
                   desired_locations axis_tag item = Ok p /\
    foldM (curve_step verbose axis_values source_axes_values
                    desired_locations axis_tag)
        (qset acc1 (fst p) (snd p)) post = Ok curve.
Proof.
  revert acc. induction pre as [|x pre IH]; intros acc; simpl.
  - intros H. apply bind_ok in H. destruct H as (acc' & Hs & H).
    unfold curve_step in Hs. apply bind_ok in Hs. destruct Hs as (p & Hp & Hs).
    inversion Hs; subst. now exists acc, p.
  - intros H. apply bind_ok in H. destruct H as (acc' & Hs & H).
    rewrite Hs; simpl. now apply IH.
Qed.

(** A key of the curve stays a key. *)
Lemma curve_loop_keeps_keys (items : list (string * sdict Q))
  (acc curve : curve_t) (k : Q) :
  foldM (curve_step verbose axis_values source_axes_values
                    desired_locations axis_tag)
        acc items = Ok curve ->
  qget acc k <> None -> qget curve k <> None.
Proof.
  revert acc. induction items as [|x items IH]; intros acc; simpl.
  - intros H. now inversion H.
  - intros H Hk. apply bind_ok in H. destruct H as (acc' & Hs & H).
    unfold curve_step in Hs. apply bind_ok in Hs. destruct Hs as (p & Hp & Hs).
    inversion Hs; subst; clear Hs.
    apply (IH _ H). rewrite qget_qset.
    now destruct (Qeq_bool (fst p) k).
Qed.

(** A value stays as long as no instance writes under its key. *)
Lemma curve_loop_keeps_value (items : list (string * sdict Q))
  (acc curve : curve_t) (k v : Q) :
  foldM (curve_step verbose axis_values source_axes_values
                    desired_locations axis_tag)
        acc items = Ok curve ->
  qget acc k = Some v ->
  (forall item p,
      In item items ->
      instance_point verbose axis_values source_axes_values
                     desired_locations axis_tag item = Ok p ->
      ~ fst p == k) ->
  qget curve k = Some v.
Proof.
  revert acc. induction items as [|x items IH]; intros acc; simpl.
  - intros H. now inversion H.
  - intros H Hk Hno. apply bind_ok in H. destruct H as (acc' & Hs & H).
    unfold curve_step in Hs. apply bind_ok in Hs. destruct Hs as (p & Hp & Hs).
    inversion Hs; subst; clear Hs.
    apply (IH _ H).
    + rewrite qget_qset. destruct (Qeq_bool (fst p) k) eqn:E; [|assumption].
      apply Qeq_bool_iff in E. exfalso.
      apply (Hno x p); [now left | assumption | assumption].
    + intros item q Hin. apply Hno. now right.
Qed.

(** Every entry of the curve was there at the start or carries the value
    of an instance whose key equals the entry's. *)
Lemma curve_loop_entries (items : list (string * sdict Q))
  (acc curve : curve_t) (k v : Q) :
  foldM (curve_step verbose axis_values source_axes_values
                    desired_locations axis_tag)
        acc items = Ok curve ->
  In (k, v) curve ->
  In (k, v) acc \/
  exists item p,
    In item items /\
    instance_point verbose axis_values source_axes_values
                   desired_locations axis_tag item = Ok p /\
    v = snd p /\ k == fst p.
Proof.
  revert acc. induction items as [|x items IH]; intros acc; simpl.
  - intros H. inversion H; subst. now left.
  - intros H Hin. apply bind_ok in H. destruct H as (acc' & Hs & H).
    unfold curve_step in Hs. apply bind_ok in Hs. destruct Hs as (p & Hp & Hs).
    inversion Hs; subst; clear Hs.
    destruct (IH _ H Hin) as [Hacc | (item & q & Hi & Hq & Hv & Hk)].
    + apply qset_In in Hacc. destruct Hacc as [Hacc | [Hv Hk]];
        [now left|].
      right. exists x, p. repeat split; auto.
    + right. exists item, q. repeat split; auto.
Qed.
End CurveLoop.

(** The pair of an instance is the pair the statements speak of. *)
Lemma instance_point_pair (ttfont : TTFont) (gsfont : GSFont) (verbose : bool)
  (axis_values : axis_values_t) (source_axes_values : sdict axis_values_t)
  (desired_locations : sdict (sdict Q)) (axis_tag : string)
  (item : string * sdict Q) (p : Q * Q) :
  sget (get_axes_values ttfont) axis_tag = Some axis_values ->
  get_source_axes_values gsfont = Ok source_axes_values ->
  get_instance_locations gsfont = Ok desired_locations ->
  In item (get_gvar_instance_locations gsfont) ->
  instance_point verbose axis_values source_axes_values desired_locations
                 axis_tag item = Ok p ->
  normalized_pair ttfont gsfont axis_tag (fst item) (snd p) (fst p).
Proof.
  intros Hav Hsav Hdls Hin Hp.
  apply instance_point_ok in Hp.
  destruct Hp as (src & c & dl & d & H1 & H2 & H3 & H4 & H5 & H6).
  exists axis_values, source_axes_values, src, (snd item), desired_locations,
         dl, c, d.
  repeat split; try assumption.
  apply In_sget; [apply get_gvar_instance_locations_NoDup|].
  now destruct item.
Qed.

(** ** The curves of create_avar *)

(** C1 (as amended): for every axis of the compiled font and every instance
    of the source, in enumeration order, the assignment is
    [curve[desired] = current]: the key is the declared location normalized
    under the compiled font's range and the value is the interpolation
    coordinate normalized under the source's range; the curve holds that
    entry at the end unless a later instance normalizes to the same key. *)
Theorem curve_sends_desired_to_current (ttfont ttfont' : TTFont)
  (gsfont : GSFont) (verbose : bool) (axis_tag name : string)
  (current_location : sdict Q) (pre post : sdict (sdict Q)) :
  create_avar ttfont gsfont verbose = Ok ttfont' ->
  In axis_tag (keys (get_axes_values ttfont)) ->
  get_gvar_instance_locations gsfont
  = pre ++ (name, current_location) :: post ->
  exists curve current desired,
    avar_curve ttfont' axis_tag = Some curve /\
    normalized_pair ttfont gsfont axis_tag name current desired /\
    ((forall name' current' desired',
         In name' (keys post) ->
         normalized_pair ttfont gsfont axis_tag name' current' desired' ->
         ~ desired' == desired) ->
     qget curve desired = Some current).
Proof.
  intros Hc Hk Hl.
  destruct (create_avar_has_curve _ _ _ _ _ Hc Hk) as (curve & Hcurve).
  destruct (create_avar_curve _ _ _ _ _ _ Hc Hcurve)
    as (sav & dls & av & Hsav & Hdls & Hav & Hb).
  unfold build_curve in Hb. rewrite Hl in Hb.
  apply curve_loop_app in Hb. destruct Hb as (acc1 & p & _ & Hp & Hpost).
  exists curve, (snd p), (fst p). split; [assumption|]. split.
  - apply (instance_point_pair ttfont gsfont verbose av sav dls axis_tag
             (name, current_location) p); try assumption.
    rewrite Hl. apply in_or_app. right. now left.
  - intros Hlater.
    apply (curve_loop_keeps_value _ _ _ _ _ _ _ _ _ _ Hpost).
    + rewrite qget_qset. now rewrite Qeq_bool_refl.
    + intros item q Hin Hq.
      apply (Hlater (fst item) (snd q) (fst q)).
      * apply in_map_iff. now exists item.
      * apply (instance_point_pair ttfont gsfont verbose av sav dls axis_tag
                 item q); try assumption.
        rewrite Hl. apply in_or_app. right. now right.
Qed.

Lemma curve_sends_desired_to_current_witness :
  exists curve current desired,
    avar_curve
      (set_avar medium_font
         [("wght"%string, [(-1, -1); (0, 0); (1, 1); (100 # 400, 200 # 400)])])
      "wght" = Some curve /\
    normalized_pair medium_font medium_source "wght" "Medium" current desired /\
    ((forall name' current' desired',
         In name' (keys (@nil (string * sdict Q))) ->
         normalized_pair medium_font medium_source "wght" name' current'
                         desired' ->
         ~ desired' == desired) ->
     qget curve desired = Some current).
Proof.
  apply (curve_sends_desired_to_current medium_font _ medium_source true
           "wght" "Medium" [("wght"%string, 600)] [] []).
  - reflexivity.
  - simpl. now left.
  - reflexivity.
Defined.

Lemma medium_pair :
  normalized_pair medium_font medium_source "wght" "Medium"
                  (200 # 400) (100 # 400).
Proof.
  unfold normalized_pair.
  do 8 eexists. repeat split; reflexivity.
Qed.

(** C1 fails as stated: "Medium" interpolates at 600 on the source range
    (0, 400, 800), normalized 0.5, and is declared at 500 on the compiled
    range (100, 400, 800), normalized 0.25; the curve is
    [{-1: -1, 0: 0, 1: 1, 0.25: 0.5}] and has no key 0.5. *)
Lemma curve_sends_current_to_desired_fails :
  ~ curve_sends_current_to_desired medium_font medium_source.
Proof.
  intros H.
  destruct (H _ "wght"%string "Medium"%string (200 # 400) (100 # 400)
              eq_refl medium_pair) as (curve & v & Hcurve & Hget & _).
  vm_compute in Hcurve. inversion Hcurve; subst.
  vm_compute in Hget. discriminate.
Qed.

(** C4 fails as stated: "Light" is declared at the default of the compiled
    font, 400, so its key is 0.0, and it interpolates at 200 on the source
    range (0, 400, 800), so its value is -0.5; the curve is
    [{-1: -1, 0: -0.5, 1: 1}]. *)
Lemma anchors_map_to_themselves_fails :
  ~ anchors_map_to_themselves light_font light_source.
Proof.
  intros H.
  destruct (H (set_avar light_font
                 [("wght"%string, [(-1, -1); (0, -200 # 400); (1, 1)])])
              "wght"%string [(-1, -1); (0, -200 # 400); (1, 1)]
              eq_refl eq_refl) as (_ & (x & Hx & Hzero) & _).
  vm_compute in Hx. inversion Hx; subst.
  vm_compute in Hzero. discriminate.
Qed.

Lemma sget_singleton {V} (k k' : string) (v v' : V) :
  sget [(k, v)] k' = Some v' -> k' = k /\ v' = v.
Proof.
  unfold sget, dict_get. destruct (String.eqb k k') eqn:E; [|discriminate].
  apply String.eqb_eq in E. intros H. inversion H. now subst.
Qed.

Lemma bold_locations_agree : normalized_locations_agree bold_font bold_source.
Proof.
  intros tag name current desired
         (av & sav & src & cl & dls & dl & c & d
          & Hav & Hsav & Hsrc & Hcl & Hc & Hdls & Hdl & Hd & Hcur & Hdes).
  destruct (sget_singleton _ _ _ _
              (Hav : sget [("wght"%string,
                            {| v_max := 900; v_min := 100; v_def := 400 |})]
                          tag = Some av)) as [-> ->].
  vm_compute in Hsav. inversion Hsav; subst sav; clear Hsav.
  destruct (sget_singleton _ _ _ _ Hsrc) as [_ ->].
  destruct (sget_singleton _ _ _ _
              (Hcl : sget [("Bold"%string, [("wght"%string, 700)])] name
                     = Some cl)) as [-> ->].
  destruct (sget_singleton _ _ _ _ Hc) as [_ ->].
  vm_compute in Hdls. inversion Hdls; subst dls; clear Hdls.
  destruct (sget_singleton _ _ _ _ Hdl) as [_ ->].
  destruct (sget_singleton _ _ _ _ Hd) as [_ ->].
  vm_compute in Hcur, Hdes. inversion Hcur. inversion Hdes. reflexivity.
Qed.

Lemma identity_anchors : identity_curve anchors.
Proof.
  intros k v [H | [H | [H | []]]]; inversion H; reflexivity.
Qed.

(** C5 fails as stated: "Bold" at 700 on both sides, with both ranges
    (100, 400, 900), normalizes to 0.6 on both sides, and the curve gets
    the fourth entry [0.6 -> 0.6]. *)
Lemma curves_are_the_anchors_fails :
  ~ (normalized_locations_agree bold_font bold_source ->
     curves_are_the_anchors bold_font bold_source).
Proof.
  intros H.
  specialize (H bold_locations_agree
                (set_avar bold_font
                   [("wght"%string,
                     [(-1, -1); (0, 0); (1, 1); (300 # 500, 300 # 500)])])
                "wght"%string
                [(-1, -1); (0, 0); (1, 1); (300 # 500, 300 # 500)]
                eq_refl eq_refl).
  discriminate H.
Qed.

(** C6 (as amended): in the scenario ("wght", both ranges (100, 400, 900),
    "Bold" at 700 on both sides) the curve holds the three anchors and the
    point [0.6 -> 0.6], since (700 - 400) / (900 - 400) = 0.6. *)
Theorem bold_scenario_curve :
  exists ttfont' curve,
    create_avar bold_font bold_source true = Ok ttfont' /\
    avar_curve ttfont' "wght" = Some curve /\
    List.length curve = 4%nat /\
    contains_point curve (-1) (-1) /\
    contains_point curve 0 0 /\
    contains_point curve 1 1 /\
    contains_point curve (6 # 10) (6 # 10).
Proof.
  exists (set_avar bold_font
            [("wght"%string,
              [(-1, -1); (0, 0); (1, 1); (300 # 500, 300 # 500)])]),
         [(-1, -1); (0, 0); (1, 1); (300 # 500, 300 # 500)].
  split; [reflexivity|]. split; [reflexivity|]. split; [reflexivity|].
  repeat split.
  - exists (-1), (-1). simpl. intuition reflexivity.
  - exists 0, 0. simpl. intuition reflexivity.
  - exists 1, 1. simpl. intuition reflexivity.
  - exists (300 # 500), (300 # 500). simpl. intuition reflexivity.
Qed.

(** C6 fails as stated: no entry of that curve has the key 0.5. *)
Lemma bold_scenario_has_no_half :
  ~ exists ttfont' curve,
      create_avar bold_font bold_source true = Ok ttfont' /\
      avar_curve ttfont' "wght" = Some curve /\
      contains_point curve (1 # 2) (1 # 2).
Proof.
  intros (ttfont' & curve & Hc & Hcurve & k & v & Hin & Hk & _).
  vm_compute in Hc. inversion Hc; subst ttfont'; clear Hc.
  vm_compute in Hcurve. inversion Hcurve; subst curve; clear Hcurve.
  simpl in Hin.
  destruct Hin as [H | [H | [H | [H | []]]]]; inversion H; subst;
    vm_compute in Hk; discriminate.
Qed.

(** ** The rewriters *)

Lemma sgetitem_some {V} (d : sdict V) (k : string) (v : V) :
  sget d k = Some v -> sgetitem d k = Ok v.
Proof.
  unfold sgetitem, getitem, sget. now intros ->.
Qed.

Lemma sgetitem_none {V} (d : sdict V) (k : string) :
  sget d k = None -> sgetitem d k = Raise KeyError.
Proof.
  unfold sgetitem, getitem, sget. now intros ->.
Qed.

Lemma contains_In_keys {V} (d : sdict V) (k : string) :
  In k (keys d) -> contains String.eqb d k = true.
Proof.
  intros H. destruct (contains String.eqb d k) eqn:E; [reflexivity|].
  now apply contains_keys in E.
Qed.

(** The declared locations are filed under names of source instances. *)
Lemma declared_names (axes_tags : sdict string) (instances : list GSInstance)
  (acc desired_locations : sdict (sdict Q)) (name : string) :
  foldM (fun instance_locations instance =>
           loc <- declared_location axes_tags instance ;;
           Ok (sset instance_locations (instance_name instance) loc))
        acc instances = Ok desired_locations ->
  sget desired_locations name <> None ->
  sget acc name <> None \/ In name (map instance_name instances).
Proof.
  revert acc. induction instances as [|i instances IH]; intros acc; simpl.
  - intros H. inversion H; subst. now left.
  - intros H Hs. apply bind_ok in H. destruct H as (acc' & Hstep & H).
    apply bind_ok in Hstep. destruct Hstep as (loc & _ & Hacc').
    inversion Hacc'; subst; clear Hacc'.
    destruct (IH _ H Hs) as [Hacc | Hin]; [|right; now right].
    rewrite sget_sset in Hacc.
    destruct (String.eqb (instance_name i) name) eqn:E.
    + apply String.eqb_eq in E. right. now left.
    + now left.
Qed.

Lemma unmatched_name_has_no_location (gsfont : GSFont)
  (desired_locations : sdict (sdict Q)) (name : string) :
  get_instance_locations gsfont = Ok desired_locations ->
  ~ In name (map instance_name (gs_instances gsfont)) ->
  sget desired_locations name = None.
Proof.
  unfold get_instance_locations. intros H Hno.
  destruct (sget desired_locations name) eqn:E; [|reflexivity].
  exfalso.
  destruct (declared_names _ _ _ _ name H) as [Hacc | Hin].
  - rewrite E. discriminate.
  - now apply Hacc.
  - now apply Hno.
Qed.

(** The loop over the coordinates of a matched instance. *)
Lemma fvar_axis_loop (desired_locations : sdict (sdict Q)) (name : string)
  (dl : sdict Q) (tags : list string) (coords : sdict Q) :
  sget desired_locations name = Some dl ->
  (forall t, In t tags -> sget dl t <> None) ->
  exists coords',
    foldS (fvar_axis_step desired_locations name) coords tags
    = (coords', Ok tt) /\
    (forall t, In t tags -> sget coords' t = sget dl t) /\
    (forall t, ~ In t tags -> sget coords' t = sget coords t) /\
    (incl tags (keys coords) -> keys coords' = keys coords).
Proof.
  intros Hdl. revert coords.
  induction tags as [|k tags IH]; intros coords Hall; simpl.
  - exists coords. repeat split; tauto.
  - unfold fvar_axis_step at 1. rewrite (sgetitem_some _ _ _ Hdl).
    destruct (sget dl k) as [v|] eqn:Ek;
      [|exfalso; apply (Hall k); [now left | assumption]].
    rewrite (sgetitem_some _ _ _ Ek).
    destruct (IH (sset coords k v)) as (coords' & Hrun & Hin & Hout & Hkeys).
    { intros t Ht. apply Hall. now right. }
    exists coords'. split; [exact Hrun|]. split; [|split].
    + intros t [-> | Ht].
      * destruct (in_dec string_dec t tags) as [Hi | Hni]; [now apply Hin|].
        rewrite (Hout t Hni), sget_sset, String.eqb_refl. now symmetry.
      * now apply Hin.
    + intros t Ht. rewrite Hout by tauto. rewrite sget_sset.
      destruct (String.eqb k t) eqn:E; [|reflexivity].
      apply String.eqb_eq in E. exfalso. apply Ht. now left.
    + intros Hincl.
      assert (Hk : keys (sset coords k v) = keys coords).
      { rewrite keys_sset, contains_In_keys; [reflexivity|].
        apply Hincl. now left. }
      rewrite <- Hk. apply Hkeys. rewrite Hk.
      intros t Ht. apply Hincl. now right.
Qed.

Lemma fvar_instance_step_rewrites (ttfont : TTFont)
  (desired_locations : sdict (sdict Q)) (instance : NamedInstance) :
  rewritable ttfont desired_locations instance ->
  exists instance',
    fvar_instance_step ttfont desired_locations instance = (instance', Ok tt) /\
    rewritten ttfont desired_locations instance instance'.
Proof.
  intros (name & dl & Hname & Hdl & Hall).
  unfold fvar_instance_step. rewrite Hname.
  destruct (fvar_axis_loop desired_locations name dl
              (keys (coordinates instance)) (coordinates instance) Hdl Hall)
    as (coords' & Hrun & Hin & _ & Hkeys).
  rewrite Hrun; simpl.
  exists (set_coordinates instance coords'). split; [reflexivity|].
  split; [reflexivity|]. split.
  - simpl. apply Hkeys. apply incl_refl.
  - exists name, dl. repeat split; try assumption.
    + simpl. now apply Hin.
    + now apply Hall.
Qed.

(** The instances before the first one that cannot be rewritten are
    rewritten; the loop goes on with the rest. *)
Lemma fvar_loop_prefix (ttfont : TTFont)
  (desired_locations : sdict (sdict Q)) (pre rest : list NamedInstance) :
  Forall (rewritable ttfont desired_locations) pre ->
  exists pre',
    fvar_loop ttfont desired_locations (pre ++ rest)
    = (pre' ++ fst (fvar_loop ttfont desired_locations rest),
       snd (fvar_loop ttfont desired_locations rest)) /\
    Forall2 (rewritten ttfont desired_locations) pre pre'.
Proof.
  induction 1 as [|i pre Hi Hpre (pre' & Hrun & Hrew)]; simpl.
  - exists []. split; [|constructor]. simpl.
    now destruct (fvar_loop ttfont desired_locations rest).
  - destruct (fvar_instance_step_rewrites _ _ _ Hi) as (i' & Hstep & Hi').
    rewrite Hstep, Hrun; simpl.
    exists (i' :: pre'). split; [reflexivity | now constructor].
Qed.

Lemma set_coordinates_same (instance : NamedInstance) :
  set_coordinates instance (coordinates instance) = instance.
Proof. now destruct instance. Qed.

Lemma fvar_loop_unmatched (ttfont : TTFont)
  (desired_locations : sdict (sdict Q)) (instance : NamedInstance)
  (post : list NamedInstance) (name : string) :
  get_name ttfont (subfamilyNameID instance) = Ok name ->
  sget desired_locations name = None ->
  coordinates instance <> [] ->
  fvar_loop ttfont desired_locations (instance :: post)
  = (instance :: post, Raise KeyError).
Proof.
  intros Hname Hno Hne. simpl. unfold fvar_instance_step. rewrite Hname.
  destruct (coordinates instance) as [|[k v] coords] eqn:E; [contradiction|].
  simpl. unfold fvar_axis_step. rewrite (sgetitem_none _ _ Hno). simpl.
  rewrite <- E, set_coordinates_same. reflexivity.
Qed.

Lemma stat_record_of_incl (ttfont : TTFont)
  (desired_locations : sdict (sdict Q)) (l l' : list NamedInstance)
  (r : AxisValue) :
  incl l l' ->
  stat_record_of ttfont desired_locations l r ->
  stat_record_of ttfont desired_locations l' r.
Proof.
  intros Hincl (i & name & dl & t & Hin & H).
  exists i, name, dl, t. split; [now apply Hincl | exact H].
Qed.

(** The loop over the design axes for a matched instance appends records of
    that instance. *)
Lemma stat_axis_loop (ttfont : TTFont) (desired_locations : sdict (sdict Q))
  (instance : NamedInstance) (name : string) (dl : sdict Q)
  (l : list (nat * string)) (values : list AxisValue) :
  get_name ttfont (subfamilyNameID instance) = Ok name ->
  sget desired_locations name = Some dl ->
  (forall p, In p l -> nth_error (stat_axes ttfont) (fst p) = Some (snd p)) ->
  exists recs,
    foldS (stat_axis_step desired_locations name instance) values l
    = (values ++ recs, Ok tt) /\
    Forall (stat_record_of ttfont desired_locations [instance]) recs.
Proof.
  intros Hname Hdl. revert values.
  induction l as [|[i t] l IH]; intros values Hl; simpl.
  - exists []. split; [now rewrite app_nil_r | constructor].
  - unfold stat_axis_step at 1; simpl.
    rewrite (sgetitem_some _ _ _ Hdl).
    assert (Hl' : forall p, In p l ->
                            nth_error (stat_axes ttfont) (fst p) = Some (snd p))
      by (intros p Hp; apply Hl; now right).
    unfold contains. fold (sget dl t).
    destruct (sget dl t) as [v|] eqn:Et; simpl.
    + rewrite (sgetitem_some _ _ _ Et).
      destruct (IH (values ++ [ {| Format := 1; AxisIndex := i; Flags := 0;
                                   ValueNameID := subfamilyNameID instance;
                                   Value := v |} ]) Hl')
        as (recs & Hrun & Hrecs).
      eexists. split; [rewrite Hrun, <- app_assoc; reflexivity|].
      constructor; [|exact Hrecs].
      exists instance, name, dl, t. simpl.
      repeat split; try assumption; [now left|].
      apply (Hl (i, t)). now left.
    + now apply IH.
Qed.

Lemma stat_instance_step_matched (ttfont : TTFont)
  (desired_locations : sdict (sdict Q)) (instance : NamedInstance)
  (values : list AxisValue) :
  rewritable ttfont desired_locations instance ->
  exists recs,
    stat_instance_step ttfont desired_locations (stat_axes ttfont) values
                       instance
    = (values ++ recs, Ok tt) /\
    Forall (stat_record_of ttfont desired_locations [instance]) recs.
Proof.
  intros (name & dl & Hname & Hdl & _).
  unfold stat_instance_step. rewrite Hname.
  apply (stat_axis_loop ttfont desired_locations instance name dl);
    try assumption.
  intros [i t] Hp. now apply In_enumerate.
Qed.

Lemma stat_loop_prefix (ttfont : TTFont) (desired_locations : sdict (sdict Q))
  (pre rest : list NamedInstance) (values : list AxisValue) :
  Forall (rewritable ttfont desired_locations) pre ->
  exists recs,
    foldS (stat_instance_step ttfont desired_locations (stat_axes ttfont))
          values (pre ++ rest)
    = foldS (stat_instance_step ttfont desired_locations (stat_axes ttfont))
            (values ++ recs) rest /\
    Forall (stat_record_of ttfont desired_locations pre) recs.
Proof.
  intros Hpre. revert values.
  induction Hpre as [|i pre Hi Hpre IH]; intros values; simpl.
  - exists []. split; [now rewrite app_nil_r | constructor].
  - destruct (stat_instance_step_matched _ _ _ values Hi)
      as (recs1 & Hstep & Hrecs1).
    rewrite Hstep.
    destruct (IH (values ++ recs1)) as (recs2 & Hrun & Hrecs2).
    exists (recs1 ++ recs2). split; [now rewrite Hrun, app_assoc|].
    apply Forall_app. split.
    + eapply Forall_impl; [|exact Hrecs1].
      intros r. apply stat_record_of_incl. intros x [<- | []]. now left.
    + eapply Forall_impl; [|exact Hrecs2].
      intros r. apply stat_record_of_incl. intros x Hx. now right.
Qed.

Lemma stat_loop_unmatched (ttfont : TTFont)
  (desired_locations : sdict (sdict Q)) (instance : NamedInstance)
  (post : list NamedInstance) (name : string) (values : list AxisValue) :
  get_name ttfont (subfamilyNameID instance) = Ok name ->
  sget desired_locations name = None ->
  stat_axes ttfont <> [] ->
  foldS (stat_instance_step ttfont desired_locations (stat_axes ttfont))
        values (instance :: post)
  = (values, Raise KeyError).
Proof.
  intros Hname Hno Hne. simpl. unfold stat_instance_step. rewrite Hname.
  destruct (stat_axes ttfont) as [|t tags]; [contradiction|].
  simpl. unfold stat_axis_step. now rewrite (sgetitem_none _ _ Hno).
Qed.

Lemma regular_is_rewritable (ttfont : TTFont) :
  get_name ttfont 256 = Ok "Regular"%string ->
  rewritable ttfont [("Regular"%string, [("wght"%string, 450)])]
             {| subfamilyNameID := 256;
                coordinates := [("wght"%string, 400)] |}.
Proof.
  intros Hname. exists "Regular"%string, [("wght"%string, 450)].
  split; [exact Hname|]. split; [reflexivity|].
  intros t [<- | []]. discriminate.
Qed.

(** C2 fails as stated: the compiled font names "Regular" and "Bold" and the
    source has only "Regular", declared at 450. [update_stat] raises at
    "Bold" with the axis-value array already replaced (its one record now
    holds 450, it held 400), and [update_fvar] raises at "Bold" with the
    coordinate of "Regular" already overwritten. *)
Lemma rewriting_is_all_or_nothing_fails :
  ~ rewriting_is_all_or_nothing regular_bold_font regular_source.
Proof.
  intros H.
  assert (Hun : has_unmatched_instance regular_bold_font regular_source).
  { exists {| subfamilyNameID := 257; coordinates := [("wght"%string, 700)] |},
           "Bold"%string.
    split; [simpl; tauto|]. split; [reflexivity|].
    simpl. intros [E | []]. discriminate. }
  destruct (H Hun) as [_ (e & Hfvar)].
  vm_compute in Hfvar. discriminate Hfvar.
Qed.

(** C10 (as amended): provided the declared locations of the source
    resolve ([get_instance_locations] returns), [update_fvar] overwrites
    every coordinate of an instance of the compiled font with the
    design-space value that the source declares for the same tag under the
    instance's name (no normalization is applied), provided that instance
    and every instance before it in the instance table have a name that
    resolves to a source instance whose declaration covers all the tags of
    their coordinates; the loop stops at the first instance for which this
    fails. *)
Theorem update_fvar_rewrites_up_to_first_failure (ttfont : TTFont)
  (gsfont : GSFont) (desired_locations : sdict (sdict Q))
  (pre post : list NamedInstance) (instance : NamedInstance) :
  get_instance_locations gsfont = Ok desired_locations ->
  fvar_instances ttfont = pre ++ instance :: post ->
  Forall (rewritable ttfont desired_locations) pre ->
  rewritable ttfont desired_locations instance ->
  exists instance',
    nth_error (fvar_instances (fst (update_fvar ttfont gsfont)))
              (List.length pre) = Some instance' /\
    rewritten ttfont desired_locations instance instance'.
Proof.
  intros Hdls Hinsts Hpre Hi.
  unfold update_fvar. rewrite Hdls, Hinsts. simpl.
  destruct (fvar_loop_prefix ttfont desired_locations pre (instance :: post)
                             Hpre) as (pre' & Hrun & Hrew).
  destruct (fvar_instance_step_rewrites _ _ _ Hi) as (i' & Hstep & Hi').
  rewrite Hrun. simpl. rewrite Hstep. simpl.
  exists i'. split; [|exact Hi'].
  rewrite (Forall2_length Hrew), nth_error_app2, Nat.sub_diag by lia.
  reflexivity.
Qed.

Lemma update_fvar_rewrites_up_to_first_failure_witness :
  exists instance',
    nth_error (fvar_instances (fst (update_fvar regular_bold_font
                                                regular_source)))
              (List.length (@nil NamedInstance)) = Some instance' /\
    rewritten regular_bold_font [("Regular"%string, [("wght"%string, 450)])]
              {| subfamilyNameID := 256;
                 coordinates := [("wght"%string, 400)] |}
              instance'.
Proof.
  apply (update_fvar_rewrites_up_to_first_failure regular_bold_font
           regular_source [("Regular"%string, [("wght"%string, 450)])] []
           [ {| subfamilyNameID := 257;
                coordinates := [("wght"%string, 700)] |} ]).
  - reflexivity.
  - reflexivity.
  - constructor.
  - apply regular_is_rewritable. reflexivity.
Defined.

(** C10 fails as stated: with "Bold" before "Regular" in the instance table
    and only "Regular" in the source, [update_fvar] raises at "Bold";
    "Regular" resolves, and its declaration covers "wght", yet its
    coordinate is still 400, not the declared 450. *)
Lemma every_rewritable_instance_is_rewritten_fails :
  ~ every_rewritable_instance_is_rewritten bold_regular_font regular_source.
Proof.
  intros H.
  destruct (H [("Regular"%string, [("wght"%string, 450)])] 1%nat
              {| subfamilyNameID := 256;
                 coordinates := [("wght"%string, 400)] |}
              eq_refl eq_refl
              (regular_is_rewritable bold_regular_font eq_refl))
    as (i' & Hnth & _ & _ & name & dl & Hname & Hdl & Hall).
  vm_compute in Hnth. inversion Hnth; subst i'; clear Hnth.
  vm_compute in Hname. inversion Hname; subst name; clear Hname.
  vm_compute in Hdl. inversion Hdl; subst dl; clear Hdl.
  destruct (Hall "wght"%string) as [Heq _]; [simpl; now left|].
  vm_compute in Heq. discriminate Heq.
Qed.

(** * Further properties *)

(** ** defaultNormalizedValue *)

(** X1: on a range with [min < default < max], an input between the
    minimum and the maximum normalizes to a value between -1 and 1. *)
Theorem normalize_within_unit_interval (axis : axis_values_t) (v : Q) :
  v_min axis < v_def axis -> v_def axis < v_max axis ->
  v_min axis <= v -> v <= v_max axis ->
  exists r, defaultNormalizedValue axis v = Ok r /\ -1 <= r /\ r <= 1.
Proof.
  intros Hlo Hhi Hmin Hmax.
  destruct (Q_dec v (v_def axis)) as [[H | H] | H].
  - eexists. split; [now apply normalize_below|]. split.
    + setoid_replace (-1)
        with (- (v_def axis - v_min axis) / (v_def axis - v_min axis))
        by (field; lra).
      apply Qdiv_le_compat; lra.
    + apply Qle_trans with 0; [apply Qdiv_nonpos|]; lra.
  - eexists. split; [now apply normalize_above|]. split.
    + apply Qle_trans with 0; [|apply Qdiv_nonneg]; lra.
    + setoid_replace 1
        with ((v_max axis - v_def axis) / (v_max axis - v_def axis))
        by (field; lra).
      apply Qdiv_le_compat; lra.
  - exists 0. split; [now apply normalize_at_default|]. lra.
Qed.

Lemma normalize_within_unit_interval_witness :
  exists r,
    defaultNormalizedValue {| v_max := 900; v_min := 100; v_def := 400 |} 250
    = Ok r /\ -1 <= r /\ r <= 1.
Proof.
  apply (normalize_within_unit_interval
           {| v_max := 900; v_min := 100; v_def := 400 |} 250);
    vm_compute; congruence.
Defined.

(** X4: [defaultNormalizedValue] raises exactly when the input lies on a
    side of the default where the range has no extent (below a default
    equal to the minimum, or above a default equal to the maximum), and
    what it raises is the division by zero; on the other side of such a
    range, and at the default, it returns. *)
Theorem normalize_raises_iff (axis : axis_values_t) (v : Q) (e : exn) :
  defaultNormalizedValue axis v = Raise e <->
  e = ZeroDivisionError /\
  ((v < v_def axis /\ v_def axis == v_min axis) \/
   (v_def axis < v /\ v_max axis == v_def axis)).
Proof.
  unfold defaultNormalizedValue, truediv.
  destruct (Qltb v (v_def axis)) eqn:E1.
  - apply Qltb_lt in E1.
    destruct (Qeq_bool (v_def axis - v_min axis) 0) eqn:E.
    + apply Qeq_bool_iff in E. split.
      * intros H. inversion H. split; [reflexivity|]. left. split; lra.
      * intros [-> _]. reflexivity.
    + apply Qeq_bool_neq in E. split; [discriminate|].
      intros [_ [[_ H] | [H _]]]; exfalso; [apply E|]; lra.
  - apply Qltb_ge in E1.
    destruct (Qltb (v_def axis) v) eqn:E2.
    + apply Qltb_lt in E2.
      destruct (Qeq_bool (v_max axis - v_def axis) 0) eqn:E.
      * apply Qeq_bool_iff in E. split.
        -- intros H. inversion H. split; [reflexivity|]. right. split; lra.
        -- intros [-> _]. reflexivity.
      * apply Qeq_bool_neq in E. split; [discriminate|].
        intros [_ [[H _] | [_ H]]]; exfalso; [|apply E]; lra.
    + apply Qltb_ge in E2. split; [discriminate|].
      intros [_ [[H _] | [H _]]]; exfalso; lra.
Qed.

(** ** get_source_axes_values *)

(** X5: [get_source_axes_values] raises exactly when no master of the
    source has the id stored in "Variable Font Origin" (the parameter not
    being set included), and what it raises is the [IndexError] of taking
    the first element of an empty list. *)
Theorem source_ranges_need_an_origin (gsfont : GSFont) (e : exn) :
  get_source_axes_values gsfont = Raise e <->
  e = IndexError /\
  forall m, In m (gs_masters gsfont) -> is_origin gsfont m = false.
Proof.
  unfold get_source_axes_values, list_getitem.
  destruct (filter (is_origin gsfont) (gs_masters gsfont)) as [|dm rest] eqn:Ef;
    simpl.
  - split.
    + intros H. inversion H. split; [reflexivity|].
      intros m Hm. destruct (is_origin gsfont m) eqn:E; [|reflexivity].
      assert (Hin : In m (filter (is_origin gsfont) (gs_masters gsfont)))
        by (apply filter_In; now split).
      rewrite Ef in Hin. contradiction.
    + intros [-> _]. reflexivity.
  - split; [discriminate|].
    intros [_ Hall]. exfalso.
    assert (Hin : In dm (filter (is_origin gsfont) (gs_masters gsfont)))
      by (rewrite Ef; now left).
    apply filter_In in Hin. destruct Hin as [Hin Hor].
    rewrite (Hall dm Hin) in Hor. discriminate.
Qed.

(** The running bounds enclose the values seen and are among them. *)
Lemma scan_bounds (values : list Q) (mx mn mx' mn' : Q) :
  fold_left scan_step values (Fin mx, Fin mn) = (Fin mx', Fin mn') ->
  mx <= mx' /\ mn' <= mn /\
  (forall v, In v values -> mn' <= v /\ v <= mx') /\
  (mx' = mx \/ In mx' values) /\
  (mn' = mn \/ In mn' values).
Proof.
  revert mx mn. induction values as [|v values IH]; intros mx mn; simpl.
  - intros H. inversion H; subst. repeat split; try lra; tauto.
  - unfold scan_step at 2; simpl. intros H.
    destruct (Qltb mx v) eqn:E1; destruct (Qltb v mn) eqn:E2;
      try apply Qltb_lt in E1; try apply Qltb_lt in E2;
      try apply Qltb_ge in E1; try apply Qltb_ge in E2;
      destruct (IH _ _ H) as (H1 & H2 & H3 & H4 & H5);
      (split; [lra|]); (split; [lra|]);
      (split; [intros w [<- | Hw]; [lra | now apply H3]|]);
      split; intuition congruence.
Qed.

Lemma scan_masters_bounds (masters : list GSFontMaster) (i : nat) :
  masters <> [] ->
  exists mx mn,
    scan_masters masters i = (Fin mx, Fin mn) /\
    (forall m, In m masters ->
               mn <= master_value m i /\ master_value m i <= mx) /\
    (exists m, In m masters /\ master_value m i = mx) /\
    (exists m, In m masters /\ master_value m i = mn).
Proof.
  intros Hne.
  destruct (scan_masters_finite masters i Hne) as (mx & mn & Hscan).
  exists mx, mn. split; [exact Hscan|].
  rewrite scan_masters_values in Hscan.
  destruct masters as [|m0 masters]; [contradiction|]. simpl in Hscan.
  unfold scan_step at 2 in Hscan; simpl in Hscan.
  destruct (scan_bounds _ _ _ _ _ Hscan) as (H1 & H2 & H3 & H4 & H5).
  assert (Hval : forall x, In x (map (fun m => master_value m i) masters) ->
                           exists m, In m (m0 :: masters) /\
                                     master_value m i = x).
  { intros x Hx. apply in_map_iff in Hx. destruct Hx as (m & <- & Hm).
    exists m. split; [now right | reflexivity]. }
  split; [|split].
  - intros m [<- | Hm]; [lra|].
    apply H3. apply in_map_iff. now exists m.
  - destruct H4 as [-> | H4]; [|now apply Hval].
    exists m0. split; [now left | reflexivity].
  - destruct H5 as [-> | H5]; [|now apply Hval].
    exists m0. split; [now left | reflexivity].
Qed.

(** X6: every range that [get_source_axes_values] returns is ordered,
    [min <= default <= max]: the minimum and the maximum are coordinates of
    masters on that axis and enclose the coordinate of every master, and
    the default is the coordinate of a master flagged as the origin. *)
Theorem source_range_is_ordered (gsfont : GSFont)
  (source_axes_values : sdict axis_values_t) (axis_tag : string)
  (axis : axis_values_t) :
  get_source_axes_values gsfont = Ok source_axes_values ->
  sget source_axes_values axis_tag = Some axis ->
  exists i,
    nth_error (map gs_axisTag (gs_axes gsfont)) i = Some axis_tag /\
    v_min axis <= v_def axis /\ v_def axis <= v_max axis /\
    (forall m, In m (gs_masters gsfont) ->
               v_min axis <= master_value m i /\
               master_value m i <= v_max axis) /\
    (exists m, In m (gs_masters gsfont) /\ master_value m i = v_min axis) /\
    (exists m, In m (gs_masters gsfont) /\ master_value m i = v_max axis) /\
    (exists m, In m (gs_masters gsfont) /\ is_origin gsfont m = true /\
               master_value m i = v_def axis).
Proof.
  intros Hg Hs.
  destruct (get_source_axes_values_entry _ _ _ _ Hg Hs)
    as (dm & i & Hin & Hor & Hi & ->).
  destruct (scan_masters_bounds (gs_masters gsfont) i)
    as (mx & mn & Hscan & Hall & Hmx & Hmn).
  { intros E. rewrite E in Hin. contradiction. }
  exists i. unfold source_axis_values; simpl. rewrite Hscan; simpl.
  split; [exact Hi|].
  destruct (Hall dm Hin) as [Hlo Hhi].
  repeat split; try assumption; try (now apply Hall).
  exists dm. now repeat split.
Qed.

Lemma source_range_is_ordered_witness :
  exists i,
    nth_error (map gs_axisTag (gs_axes bold_source)) i = Some "wght"%string /\
    100 <= 400 /\ 400 <= 900 /\
    (forall m, In m (gs_masters bold_source) ->
               100 <= master_value m i /\ master_value m i <= 900) /\
    (exists m, In m (gs_masters bold_source) /\ master_value m i = 100) /\
    (exists m, In m (gs_masters bold_source) /\ master_value m i = 900) /\
    (exists m, In m (gs_masters bold_source) /\
               is_origin bold_source m = true /\ master_value m i = 400).
Proof.
  apply (source_range_is_ordered bold_source
           [("wght"%string, {| v_max := 900; v_min := 100; v_def := 400 |})]
           "wght" {| v_max := 900; v_min := 100; v_def := 400 |});
    reflexivity.
Defined.

(** ** Loops that can raise *)

Lemma foldM_ok_iff {A B : Type} (f : A -> B -> result A) (P : B -> Prop)
  (l : list B) (acc : A) :
  (forall a x, (exists a', f a x = Ok a') <-> P x) ->
  (exists r, foldM f acc l = Ok r) <-> Forall P l.
Proof.
  intros Hf. revert acc. induction l as [|x l IH]; intros acc; simpl.
  - split; [constructor | now exists acc].
  - destruct (f acc x) as [a' | e] eqn:E; simpl.
    + rewrite IH. split.
      * intros H. constructor; [|assumption]. apply (Hf acc). now exists a'.
      * intros H. now inversion H.
    + split.
      * intros [r Hr]. discriminate.
      * intros H. inversion H as [|? ? Hx Hl]; subst.
        apply (Hf acc) in Hx. destruct Hx as [a' Ha']. congruence.
Qed.

Lemma foldM_raise {A B : Type} (f : A -> B -> result A) (Q : exn -> Prop)
  (l : list B) (acc : A) (e : exn) :
  (forall a x e', f a x = Raise e' -> Q e') ->
  foldM f acc l = Raise e -> Q e.
Proof.
  intros Hf. revert acc. induction l as [|x l IH]; intros acc; simpl;
    [discriminate|].
  destruct (f acc x) as [a' | e'] eqn:E; simpl.
  - apply IH.
  - intros H. inversion H; subst. now apply (Hf acc x).
Qed.

(** ** Keys of the dicts that the loops fill *)

Lemma sget_fold_sset_other {A V : Type} (key : A -> string) (val : A -> V)
  (l : list A) (d0 : sdict V) (k : string) :
  ~ In k (map key l) ->
  sget (fold_left (fun d a => sset d (key a) (val a)) l d0) k = sget d0 k.
Proof.
  revert d0. induction l as [|a l IH]; intros d0 Hk; simpl; [reflexivity|].
  rewrite IH by (intros H; apply Hk; now right).
  rewrite sget_sset. destruct (String.eqb (key a) k) eqn:E; [|reflexivity].
  apply String.eqb_eq in E. exfalso. apply Hk. now left.
Qed.

(** The last assignment under a key is the one that is read. *)
Lemma sget_fold_sset_last {A V : Type} (key : A -> string) (val : A -> V)
  (pre post : list A) (a : A) (d0 : sdict V) :
  ~ In (key a) (map key post) ->
  sget (fold_left (fun d a => sset d (key a) (val a)) (pre ++ a :: post) d0)
       (key a)
  = Some (val a).
Proof.
  intros Hk. rewrite fold_left_app. simpl.
  rewrite sget_fold_sset_other by assumption.
  now rewrite sget_sset, String.eqb_refl.
Qed.

Lemma sget_fold_sset_key {A V : Type} (key : A -> string) (val : A -> V)
  (l : list A) (d0 : sdict V) (k : string) :
  sget (fold_left (fun d a => sset d (key a) (val a)) l d0) k <> None <->
  In k (map key l) \/ sget d0 k <> None.
Proof.
  revert d0. induction l as [|a l IH]; intros d0; simpl; [tauto|].
  rewrite IH, sget_sset.
  destruct (String.eqb (key a) k) eqn:E.
  - apply String.eqb_eq in E. split; [tauto|]. intros _. right. discriminate.
  - apply String.eqb_neq in E. tauto.
Qed.

Lemma keys_fold_sset_new {A V : Type} (key : A -> string) (val : A -> V)
  (l : list A) (d0 : sdict V) :
  NoDup (keys d0 ++ map key l) ->
  keys (fold_left (fun d a => sset d (key a) (val a)) l d0)
  = keys d0 ++ map key l.
Proof.
  revert d0. induction l as [|a l IH]; intros d0 Hnd; simpl.
  - now rewrite app_nil_r.
  - assert (Hnew : contains String.eqb d0 (key a) = false).
    { destruct (contains String.eqb d0 (key a)) eqn:E; [|reflexivity].
      exfalso. apply NoDup_remove_2 in Hnd. apply Hnd.
      apply in_or_app. left.
      unfold contains in E. fold (sget d0 (key a)) in E.
      destruct (sget d0 (key a)) as [v|] eqn:Ev; [|discriminate].
      apply sget_In in Ev. apply in_map_iff. now exists (key a, v). }
    assert (Hk : keys (sset d0 (key a) (val a)) = keys d0 ++ [key a])
      by now rewrite keys_sset, Hnew.
    rewrite IH; rewrite Hk, <- app_assoc; [reflexivity | exact Hnd].
Qed.

Lemma keys_fold_sset_old {A V : Type} (key : A -> string) (val : A -> V)
  (l : list A) (d0 : sdict V) :
  incl (map key l) (keys d0) ->
  keys (fold_left (fun d a => sset d (key a) (val a)) l d0) = keys d0.
Proof.
  revert d0. induction l as [|a l IH]; intros d0 Hincl; simpl; [reflexivity|].
  assert (Hk : keys (sset d0 (key a) (val a)) = keys d0).
  { rewrite keys_sset, contains_In_keys; [reflexivity|].
    apply Hincl. now left. }
  rewrite IH; [exact Hk|]. rewrite Hk.
  intros x Hx. apply Hincl. now right.
Qed.

(** ** get_instance_locations *)

Lemma axes_tags_by_name_key (gsfont : GSFont) (name : string) :
  sget (axes_tags_by_name gsfont) name <> None <->
  In name (map gs_axis_name (gs_axes gsfont)).
Proof.
  unfold axes_tags_by_name.
  rewrite (sget_fold_sset_key gs_axis_name gs_axisTag). simpl. tauto.
Qed.

Lemma axes_tags_by_name_entry (gsfont : GSFont) (name tag : string) :
  sget (axes_tags_by_name gsfont) name = Some tag ->
  exists a, In a (gs_axes gsfont) /\ gs_axis_name a = name /\
            gs_axisTag a = tag.
Proof.
  unfold axes_tags_by_name. intros H.
  apply (sget_fold_sset gs_axis_name gs_axisTag) in H.
  destruct H as [H | H]; [exact H | discriminate].
Qed.

Lemma sgetitem_result {V} (d : sdict V) (k : string) :
  (exists v, sgetitem d k = Ok v /\ sget d k = Some v) \/
  (sgetitem d k = Raise KeyError /\ sget d k = None).
Proof.
  unfold sgetitem, getitem, sget.
  destruct (dict_get String.eqb d k) as [v|]; [left; now exists v | now right].
Qed.

Lemma declared_location_ok_iff (gsfont : GSFont) (instance : GSInstance) :
  (exists loc, declared_location (axes_tags_by_name gsfont) instance = Ok loc)
  <-> well_declared gsfont instance.
Proof.
  unfold declared_location, well_declared.
  destruct (instance_axis_location instance) as [entries|].
  - rewrite (foldM_ok_iff _
               (fun e => In (Axis e) (map gs_axis_name (gs_axes gsfont)))).
    + rewrite Forall_forall. split.
      * intros H. now exists entries.
      * intros (entries' & He & H). now inversion He; subst.
    + intros d e. rewrite <- axes_tags_by_name_key.
      destruct (sgetitem_result (axes_tags_by_name gsfont) (Axis e))
        as [(tag & -> & Hs) | [-> Hs]]; simpl; rewrite Hs.
      * split; [discriminate | intros _; eauto].
      * split; [intros [a' Ha']; discriminate | tauto].
  - split.
    + intros [loc H]. discriminate.
    + intros (entries & H & _). discriminate.
Qed.

Lemma declared_location_raise (axes_tags : sdict string)
  (instance : GSInstance) (e : exn) :
  declared_location axes_tags instance = Raise e ->
  e = TypeError \/ e = KeyError.
Proof.
  unfold declared_location.
  destruct (instance_axis_location instance) as [entries|].
  - intros H. right.
    apply (foldM_raise _ (fun e => e = KeyError)) in H; [exact H|].
    intros d x e'.
    destruct (sgetitem_result axes_tags (Axis x)) as [(tag & -> & _) | [-> _]];
      simpl; [discriminate | congruence].
  - intros H. inversion H. now left.
Qed.

(** X7: [get_instance_locations] returns exactly when every instance of
    the source has the "Axis Location" parameter and every entry of it
    names an axis of the source; otherwise it raises, a [TypeError] (the
    parameter is not set) or a [KeyError] (an unknown axis name). *)
Theorem declared_locations_resolve_iff (gsfont : GSFont) :
  ((exists desired_locations,
       get_instance_locations gsfont = Ok desired_locations) <->
   Forall (well_declared gsfont) (gs_instances gsfont)) /\
  (forall e, get_instance_locations gsfont = Raise e ->
             e = TypeError \/ e = KeyError).
Proof.
  unfold get_instance_locations. split.
  - apply foldM_ok_iff. intros d i.
    rewrite <- declared_location_ok_iff.
    destruct (declared_location (axes_tags_by_name gsfont) i) as [loc | e];
      simpl.
    + split; eauto.
    + split; intros [x Hx]; discriminate.
  - intros e.
    apply (foldM_raise _ (fun e => e = TypeError \/ e = KeyError)).
    intros d i e'.
    destruct (declared_location (axes_tags_by_name gsfont) i) as [loc | e0]
      eqn:E; simpl; [discriminate|].
    intros H. inversion H; subst.
    now apply (declared_location_raise _ _ _ E).
Qed.

Lemma declared_locations_entry (axes_tags : sdict string)
  (instances : list GSInstance) (acc desired_locations : sdict (sdict Q))
  (name : string) (loc : sdict Q) :
  foldM (fun instance_locations instance =>
           loc <- declared_location axes_tags instance ;;
           Ok (sset instance_locations (instance_name instance) loc))
        acc instances = Ok desired_locations ->
  sget desired_locations name = Some loc ->
  sget acc name = Some loc \/
  exists instance,
    In instance instances /\ instance_name instance = name /\
    declared_location axes_tags instance = Ok loc.
Proof.
  revert acc. induction instances as [|i instances IH]; intros acc; simpl.
  - intros H. inversion H; subst. now left.
  - intros H Hs. apply bind_ok in H. destruct H as (acc' & Hstep & H).
    apply bind_ok in Hstep. destruct Hstep as (l & Hl & Hacc').
    inversion Hacc'; subst; clear Hacc'.
    destruct (IH _ H Hs) as [Hacc | (j & Hj & Hname & Hloc)].
    + rewrite sget_sset in Hacc.
      destruct (String.eqb (instance_name i) name) eqn:E; [|now left].
      apply String.eqb_eq in E. inversion Hacc; subst.
      right. exists i. split; [now left | now split].
    + right. exists j. split; [now right | now split].
Qed.

Lemma declared_location_entry (axes_tags : sdict string)
  (entries : list AxisLocation) (acc loc : sdict Q) (tag : string) (v : Q) :
  foldM (fun d e =>
           tag <- sgetitem axes_tags (Axis e) ;;
           Ok (sset d tag (Location e)))
        acc entries = Ok loc ->
  sget loc tag = Some v ->
  sget acc tag = Some v \/
  exists e, In e entries /\ sget axes_tags (Axis e) = Some tag /\
            Location e = v.
Proof.
  revert acc. induction entries as [|e entries IH]; intros acc; simpl.
  - intros H. inversion H; subst. now left.
  - intros H Hs. apply bind_ok in H. destruct H as (acc' & Hstep & H).
    apply bind_ok in Hstep. destruct Hstep as (t & Ht & Hacc').
    inversion Hacc'; subst; clear Hacc'.
    apply sgetitem_ok in Ht.
    destruct (IH _ H Hs) as [Hacc | (e' & He' & Htag & Hv)].
    + rewrite sget_sset in Hacc.
      destruct (String.eqb t tag) eqn:E; [|now left].
      apply String.eqb_eq in E. inversion Hacc; subst.
      right. exists e. split; [now left | now split].
    + right. exists e'. split; [now right | now split].
Qed.

(** X8: every coordinate that [get_instance_locations] returns is a
    declared one, untouched: it is the ["Location"] of an entry of the
    "Axis Location" parameter of an instance with that name, filed under
    the tag of the source axis that the entry names. *)
Theorem declared_locations_are_declarations (gsfont : GSFont)
  (desired_locations : sdict (sdict Q)) (name tag : string) (loc : sdict Q)
  (v : Q) :
  get_instance_locations gsfont = Ok desired_locations ->
  sget desired_locations name = Some loc ->
  sget loc tag = Some v ->
  exists instance entries e a,
    In instance (gs_instances gsfont) /\
    instance_name instance = name /\
    instance_axis_location instance = Some entries /\
    In e entries /\ Location e = v /\
    In a (gs_axes gsfont) /\
    gs_axis_name a = Axis e /\ gs_axisTag a = tag.
Proof.
  unfold get_instance_locations. intros H Hloc Hv.
  destruct (declared_locations_entry _ _ _ _ _ _ H Hloc)
    as [Hacc | (i & Hi & Hname & Hdecl)]; [discriminate|].
  unfold declared_location in Hdecl.
  destruct (instance_axis_location i) as [entries|] eqn:Ee; [|discriminate].
  destruct (declared_location_entry _ _ _ _ _ _ Hdecl Hv)
    as [Hacc | (e & He & Htag & Hval)]; [discriminate|].
  destruct (axes_tags_by_name_entry _ _ _ Htag) as (a & Ha & Han & Hat).
  exists i, entries, e, a. repeat split; assumption.
Qed.

Lemma declared_locations_are_declarations_witness :
  exists instance entries e a,
    In instance (gs_instances medium_source) /\
    instance_name instance = "Medium"%string /\
    instance_axis_location instance = Some entries /\
    In e entries /\ Location e = 500 /\
    In a (gs_axes medium_source) /\
    gs_axis_name a = Axis e /\ gs_axisTag a = "wght"%string.
Proof.
  apply (declared_locations_are_declarations medium_source
           [("Medium"%string, [("wght"%string, 500)])] "Medium" "wght"
           [("wght"%string, 500)] 500);
    reflexivity.
Defined.

(** ** get_gvar_instance_locations *)

Lemma zeros_get (tags : list string) (d : sdict Q) (tag : string) :
  In tag tags \/ sget d tag = Some 0 ->
  sget (fold_left (fun d axis_tag => sset d axis_tag 0) tags d) tag = Some 0.
Proof.
  revert d. induction tags as [|t tags IH]; intros d; simpl.
  - intros [[] | H]. exact H.
  - intros H. apply IH. rewrite sget_sset.
    destruct (String.eqb t tag) eqn:E; [now right|].
    apply String.eqb_neq in E.
    destruct H as [[H | H] | H]; [contradiction | now left | now right].
Qed.

(** The coordinates overwrite the zeros position by position. *)
Lemma coordinates_over_zeros (tags : list string) (axes : list Q)
  (d : sdict Q) (i : nat) (tag : string) :
  NoDup tags ->
  nth_error tags i = Some tag ->
  sget (fold_left (fun d p => sset d (fst p) (snd p)) (combine tags axes) d)
       tag
  = match nth_error axes i with
    | Some x => Some x
    | None => sget d tag
    end.
Proof.
  revert axes d i. induction tags as [|t tags IH]; intros axes d i Hnd Hi.
  - destruct i; discriminate.
  - inversion Hnd as [|? ? Hnotin Hnd']; subst.
    destruct axes as [|x axes]; simpl.
    + now destruct i.
    + destruct i as [|i]; simpl in *.
      * inversion Hi; subst.
        rewrite (sget_fold_sset_other fst snd).
        -- now rewrite sget_sset, String.eqb_refl.
        -- intros Hin. apply Hnotin. apply in_map_iff in Hin.
           destruct Hin as ([t' x'] & <- & Hin). simpl.
           now apply in_combine_l in Hin.
      * rewrite (IH axes _ i Hnd' Hi).
        destruct (nth_error axes i); [reflexivity|].
        rewrite sget_sset. destruct (String.eqb t tag) eqn:E; [|reflexivity].
        apply String.eqb_eq in E. subst. exfalso. apply Hnotin.
        now apply nth_error_In in Hi.
Qed.

Lemma gvar_location_keys (tags : list string) (instance : GSInstance) :
  NoDup tags -> keys (gvar_location tags instance) = tags.
Proof.
  intros Hnd. unfold gvar_location.
  assert (Hz : keys (fold_left (fun d axis_tag => sset d axis_tag 0) tags [])
               = tags).
  { rewrite (keys_fold_sset_new (fun t => t) (fun _ => 0) tags []); simpl;
      now rewrite map_id. }
  rewrite (keys_fold_sset_old fst snd); [exact Hz|].
  rewrite Hz. intros t Ht. apply in_map_iff in Ht.
  destruct Ht as ([t' x] & <- & Hin). simpl.
  now apply in_combine_l in Hin.
Qed.

(** X9: when the axis tags of the source are pairwise different, the
    location that [get_gvar_instance_locations] files under an instance's
    name (the last instance of that name) has exactly the axis tags as
    keys, in axis order, and holds under the i-th tag the i-th
    interpolation coordinate of the instance, or 0.0 when the instance has
    fewer coordinates; coordinates beyond the axes are ignored. *)
Theorem interpolation_coordinates_are_zero_padded (gsfont : GSFont)
  (pre post : list GSInstance) (instance : GSInstance) :
  NoDup (map gs_axisTag (gs_axes gsfont)) ->
  gs_instances gsfont = pre ++ instance :: post ->
  ~ In (instance_name instance) (map instance_name post) ->
  exists loc,
    sget (get_gvar_instance_locations gsfont) (instance_name instance)
    = Some loc /\
    keys loc = map gs_axisTag (gs_axes gsfont) /\
    forall i tag,
      nth_error (map gs_axisTag (gs_axes gsfont)) i = Some tag ->
      sget loc tag = Some (nth i (instance_axes instance) 0).
Proof.
  intros Hnd Hl Hlast.
  exists (gvar_location (map gs_axisTag (gs_axes gsfont)) instance).
  split; [|split].
  - unfold get_gvar_instance_locations. rewrite Hl.
    now apply (sget_fold_sset_last instance_name
                 (gvar_location (map gs_axisTag (gs_axes gsfont)))).
  - now apply gvar_location_keys.
  - intros i tag Hi. unfold gvar_location.
    rewrite (coordinates_over_zeros _ _ _ i tag Hnd Hi).
    destruct (nth_error (instance_axes instance) i) as [x|] eqn:E.
    + now rewrite (nth_error_nth _ _ _ E).
    + apply nth_error_None in E. rewrite nth_overflow by assumption.
      apply zeros_get. left. now apply nth_error_In in Hi.
Qed.

Lemma interpolation_coordinates_are_zero_padded_witness :
  exists loc,
    sget (get_gvar_instance_locations (two_axis_source [700]))
         "Bold"%string = Some loc /\
    keys loc = ["wght"%string; "wdth"%string] /\
    forall i tag,
      nth_error ["wght"%string; "wdth"%string] i = Some tag ->
      sget loc tag = Some (nth i [700] 0).
Proof.
  apply (interpolation_coordinates_are_zero_padded (two_axis_source [700]) []
           []
           {| instance_name := "Bold"; instance_axes := [700];
              instance_axis_location :=
                Some [ {| Axis := "Weight"; Location := 700 |};
                       {| Axis := "Width"; Location := 100 |} ] |}).
  - simpl. repeat constructor; simpl; intuition discriminate.
  - reflexivity.
  - simpl. tauto.
Defined.

(** ** get_current_instance_locations *)

Lemma current_locations_entry (ttfont : TTFont)
  (instances : list NamedInstance) (acc locations : sdict (sdict Q))
  (name : string) (c : sdict Q) :
  foldM (fun instances i =>
           name <- get_name ttfont (subfamilyNameID i) ;;
           Ok (sset instances name (coordinates i)))
        acc instances = Ok locations ->
  sget locations name = Some c ->
  sget acc name = Some c \/
  exists i, In i instances /\
            get_name ttfont (subfamilyNameID i) = Ok name /\
            coordinates i = c.
Proof.
  revert acc. induction instances as [|i instances IH]; intros acc; simpl.
  - intros H. inversion H; subst. now left.
  - intros H Hs. apply bind_ok in H. destruct H as (acc' & Hstep & H).
    apply bind_ok in Hstep. destruct Hstep as (n & Hn & Hacc').
    inversion Hacc'; subst; clear Hacc'.
    destruct (IH _ H Hs) as [Hacc | (j & Hj & Hname & Hc)].
    + rewrite sget_sset in Hacc.
      destruct (String.eqb n name) eqn:E; [|now left].
      apply String.eqb_eq in E. inversion Hacc; subst.
      right. exists i. split; [now left | now split].
    + right. exists j. split; [now right | now split].
Qed.

(** X10: [get_current_instance_locations] returns exactly when the name of
    every instance of the compiled font resolves in the name table
    (platform 3, encoding 1); when it does not, it raises an
    [AttributeError]; and every location it returns is the coordinates of
    an instance whose name resolves to that key. *)
Theorem current_locations_resolve_iff (ttfont : TTFont) :
  ((exists locations, get_current_instance_locations ttfont = Ok locations)
   <-> Forall (name_resolves ttfont) (fvar_instances ttfont)) /\
  (forall e, get_current_instance_locations ttfont = Raise e ->
             e = AttributeError) /\
  (forall locations name c,
      get_current_instance_locations ttfont = Ok locations ->
      sget locations name = Some c ->
      exists i, In i (fvar_instances ttfont) /\
                get_name ttfont (subfamilyNameID i) = Ok name /\
                coordinates i = c).
Proof.
  unfold get_current_instance_locations. split; [|split].
  - apply foldM_ok_iff. intros d i. unfold name_resolves.
    destruct (get_name ttfont (subfamilyNameID i)) as [n | e]; simpl.
    + split; eauto.
    + split; intros [x Hx]; discriminate.
  - intros e. apply (foldM_raise _ (fun e => e = AttributeError)).
    intros d i e'. unfold get_name.
    destruct (getName (name_names ttfont) (subfamilyNameID i) 3 1); simpl;
      [discriminate | congruence].
  - intros locations name c H Hs.
    destruct (current_locations_entry _ _ _ _ _ _ H Hs) as [Hacc | Hi];
      [discriminate | exact Hi].
Qed.

(** ** create_avar: when it returns *)

Lemma build_segments_all (verbose : bool)
  (source_axes_values : sdict axis_values_t)
  (desired_locations current_locations : sdict (sdict Q))
  (axes_values : sdict axis_values_t) (acc segments : sdict curve_t)
  (a : string * axis_values_t) :
  foldM (segments_step verbose source_axes_values desired_locations
                       current_locations)
        acc axes_values = Ok segments ->
  In a axes_values ->
  exists curve,
    build_curve verbose (snd a) source_axes_values desired_locations
                current_locations (fst a) = Ok curve.
Proof.
  revert acc. induction axes_values as [|b avs IH]; intros acc; simpl;
    [intros _ []|].
  intros H Hin. apply bind_ok in H. destruct H as (acc' & Hstep & H).
  unfold segments_step in Hstep.
  apply bind_ok in Hstep. destruct Hstep as (c & Hc & _).
  destruct Hin as [<- | Hin]; [now exists c | now apply (IH acc')].
Qed.

Lemma curve_loop_all (verbose : bool) (axis_values : axis_values_t)
  (source_axes_values : sdict axis_values_t)
  (desired_locations : sdict (sdict Q)) (axis_tag : string)
  (items : list (string * sdict Q)) (acc curve : curve_t)
  (item : string * sdict Q) :
  foldM (curve_step verbose axis_values source_axes_values desired_locations
                    axis_tag)
        acc items = Ok curve ->
  In item items ->
  exists p,
    instance_point verbose axis_values source_axes_values desired_locations
                   axis_tag item = Ok p.
Proof.
  revert acc. induction items as [|x items IH]; intros acc; simpl;
    [intros _ []|].
  intros H Hin. apply bind_ok in H. destruct H as (acc' & Hstep & H).
  unfold curve_step in Hstep.
  apply bind_ok in Hstep. destruct Hstep as (p & Hp & _).
  destruct Hin as [<- | Hin]; [now exists p | now apply (IH acc')].
Qed.

Lemma create_avar_has_instances (ttfont ttfont' : TTFont) (gsfont : GSFont)
  (verbose : bool) :
  create_avar ttfont gsfont verbose = Ok ttfont' -> gs_instances gsfont <> [].
Proof.
  unfold create_avar. intros H.
  apply bind_ok in H. destruct H as (sav & _ & H).
  apply bind_ok in H. destruct H as (dls & _ & H).
  apply bind_ok in H. destruct H as (len & Hlen & _).
  intros E. rewrite E in Hlen. discriminate.
Qed.

Lemma get_axes_values_key (ttfont : TTFont) (a : FvarAxis) :
  In a (fvar_axes ttfont) ->
  exists axis_values, In (axisTag a, axis_values) (get_axes_values ttfont).
Proof.
  intros Ha.
  destruct (sget (get_axes_values ttfont) (axisTag a)) as [av|] eqn:E.
  - exists av. now apply sget_In.
  - exfalso. revert E. unfold get_axes_values.
    apply (sget_fold_sset_key axisTag
             (fun a => {| v_max := maxValue a; v_min := minValue a;
                          v_def := defaultValue a |})).
    left. now apply in_map.
Qed.

Lemma get_gvar_instance_locations_key (gsfont : GSFont) (name : string) :
  In name (map instance_name (gs_instances gsfont)) ->
  exists current_location,
    In (name, current_location) (get_gvar_instance_locations gsfont).
Proof.
  intros Hn.
  destruct (sget (get_gvar_instance_locations gsfont) name) as [cl|] eqn:E.
  - exists cl. now apply sget_In.
  - exfalso. revert E. unfold get_gvar_instance_locations.
    apply (sget_fold_sset_key instance_name
             (gvar_location (map gs_axisTag (gs_axes gsfont)))).
    now left.
Qed.

(** X11: [create_avar] returns only if the source has an instance, every
    axis of the compiled font is an axis of the source (an axis that the
    source lacks is not skipped: it makes the call raise), and every
    instance of the source declares a location on every axis of the
    compiled font. *)
Theorem create_avar_returns_only_if (ttfont ttfont' : TTFont)
  (gsfont : GSFont) (verbose : bool) :
  create_avar ttfont gsfont verbose = Ok ttfont' ->
  gs_instances gsfont <> [] /\
  forall a, In a (fvar_axes ttfont) ->
    In (axisTag a) (map gs_axisTag (gs_axes gsfont)) /\
    forall name, In name (map instance_name (gs_instances gsfont)) ->
      exists desired_locations dl d,
        get_instance_locations gsfont = Ok desired_locations /\
        sget desired_locations name = Some dl /\
        sget dl (axisTag a) = Some d.
Proof.
  intros H.
  pose proof (create_avar_has_instances _ _ _ _ H) as Hne.
  split; [exact Hne|].
  destruct (create_avar_ok _ _ _ _ H) as (sav & dls & segs & Hs & Hd & Hb & _).
  intros a Ha.
  destruct (get_axes_values_key _ _ Ha) as (av & Hav).
  destruct (build_segments_all _ _ _ _ _ _ _ _ Hb Hav) as (curve & Hcurve).
  simpl in Hcurve. unfold build_curve in Hcurve.
  assert (Hpoint : forall name,
             In name (map instance_name (gs_instances gsfont)) ->
             exists src dl d,
               sget sav (axisTag a) = Some src /\
               sget dls name = Some dl /\ sget dl (axisTag a) = Some d).
  { intros name Hn.
    destruct (get_gvar_instance_locations_key _ _ Hn) as (cl & Hcl).
    destruct (curve_loop_all _ _ _ _ _ _ _ _ _ Hcurve Hcl) as (p & Hp).
    apply instance_point_ok in Hp.
    destruct Hp as (src & c & dl & d & H1 & _ & H3 & H4 & _).
    now exists src, dl, d. }
  split.
  - destruct (gs_instances gsfont) as [|i rest] eqn:Ei; [contradiction|].
    destruct (Hpoint (instance_name i)) as (src & _ & _ & Hsrc & _);
      [now left|].
    destruct (get_source_axes_values_entry _ _ _ _ Hs Hsrc)
      as (_ & n & _ & _ & Hn & _).
    now apply nth_error_In in Hn.
  - intros name Hn. destruct (Hpoint name Hn) as (_ & dl & d & _ & Hdl & Hdd).
    now exists dls, dl, d.
Qed.

Lemma create_avar_returns_only_if_witness :
  gs_instances bold_source <> [] /\
  forall a, In a (fvar_axes bold_font) ->
    In (axisTag a) (map gs_axisTag (gs_axes bold_source)) /\
    forall name, In name (map instance_name (gs_instances bold_source)) ->
      exists desired_locations dl d,
        get_instance_locations bold_source = Ok desired_locations /\
        sget desired_locations name = Some dl /\
        sget dl (axisTag a) = Some d.
Proof.
  apply (create_avar_returns_only_if bold_font
           (set_avar bold_font
              [("wght"%string,
                [(-1, -1); (0, 0); (1, 1); (300 # 500, 300 # 500)])])
           bold_source true).
  reflexivity.
Defined.

(** X12: on a source without instances, [create_avar] raises a
    [ValueError] (the [max] of an empty sequence) as soon as the origin
    master exists, whatever the compiled font is. *)
Theorem create_avar_without_instances (ttfont : TTFont) (gsfont : GSFont)
  (verbose : bool) :
  gs_instances gsfont = [] ->
  (exists m, In m (gs_masters gsfont) /\ is_origin gsfont m = true) ->
  create_avar ttfont gsfont verbose = Raise ValueError.
Proof.
  intros Hi (m & Hm & Hor).
  unfold create_avar, get_source_axes_values, list_getitem,
    get_instance_locations.
  destruct (filter (is_origin gsfont) (gs_masters gsfont)) as [|dm rest]
    eqn:Ef.
  - assert (Hin : In m (filter (is_origin gsfont) (gs_masters gsfont)))
      by (apply filter_In; now split).
    rewrite Ef in Hin. contradiction.
  - simpl. rewrite Hi. reflexivity.
Qed.

Lemma create_avar_without_instances_witness :
  create_avar bold_font no_instance_source true = Raise ValueError.
Proof.
  apply (create_avar_without_instances bold_font no_instance_source true).
  - reflexivity.
  - exists {| master_id := "regular"; master_axes := [400] |}.
    split; [simpl; tauto | reflexivity].
Defined.

(** ** create_avar: what it builds *)

Lemma keys_sset_new {V} (d : sdict V) (k : string) (v : V) :
  ~ In k (keys d) -> keys (sset d k v) = keys d ++ [k].
Proof.
  intros Hk. rewrite keys_sset.
  destruct (contains String.eqb d k) eqn:E; [|reflexivity].
  exfalso. apply Hk. unfold contains in E. fold (sget d k) in E.
  destruct (sget d k) as [x|] eqn:Ex; [|discriminate].
  apply sget_In in Ex. apply in_map_iff. now exists (k, x).
Qed.

Lemma build_segments_keys (verbose : bool)
  (source_axes_values : sdict axis_values_t)
  (desired_locations current_locations : sdict (sdict Q))
  (axes_values : sdict axis_values_t) (acc segments : sdict curve_t) :
  foldM (segments_step verbose source_axes_values desired_locations
                       current_locations)
        acc axes_values = Ok segments ->
  NoDup (keys acc ++ keys axes_values) ->
  keys segments = keys acc ++ keys axes_values.
Proof.
  revert acc. induction axes_values as [|[t av] avs IH]; intros acc; simpl.
  - intros H _. inversion H; subst. now rewrite app_nil_r.
  - intros H Hnd. apply bind_ok in H. destruct H as (acc' & Hstep & H).
    unfold segments_step in Hstep.
    apply bind_ok in Hstep. destruct Hstep as (c & _ & Hacc').
    inversion Hacc'; subst; clear Hacc'. simpl in *.
    assert (Hk : keys (sset acc t c) = keys acc ++ [t]).
    { apply keys_sset_new. apply NoDup_remove_2 in Hnd.
      intros Hin. apply Hnd. apply in_or_app. now left. }
    rewrite (IH _ H); rewrite Hk, <- app_assoc; [reflexivity | exact Hnd].
Qed.

(** X13: when [create_avar] returns, the font differs from the input only
    in its avar table, the one that was there being replaced, and the new
    table has one curve per axis tag of the compiled font, in the order of
    the axis dict (the order of the fvar axes when their tags are pairwise
    different). *)
Theorem create_avar_only_sets_avar (ttfont ttfont' : TTFont)
  (gsfont : GSFont) (verbose : bool) :
  create_avar ttfont gsfont verbose = Ok ttfont' ->
  fvar_axes ttfont' = fvar_axes ttfont /\
  fvar_instances ttfont' = fvar_instances ttfont /\
  name_names ttfont' = name_names ttfont /\
  stat_axes ttfont' = stat_axes ttfont /\
  stat_axis_values ttfont' = stat_axis_values ttfont /\
  exists segments,
    avar_segments ttfont' = Some segments /\
    keys segments = keys (get_axes_values ttfont) /\
    (NoDup (map axisTag (fvar_axes ttfont)) ->
     keys segments = map axisTag (fvar_axes ttfont)).
Proof.
  intros H.
  destruct (create_avar_ok _ _ _ _ H) as (sav & dls & segs & _ & _ & Hb & ->).
  repeat (split; [reflexivity|]).
  exists segs. split; [reflexivity|].
  assert (Hk : keys segs = keys (get_axes_values ttfont)).
  { unfold build_segments in Hb.
    apply build_segments_keys in Hb; [exact Hb|].
    simpl. apply get_axes_values_NoDup. }
  split; [exact Hk|].
  intros Hnd. rewrite Hk. unfold get_axes_values.
  now rewrite (keys_fold_sset_new axisTag
                 (fun a => {| v_max := maxValue a; v_min := minValue a;
                              v_def := defaultValue a |})).
Qed.

Lemma create_avar_only_sets_avar_witness :
  fvar_axes (set_avar bold_font [("wght"%string, anchors)])
  = fvar_axes bold_font /\
  fvar_instances (set_avar bold_font [("wght"%string, anchors)])
  = fvar_instances bold_font /\
  name_names (set_avar bold_font [("wght"%string, anchors)])
  = name_names bold_font /\
  stat_axes (set_avar bold_font [("wght"%string, anchors)])
  = stat_axes bold_font /\
  stat_axis_values (set_avar bold_font [("wght"%string, anchors)])
  = stat_axis_values bold_font /\
  exists segments,
    avar_segments (set_avar bold_font [("wght"%string, anchors)])
    = Some segments /\
    keys segments = keys (get_axes_values bold_font) /\
    (NoDup (map axisTag (fvar_axes bold_font)) ->
     keys segments = map axisTag (fvar_axes bold_font)).
Proof.
  apply (create_avar_only_sets_avar bold_font _ flat_source true).
  reflexivity.
Defined.

Lemma foldM_ok_ext {A B : Type} (f g : A -> B -> result A) (l : list B)
  (acc r : A) :
  (forall a x a', f a x = Ok a' <-> g a x = Ok a') ->
  foldM f acc l = Ok r <-> foldM g acc l = Ok r.
Proof.
  intros Hfg. revert acc. induction l as [|x l IH]; intros acc; simpl;
    [tauto|].
  destruct (f acc x) as [a1 | e1] eqn:Ef;
    destruct (g acc x) as [a2 | e2] eqn:Eg; simpl.
  - apply Hfg in Ef. assert (a1 = a2) by congruence. subst. apply IH.
  - apply Hfg in Ef. congruence.
  - apply Hfg in Eg. congruence.
  - split; discriminate.
Qed.

Lemma instance_point_verbose (axis_values : axis_values_t)
  (source_axes_values : sdict axis_values_t)
  (desired_locations : sdict (sdict Q)) (axis_tag : string)
  (item : string * sdict Q) (p : Q * Q) :
  instance_point true axis_values source_axes_values desired_locations
                 axis_tag item = Ok p <->
  instance_point false axis_values source_axes_values desired_locations
                 axis_tag item = Ok p.
Proof.
  split.
  - unfold instance_point at 1. intros H.
    apply bind_ok in H. destruct H as ([] & _ & H). exact H.
  - intros H. pose proof H as H'. apply instance_point_ok in H'.
    destruct H' as (src & c & dl & d & _ & Hc & Hdl & Hd & _).
    assert (Hprint : print_line desired_locations axis_tag (fst item)
                                (snd item) = Ok tt).
    { unfold print_line.
      rewrite (sgetitem_some _ _ _ Hc), (sgetitem_some _ _ _ Hdl). simpl.
      now rewrite (sgetitem_some _ _ _ Hd). }
    unfold instance_point. rewrite Hprint. exact H.
Qed.

(** X14: the diagnostic printing has no effect on the table: [create_avar]
    returns a font with [verbose] on exactly when it returns that font
    with [verbose] off. *)
Theorem create_avar_verbose_is_silent (ttfont ttfont' : TTFont)
  (gsfont : GSFont) :
  create_avar ttfont gsfont true = Ok ttfont' <->
  create_avar ttfont gsfont false = Ok ttfont'.
Proof.
  unfold create_avar.
  destruct (get_source_axes_values gsfont) as [sav | e]; simpl; [|tauto].
  destruct (get_instance_locations gsfont) as [dls | e]; simpl; [|tauto].
  destruct (max_name_len (gs_instances gsfont)) as [n | e]; simpl; [|tauto].
  assert (Hseg : forall segs,
             build_segments true (get_axes_values ttfont) sav dls
                            (get_gvar_instance_locations gsfont) = Ok segs <->
             build_segments false (get_axes_values ttfont) sav dls
                            (get_gvar_instance_locations gsfont) = Ok segs).
  { intros segs. unfold build_segments. apply foldM_ok_ext.
    intros d a d'. unfold segments_step.
    assert (Hcurve : forall c,
               build_curve true (snd a) sav dls
                           (get_gvar_instance_locations gsfont) (fst a) = Ok c
               <->
               build_curve false (snd a) sav dls
                           (get_gvar_instance_locations gsfont) (fst a) = Ok c).
    { intros c. unfold build_curve. apply foldM_ok_ext.
      intros cv item cv'. unfold curve_step.
      split; intros Hp; apply bind_ok in Hp; destruct Hp as (p & Hp & Hcv);
        apply instance_point_verbose in Hp; now rewrite Hp. }
    split; intros Hc; apply bind_ok in Hc; destruct Hc as (c & Hc & Hd);
      apply Hcurve in Hc; now rewrite Hc. }
  split; intros H; apply bind_ok in H; destruct H as (segs & Hs & Ht);
    apply Hseg in Hs; now rewrite Hs.
Qed.

(** X15: every entry of a curve that [create_avar] stores is one of the
    three anchors or belongs to an instance of the source: its value is
    the instance's normalized current position and its key equals the
    instance's normalized desired position. *)
Theorem curve_entries_come_from_instances (ttfont ttfont' : TTFont)
  (gsfont : GSFont) (verbose : bool) (axis_tag : string) (curve : curve_t)
  (k v : Q) :
  create_avar ttfont gsfont verbose = Ok ttfont' ->
  avar_curve ttfont' axis_tag = Some curve ->
  In (k, v) curve ->
  In (k, v) anchors \/
  exists name current desired,
    In name (map instance_name (gs_instances gsfont)) /\
    normalized_pair ttfont gsfont axis_tag name current desired /\
    v = current /\ k == desired.
Proof.
  intros Hc Hcurve Hin.
  destruct (create_avar_curve _ _ _ _ _ _ Hc Hcurve)
    as (sav & dls & av & Hsav & Hdls & Hav & Hb).
  unfold build_curve in Hb.
  destruct (curve_loop_entries _ _ _ _ _ _ _ _ _ _ Hb Hin)
    as [Hanchor | (item & p & Hitem & Hp & Hv & Hk)]; [now left|].
  right. exists (fst item), (snd p), (fst p). split; [|split].
  - destruct item as [name cl]. simpl.
    assert (Hs : sget (get_gvar_instance_locations gsfont) name <> None).
    { rewrite (In_sget _ _ _ (get_gvar_instance_locations_NoDup gsfont) Hitem).
      discriminate. }
    unfold get_gvar_instance_locations in Hs.
    apply (sget_fold_sset_key instance_name
             (gvar_location (map gs_axisTag (gs_axes gsfont)))) in Hs.
    destruct Hs as [Hs | Hs]; [exact Hs | now elim Hs].
  - now apply (instance_point_pair ttfont gsfont verbose av sav dls axis_tag
                 item p).
  - now split.
Qed.

Lemma curve_entries_come_from_instances_witness :
  In (100 # 400, 200 # 400) anchors \/
  exists name current desired,
    In name (map instance_name (gs_instances medium_source)) /\
    normalized_pair medium_font medium_source "wght" name current desired /\
    200 # 400 = current /\ 100 # 400 == desired.
Proof.
  apply (curve_entries_come_from_instances medium_font
           (set_avar medium_font
              [("wght"%string,
                [(-1, -1); (0, 0); (1, 1); (100 # 400, 200 # 400)])])
           medium_source true "wght"
           [(-1, -1); (0, 0); (1, 1); (100 # 400, 200 # 400)]).
  - reflexivity.
  - reflexivity.
  - simpl. tauto.
Defined.

Lemma qset_distinct_keys (d : curve_t) (k v : Q) :
  distinct_keys d -> distinct_keys (qset d k v).
Proof.
  unfold qset. induction d as [|[k1 v1] d IH]; simpl.
  - intros _. split; [reflexivity | exact I].
  - intros [Hk Hd]. destruct (Qeq_bool k1 k) eqn:E; simpl.
    + now split.
    + split; [|now apply IH].
      fold (qset d k v). rewrite qget_qset.
      now rewrite Qeq_bool_comm, E.
Qed.

Lemma qset_length (d : curve_t) (k v : Q) :
  (List.length (qset d k v) <= S (List.length d))%nat.
Proof.
  unfold qset. induction d as [|[k1 v1] d IH]; simpl; [lia|].
  destruct (Qeq_bool k1 k); simpl; lia.
Qed.

Lemma curve_loop_invariant (verbose : bool) (axis_values : axis_values_t)
  (source_axes_values : sdict axis_values_t)
  (desired_locations : sdict (sdict Q)) (axis_tag : string)
  (items : list (string * sdict Q)) (acc curve : curve_t) :
  foldM (curve_step verbose axis_values source_axes_values desired_locations
                    axis_tag)
        acc items = Ok curve ->
  distinct_keys acc ->
  distinct_keys curve /\
  (List.length curve <= List.length acc + List.length items)%nat.
Proof.
  revert acc. induction items as [|x items IH]; intros acc; simpl.
  - intros H Hd. inversion H; subst. split; [assumption | lia].
  - intros H Hd. apply bind_ok in H. destruct H as (acc' & Hstep & H).
    unfold curve_step in Hstep.
    apply bind_ok in Hstep. destruct Hstep as (p & _ & Hacc').
    inversion Hacc'; subst; clear Hacc'.
    destruct (IH _ H (qset_distinct_keys _ _ _ Hd)) as [Hdk Hlen].
    split; [exact Hdk|].
    pose proof (qset_length acc (fst p) (snd p)). lia.
Qed.

Lemma sset_length {V} (d : sdict V) (k : string) (v : V) :
  (List.length (sset d k v) <= S (List.length d))%nat.
Proof.
  unfold sset. induction d as [|[k1 v1] d IH]; simpl; [lia|].
  destruct (String.eqb k1 k); simpl; lia.
Qed.

Lemma get_gvar_instance_locations_length (gsfont : GSFont) :
  (List.length (get_gvar_instance_locations gsfont)
   <= List.length (gs_instances gsfont))%nat.
Proof.
  unfold get_gvar_instance_locations.
  assert (H : forall l (d : sdict (sdict Q)),
             (List.length
                (fold_left
                   (fun instance_locations instance =>
                      sset instance_locations (instance_name instance)
                           (gvar_location (map gs_axisTag (gs_axes gsfont))
                                          instance))
                   l d)
              <= List.length d + List.length l)%nat).
  { induction l as [|i l IH]; intros d; simpl; [lia|].
    specialize (IH (sset d (instance_name i)
                         (gvar_location (map gs_axisTag (gs_axes gsfont)) i))).
    pose proof (sset_length d (instance_name i)
                  (gvar_location (map gs_axisTag (gs_axes gsfont)) i)).
    lia. }
  apply (H (gs_instances gsfont) []).
Qed.

(** X16: every curve that [create_avar] stores is a function with at most
    one entry per instance of the source beside the three anchors: no two
    of its entries have equal keys, and it has at most three entries more
    than the source has instances. *)
Theorem curve_is_a_function (ttfont ttfont' : TTFont) (gsfont : GSFont)
  (verbose : bool) (axis_tag : string) (curve : curve_t) :
  create_avar ttfont gsfont verbose = Ok ttfont' ->
  avar_curve ttfont' axis_tag = Some curve ->
  distinct_keys curve /\
  (3 <= List.length curve <= 3 + List.length (gs_instances gsfont))%nat.
Proof.
  intros Hc Hcurve.
  destruct (create_avar_curve _ _ _ _ _ _ Hc Hcurve)
    as (sav & dls & av & Hsav & Hdls & Hav & Hb).
  unfold build_curve in Hb.
  destruct (curve_loop_invariant _ _ _ _ _ _ _ _ Hb) as [Hd Hlen].
  { simpl. repeat split; reflexivity. }
  split; [exact Hd|].
  pose proof (get_gvar_instance_locations_length gsfont). simpl in Hlen.
  split; [|lia].
  assert (Hk : forall a, qget anchors a <> None -> qget curve a <> None)
    by (intros a; apply (curve_loop_keeps_keys _ _ _ _ _ _ _ _ _ Hb)).
  destruct curve as [|[k1 v1] [|[k2 v2] [|[k3 v3] curve]]]; simpl; try lia;
    exfalso.
  - apply (Hk 0); [discriminate | reflexivity].
  - assert (H0 : qget [(k1, v1)] 0 <> None) by (apply Hk; discriminate).
    assert (H1 : qget [(k1, v1)] 1 <> None) by (apply Hk; discriminate).
    unfold qget, dict_get in H0, H1.
    destruct (Qeq_bool k1 0) eqn:E0; [|now apply H0].
    destruct (Qeq_bool k1 1) eqn:E1; [|now apply H1].
    apply Qeq_bool_iff in E0, E1. rewrite E0 in E1. discriminate.
  - destruct Hd as [Hd _].
    assert (Hm : qget [(k1, v1); (k2, v2)] (-1) <> None)
      by (apply Hk; discriminate).
    assert (H0 : qget [(k1, v1); (k2, v2)] 0 <> None)
      by (apply Hk; discriminate).
    assert (H1 : qget [(k1, v1); (k2, v2)] 1 <> None)
      by (apply Hk; discriminate).
    unfold qget, dict_get in Hm, H0, H1, Hd.
    destruct (Qeq_bool k1 (-1)) eqn:A1; destruct (Qeq_bool k1 0) eqn:A2;
      destruct (Qeq_bool k1 1) eqn:A3;
      destruct (Qeq_bool k2 (-1)) eqn:B1; destruct (Qeq_bool k2 0) eqn:B2;
      destruct (Qeq_bool k2 1) eqn:B3;
      try (now apply Hm); try (now apply H0); try (now apply H1);
      repeat match goal with
             | H : Qeq_bool _ _ = true |- _ => apply Qeq_bool_iff in H
             end;
      try match goal with
          | Ha : ?k == ?a, Hb : ?k == ?b |- _ =>
              rewrite Ha in Hb; discriminate
          end.
Qed.

Lemma curve_is_a_function_witness :
  distinct_keys [(-1, -1); (0, 0); (1, 1); (100 # 400, 200 # 400)] /\
  (3 <= List.length ([(-1, -1); (0, 0); (1, 1); (100 # 400, 200 # 400)]%Q)
   <= 3 + List.length (gs_instances medium_source))%nat.
Proof.
  apply (curve_is_a_function medium_font
           (set_avar medium_font
              [("wght"%string,
                [(-1, -1); (0, 0); (1, 1); (100 # 400, 200 # 400)])])
           medium_source true "wght").
  - reflexivity.
  - reflexivity.
Defined.

(** ** update_stat *)

Lemma foldS_ok_iff {S B : Type} (f : S -> B -> S * result unit)
  (P : B -> Prop) (l : list B) (s : S) :
  (forall s x, snd (f s x) = Ok tt <-> P x) ->
  snd (foldS f s l) = Ok tt <-> Forall P l.
Proof.
  intros Hf. revert s. induction l as [|x l IH]; intros s; simpl.
  - split; [constructor | reflexivity].
  - pose proof (Hf s x) as Hx.
    destruct (f s x) as [s' [[] | e]]; simpl in *.
    + rewrite IH. split.
      * intros H. constructor; [now apply Hx | assumption].
      * intros H. now inversion H.
    + split; [discriminate|].
      intros H. inversion H as [|? ? Hp _]; subst. now apply Hx in Hp.
Qed.

Lemma foldS_raise {S B : Type} (f : S -> B -> S * result unit)
  (Q : exn -> Prop) (l : list B) (s : S) (e : exn) :
  (forall s x e', snd (f s x) = Raise e' -> Q e') ->
  snd (foldS f s l) = Raise e -> Q e.
Proof.
  intros Hf. revert s. induction l as [|x l IH]; intros s; simpl;
    [discriminate|].
  pose proof (Hf s x) as Hx.
  destruct (f s x) as [s' [[] | e']]; simpl in *.
  - apply IH.
  - intros H. inversion H; subst. now apply Hx.
Qed.

(** The records that the loop over the design axes appends. *)
Lemma stat_axis_loop_records (desired_locations : sdict (sdict Q))
  (instance : NamedInstance) (name : string) (dl : sdict Q)
  (l : list (nat * string)) (values : list AxisValue) :
  sget desired_locations name = Some dl ->
  foldS (stat_axis_step desired_locations name instance) values l
  = (values
     ++ flat_map
          (fun p =>
             match sget dl (snd p) with
             | Some v => [ {| Format := 1; AxisIndex := fst p; Flags := 0;
                              ValueNameID := subfamilyNameID instance;
                              Value := v |} ]
             | None => []
             end) l,
     Ok tt).
Proof.
  intros Hdl. revert values.
  induction l as [|[i t] l IH]; intros values; simpl.
  - now rewrite app_nil_r.
  - unfold stat_axis_step at 1; simpl.
    rewrite (sgetitem_some _ _ _ Hdl).
    unfold contains. fold (sget dl t).
    destruct (sget dl t) as [v|] eqn:Et; simpl.
    + rewrite (sgetitem_some _ _ _ Et), IH, <- app_assoc. reflexivity.
    + apply IH.
Qed.

Lemma stat_instance_step_records (ttfont : TTFont)
  (desired_locations : sdict (sdict Q)) (instance : NamedInstance)
  (values : list AxisValue) :
  matched ttfont desired_locations instance ->
  stat_instance_step ttfont desired_locations (stat_axes ttfont) values
                     instance
  = (values
     ++ stat_records (declared_for ttfont desired_locations instance)
                     (stat_axes ttfont) (subfamilyNameID instance),
     Ok tt).
Proof.
  intros (name & dl & Hname & Hdl).
  unfold stat_instance_step, declared_for, stat_records.
  rewrite Hname, Hdl. now apply stat_axis_loop_records.
Qed.

Lemma stat_loop_records (ttfont : TTFont)
  (desired_locations : sdict (sdict Q)) (instances : list NamedInstance)
  (values : list AxisValue) :
  Forall (matched ttfont desired_locations) instances ->
  foldS (stat_instance_step ttfont desired_locations (stat_axes ttfont))
        values instances
  = (values
     ++ flat_map
          (fun i => stat_records (declared_for ttfont desired_locations i)
                                 (stat_axes ttfont) (subfamilyNameID i))
          instances,
     Ok tt).
Proof.
  intros H. revert values.
  induction H as [|i instances Hi _ IH]; intros values; simpl.
  - now rewrite app_nil_r.
  - rewrite (stat_instance_step_records _ _ _ _ Hi), IH, <- app_assoc.
    reflexivity.
Qed.

(** X17: when the declared locations of the source resolve
    ([get_instance_locations] returns) and the name of every instance of
    the compiled font resolves to a name under which the source declares a
    location, [update_stat] returns, and the axis-value array it leaves
    does not depend on the one that was there: it holds, instance by
    instance and design axis by design axis in order, one format-1 record
    with flags 0, the axis index, the instance's name id and the declared
    value, for every design axis that the instance's location declares; an
    undeclared axis is skipped without an error. *)
Theorem update_stat_rebuilds_the_array (ttfont : TTFont) (gsfont : GSFont)
  (desired_locations : sdict (sdict Q)) :
  get_instance_locations gsfont = Ok desired_locations ->
  Forall (matched ttfont desired_locations) (fvar_instances ttfont) ->
  update_stat ttfont gsfont
  = (set_stat_axis_values ttfont
       (flat_map
          (fun i => stat_records (declared_for ttfont desired_locations i)
                                 (stat_axes ttfont) (subfamilyNameID i))
          (fvar_instances ttfont)),
     Ok tt).
Proof.
  intros Hdls Hall. unfold update_stat. rewrite Hdls.
  now rewrite (stat_loop_records _ _ _ [] Hall).
Qed.

Lemma regular_is_matched (ttfont : TTFont) (c : sdict Q) :
  get_name ttfont 256 = Ok "Regular"%string ->
  matched ttfont [("Regular"%string, [("wght"%string, 450)])]
          {| subfamilyNameID := 256; coordinates := c |}.
Proof.
  intros H. exists "Regular"%string, [("wght"%string, 450)]. now split.
Qed.

Lemma update_stat_rebuilds_the_array_witness :
  update_stat regular_width_font regular_source
  = (set_stat_axis_values regular_width_font
       (flat_map
          (fun i =>
             stat_records
               (declared_for regular_width_font
                             [("Regular"%string, [("wght"%string, 450)])] i)
               (stat_axes regular_width_font) (subfamilyNameID i))
          (fvar_instances regular_width_font)),
     Ok tt).
Proof.
  apply (update_stat_rebuilds_the_array regular_width_font regular_source
           [("Regular"%string, [("wght"%string, 450)])]).
  - reflexivity.
  - constructor; [|constructor]. now apply regular_is_matched.
Defined.

(** On that font the array has the one record of the declared weight: the
    undeclared width axis is skipped. *)
Example update_stat_skips_undeclared_axis :
  stat_axis_values (fst (update_stat regular_width_font regular_source))
  = [ {| Format := 1; AxisIndex := 0; Flags := 0; ValueNameID := 256;
         Value := 450 |} ].
Proof. reflexivity. Qed.

Lemma stat_instance_step_unmatched (ttfont : TTFont)
  (desired_locations : sdict (sdict Q)) (instance : NamedInstance)
  (name : string) (values : list AxisValue) :
  get_name ttfont (subfamilyNameID instance) = Ok name ->
  sget desired_locations name = None ->
  stat_axes ttfont <> [] ->
  stat_instance_step ttfont desired_locations (stat_axes ttfont) values
                     instance
  = (values, Raise KeyError).
Proof.
  intros Hname Hno Hne. unfold stat_instance_step. rewrite Hname.
  destruct (stat_axes ttfont) as [|t tags]; [contradiction|].
  simpl. unfold stat_axis_step. now rewrite (sgetitem_none _ _ Hno).
Qed.

Lemma stat_instance_step_ok_iff (ttfont : TTFont)
  (desired_locations : sdict (sdict Q)) (values : list AxisValue)
  (instance : NamedInstance) :
  stat_axes ttfont <> [] ->
  snd (stat_instance_step ttfont desired_locations (stat_axes ttfont) values
                          instance) = Ok tt
  <-> matched ttfont desired_locations instance.
Proof.
  intros Hne. split.
  - intros H. unfold matched.
    destruct (get_name ttfont (subfamilyNameID instance)) as [name | e] eqn:En.
    + destruct (sget desired_locations name) as [dl|] eqn:Ed.
      * now exists name, dl.
      * rewrite (stat_instance_step_unmatched ttfont desired_locations
                   instance name values En Ed Hne) in H. discriminate.
    + unfold stat_instance_step in H. rewrite En in H. discriminate.
  - intros H. now rewrite (stat_instance_step_records _ _ _ _ H).
Qed.

Lemma stat_instance_step_raise (ttfont : TTFont)
  (desired_locations : sdict (sdict Q)) (axes_tags : list string)
  (values : list AxisValue) (instance : NamedInstance) (e : exn) :
  snd (stat_instance_step ttfont desired_locations axes_tags values instance)
  = Raise e ->
  e = AttributeError \/ e = KeyError.
Proof.
  unfold stat_instance_step, get_name.
  destruct (getName (name_names ttfont) (subfamilyNameID instance) 3 1)
    as [r|]; simpl.
  - intros H. right.
    apply (foldS_raise _ (fun e => e = KeyError)) in H; [exact H|].
    intros s p e'. unfold stat_axis_step.
    destruct (sgetitem_result desired_locations (name_string r))
      as [(dl & -> & _) | [-> _]]; simpl; [|congruence].
    destruct (contains String.eqb dl (snd p)) eqn:Ec; simpl; [|discriminate].
    destruct (sgetitem_result dl (snd p)) as [(v & -> & _) | [-> _]]; simpl;
      [discriminate | congruence].
  - intros H. left. congruence.
Qed.

(** X18: when the declared locations resolve and STAT has a design axis,
    [update_stat] returns exactly when the name of every instance of the
    compiled font resolves to a name under which the source declares a
    location; when it raises, it raises an [AttributeError] (a name id
    without a name record) or a [KeyError] (a name that the source does not
    declare). *)
Theorem update_stat_returns_iff (ttfont : TTFont) (gsfont : GSFont)
  (desired_locations : sdict (sdict Q)) :
  get_instance_locations gsfont = Ok desired_locations ->
  stat_axes ttfont <> [] ->
  (snd (update_stat ttfont gsfont) = Ok tt <->
   Forall (matched ttfont desired_locations) (fvar_instances ttfont)) /\
  (forall e, snd (update_stat ttfont gsfont) = Raise e ->
             e = AttributeError \/ e = KeyError).
Proof.
  intros Hdls Hne. unfold update_stat. rewrite Hdls. simpl. split.
  - apply foldS_ok_iff. intros values i.
    now apply stat_instance_step_ok_iff.
  - intros e.
    apply (foldS_raise _ (fun e => e = AttributeError \/ e = KeyError)).
    intros values i e'. apply stat_instance_step_raise.
Qed.

Lemma update_stat_returns_iff_witness :
  (snd (update_stat regular_bold_font regular_source) = Ok tt <->
   Forall (matched regular_bold_font
                   [("Regular"%string, [("wght"%string, 450)])])
          (fvar_instances regular_bold_font)) /\
  (forall e, snd (update_stat regular_bold_font regular_source) = Raise e ->
             e = AttributeError \/ e = KeyError).
Proof.
  apply (update_stat_returns_iff regular_bold_font regular_source
           [("Regular"%string, [("wght"%string, 450)])]).
  - reflexivity.
  - discriminate.
Defined.

(** ** update_fvar *)

Lemma fvar_axis_loop_keys (desired_locations : sdict (sdict Q))
  (name : string) (tags : list string) (coords : sdict Q) :
  incl tags (keys coords) ->
  keys (fst (foldS (fvar_axis_step desired_locations name) coords tags))
  = keys coords.
Proof.
  revert coords. induction tags as [|k tags IH]; intros coords Hincl; simpl;
    [reflexivity|].
  unfold fvar_axis_step at 1.
  destruct (sgetitem desired_locations name) as [dl | e]; [|reflexivity].
  destruct (sgetitem dl k) as [v | e]; [|reflexivity].
  assert (Hk : keys (sset coords k v) = keys coords).
  { rewrite keys_sset, contains_In_keys; [reflexivity|].
    apply Hincl. now left. }
  rewrite IH; [exact Hk|]. rewrite Hk.
  intros t Ht. apply Hincl. now right.
Qed.

Lemma fvar_instance_step_frame (ttfont : TTFont)
  (desired_locations : sdict (sdict Q)) (instance : NamedInstance) :
  subfamilyNameID (fst (fvar_instance_step ttfont desired_locations instance))
  = subfamilyNameID instance /\
  keys (coordinates
          (fst (fvar_instance_step ttfont desired_locations instance)))
  = keys (coordinates instance).
Proof.
  unfold fvar_instance_step.
  destruct (get_name ttfont (subfamilyNameID instance)); simpl;
    [|now split].
  split; [reflexivity|]. apply fvar_axis_loop_keys, incl_refl.
Qed.

Lemma fvar_loop_frame (ttfont : TTFont) (desired_locations : sdict (sdict Q))
  (instances : list NamedInstance) :
  map subfamilyNameID (fst (fvar_loop ttfont desired_locations instances))
  = map subfamilyNameID instances /\
  map (fun i => keys (coordinates i))
      (fst (fvar_loop ttfont desired_locations instances))
  = map (fun i => keys (coordinates i)) instances.
Proof.
  induction instances as [|i instances [IH1 IH2]]; simpl; [now split|].
  destruct (fvar_instance_step_frame ttfont desired_locations i) as [H1 H2].
  destruct (fvar_instance_step ttfont desired_locations i) as [i' [[] | e]];
    simpl in *.
  - now rewrite H1, H2, IH1, IH2.
  - now rewrite H1, H2.
Qed.

(** X19: whether it returns or raises, [update_fvar] changes nothing but
    the values of coordinates: the instance table keeps its length, its
    name ids and the coordinate tags of every instance, in order, and the
    axes, the name table, STAT and avar are as they were. *)
Theorem update_fvar_changes_only_values (ttfont : TTFont) (gsfont : GSFont) :
  same_but_coordinate_values ttfont (fst (update_fvar ttfont gsfont)).
Proof.
  unfold update_fvar, same_but_coordinate_values.
  destruct (get_instance_locations gsfont) as [dls | e]; simpl.
  - repeat (split; [reflexivity|]). apply fvar_loop_frame.
  - now repeat split.
Qed.

Lemma fvar_axis_loop_returned (desired_locations : sdict (sdict Q))
  (name : string) (tags : list string) (coords coords' : sdict Q) :
  foldS (fvar_axis_step desired_locations name) coords tags
  = (coords', Ok tt) ->
  forall t, In t tags ->
            exists dl v, sget desired_locations name = Some dl /\
                         sget dl t = Some v.
Proof.
  revert coords. induction tags as [|k tags IH]; intros coords; simpl;
    [intros _ t []|].
  unfold fvar_axis_step at 1.
  destruct (sgetitem_result desired_locations name)
    as [(dl & -> & Hdl) | [-> _]]; [|discriminate].
  destruct (sgetitem_result dl k) as [(v & -> & Hv) | [-> _]];
    [|discriminate].
  intros H t [<- | Ht]; [now exists dl, v | now apply (IH _ H)].
Qed.

Lemma fvar_instance_step_settles (ttfont : TTFont)
  (desired_locations : sdict (sdict Q)) (instance instance' : NamedInstance) :
  fvar_instance_step ttfont desired_locations instance = (instance', Ok tt) ->
  settled ttfont desired_locations instance instance'.
Proof.
  intros H.
  pose proof (fvar_instance_step_frame ttfont desired_locations instance)
    as [Hid Hkeys].
  rewrite H in Hid, Hkeys. simpl in Hid, Hkeys.
  split; [exact Hid|]. split; [exact Hkeys|].
  unfold fvar_instance_step in H.
  destruct (get_name ttfont (subfamilyNameID instance)) as [name | e];
    [|discriminate].
  exists name. split; [reflexivity|].
  destruct (foldS (fvar_axis_step desired_locations name)
                  (coordinates instance) (keys (coordinates instance)))
    as [coords' r] eqn:Erun.
  simpl in H. inversion H; subst; clear H. simpl.
  intros t Ht.
  destruct (fvar_axis_loop_returned _ _ _ _ _ Erun t Ht) as (dl & v & Hdl & Hv).
  exists dl, v. split; [exact Hdl|]. split; [exact Hv|].
  destruct (fvar_axis_loop desired_locations name dl
              (keys (coordinates instance)) (coordinates instance) Hdl)
    as (coords'' & Hrun & Hin & _).
  - intros t' Ht'.
    destruct (fvar_axis_loop_returned _ _ _ _ _ Erun t' Ht')
      as (dl' & v' & Hdl' & Hv').
    assert (dl' = dl) by congruence. subst. rewrite Hv'. discriminate.
  - rewrite Erun in Hrun. inversion Hrun; subst.
    now rewrite (Hin t Ht).
Qed.

Lemma fvar_loop_settles (ttfont : TTFont)
  (desired_locations : sdict (sdict Q))
  (instances instances' : list NamedInstance) :
  fvar_loop ttfont desired_locations instances = (instances', Ok tt) ->
  Forall2 (settled ttfont desired_locations) instances instances'.
Proof.
  revert instances'.
  induction instances as [|i instances IH]; intros instances'; simpl.
  - intros H. inversion H. constructor.
  - destruct (fvar_instance_step ttfont desired_locations i)
      as [i' [[] | e]] eqn:Es; [|discriminate].
    destruct (fvar_loop ttfont desired_locations instances) as [rest r]
      eqn:El.
    simpl. intros H. inversion H; subst.
    constructor; [now apply fvar_instance_step_settles | now apply IH].
Qed.

(** X20: when [update_fvar] returns, the declared locations resolved and
    every coordinate of every instance of the compiled font holds the
    design-space value that the source declares for that tag under the
    instance's resolved name; name ids and coordinate tags are kept. *)
Theorem update_fvar_returns_declared_values (ttfont ttfont' : TTFont)
  (gsfont : GSFont) :
  update_fvar ttfont gsfont = (ttfont', Ok tt) ->
  exists desired_locations,
    get_instance_locations gsfont = Ok desired_locations /\
    Forall2 (settled ttfont desired_locations)
            (fvar_instances ttfont) (fvar_instances ttfont').
Proof.
  unfold update_fvar.
  destruct (get_instance_locations gsfont) as [dls | e]; [|discriminate].
  destruct (fvar_loop ttfont dls (fvar_instances ttfont)) as [insts r] eqn:El.
  simpl. intros H. inversion H; subst. simpl.
  exists dls. split; [reflexivity|]. now apply fvar_loop_settles.
Qed.

Lemma update_fvar_returns_declared_values_witness :
  exists desired_locations,
    get_instance_locations regular_source = Ok desired_locations /\
    Forall2 (settled (one_axis_font 100 400 900
                        [(256%nat, "Regular"%string, 400)])
                     desired_locations)
            [ {| subfamilyNameID := 256;
                 coordinates := [("wght"%string, 400)] |} ]
            [ {| subfamilyNameID := 256;
                 coordinates := [("wght"%string, 450)] |} ].
Proof.
  apply (update_fvar_returns_declared_values
           (one_axis_font 100 400 900 [(256%nat, "Regular"%string, 400)])
           (set_fvar_instances
              (one_axis_font 100 400 900 [(256%nat, "Regular"%string, 400)])
              [ {| subfamilyNameID := 256;
                   coordinates := [("wght"%string, 450)] |} ])
           regular_source).
  reflexivity.
Defined.

Lemma sset_same {V} (d : sdict V) (k : string) (v : V) :
  sget d k = Some v -> sset d k v = d.
Proof.
  unfold sget, sset. induction d as [|[k1 v1] d IH]; simpl; [discriminate|].
  destruct (String.eqb k1 k).
  - intros H. now inversion H.
  - intros H. now rewrite IH.
Qed.

Lemma fvar_axis_loop_fixed (desired_locations : sdict (sdict Q))
  (name : string) (tags : list string) (coords : sdict Q) :
  (forall t, In t tags ->
             exists dl v, sget desired_locations name = Some dl /\
                          sget dl t = Some v /\ sget coords t = Some v) ->
  foldS (fvar_axis_step desired_locations name) coords tags = (coords, Ok tt).
Proof.
  induction tags as [|k tags IH]; intros Hall; simpl; [reflexivity|].
  destruct (Hall k) as (dl & v & Hdl & Hv & Hc); [now left|].
  unfold fvar_axis_step at 1.
  rewrite (sgetitem_some _ _ _ Hdl), (sgetitem_some _ _ _ Hv).
  rewrite (sset_same _ _ _ Hc).
  apply IH. intros t Ht. apply Hall. now right.
Qed.

Lemma get_name_names (t t' : TTFont) (id : nat) :
  name_names t' = name_names t -> get_name t' id = get_name t id.
Proof. unfold get_name. now intros ->. Qed.

Lemma fvar_loop_fixed (t t' : TTFont) (desired_locations : sdict (sdict Q))
  (instances instances' : list NamedInstance) :
  name_names t' = name_names t ->
  Forall2 (settled t desired_locations) instances instances' ->
  fvar_loop t' desired_locations instances' = (instances', Ok tt).
Proof.
  intros Hn H. induction H as [|i i' l l' Hi _ IH]; simpl; [reflexivity|].
  destruct Hi as (Hid & Hkeys & name & Hname & Hall).
  unfold fvar_instance_step.
  rewrite (get_name_names t t' _ Hn), Hid, Hname.
  rewrite fvar_axis_loop_fixed.
  - simpl. rewrite IH, set_coordinates_same. reflexivity.
  - rewrite Hkeys. exact Hall.
Qed.

(** X21: [update_fvar] is idempotent: run again on the font it returned,
    it returns that font unchanged. *)
Theorem update_fvar_idempotent (ttfont ttfont' : TTFont) (gsfont : GSFont) :
  update_fvar ttfont gsfont = (ttfont', Ok tt) ->
  update_fvar ttfont' gsfont = (ttfont', Ok tt).
Proof.
  unfold update_fvar.
  destruct (get_instance_locations gsfont) as [dls | e]; [|discriminate].
  destruct (fvar_loop ttfont dls (fvar_instances ttfont)) as [insts r] eqn:El.
  simpl. intros H. inversion H; subst. simpl.
  apply fvar_loop_settles in El.
  now rewrite (fvar_loop_fixed ttfont (set_fvar_instances ttfont insts) dls
                 _ _ eq_refl El).
Qed.

Lemma update_fvar_idempotent_witness :
  update_fvar
    (set_fvar_instances regular_bold_font
       [ {| subfamilyNameID := 256;
            coordinates := [("wght"%string, 450)] |} ])
    regular_source
  = (set_fvar_instances regular_bold_font
       [ {| subfamilyNameID := 256;
            coordinates := [("wght"%string, 450)] |} ],
     Ok tt).
Proof.
  apply (update_fvar_idempotent
           (set_fvar_instances regular_bold_font
              [ {| subfamilyNameID := 256;
                   coordinates := [("wght"%string, 400)] |} ])
           _ regular_source).
  reflexivity.
Defined.

Lemma fvar_axis_loop_undeclared (desired_locations : sdict (sdict Q))
  (name : string) (dl : sdict Q) (tags : list string) (coords : sdict Q) :
  sget desired_locations name = Some dl ->
  (exists t, In t tags /\ sget dl t = None) ->
  snd (foldS (fvar_axis_step desired_locations name) coords tags)
  = Raise KeyError.
Proof.
  intros Hdl. revert coords.
  induction tags as [|k tags IH]; intros coords (t & Ht & Hnone); simpl;
    [contradiction|].
  unfold fvar_axis_step at 1. rewrite (sgetitem_some _ _ _ Hdl).
  destruct (sget dl k) as [v|] eqn:Ek.
  - rewrite (sgetitem_some _ _ _ Ek). apply IH.
    exists t. split; [|assumption].
    destruct Ht as [<- | Ht]; [congruence | assumption].
  - now rewrite (sgetitem_none _ _ Ek).
Qed.

(** X22: unlike [update_stat], [update_fvar] does not skip an undeclared
    axis: when the declared locations of the source resolve
    ([get_instance_locations] returns), the instances before it can be
    rewritten and an instance's name resolves to a declared location that
    lacks a tag of the instance's coordinates, [update_fvar] raises a
    [KeyError], with the instances before it rewritten and the instances
    after it untouched. *)
Theorem update_fvar_needs_every_tag (ttfont : TTFont) (gsfont : GSFont)
  (desired_locations : sdict (sdict Q)) (pre post : list NamedInstance)
  (instance : NamedInstance) (name : string) (dl : sdict Q) :
  get_instance_locations gsfont = Ok desired_locations ->
  fvar_instances ttfont = pre ++ instance :: post ->
  Forall (rewritable ttfont desired_locations) pre ->
  get_name ttfont (subfamilyNameID instance) = Ok name ->
  sget desired_locations name = Some dl ->
  (exists t, In t (keys (coordinates instance)) /\ sget dl t = None) ->
  exists pre' instance',
    update_fvar ttfont gsfont
    = (set_fvar_instances ttfont (pre' ++ instance' :: post), Raise KeyError)
    /\ Forall2 (rewritten ttfont desired_locations) pre pre'
    /\ subfamilyNameID instance' = subfamilyNameID instance
    /\ keys (coordinates instance') = keys (coordinates instance).
Proof.
  intros Hdls Hinsts Hpre Hname Hdl Hmiss.
  unfold update_fvar. rewrite Hdls, Hinsts.
  destruct (fvar_loop_prefix ttfont desired_locations pre (instance :: post)
                             Hpre) as (pre' & Hrun & Hrew).
  rewrite Hrun. simpl.
  pose proof (fvar_instance_step_frame ttfont desired_locations instance)
    as [Hid Hkeys].
  assert (Hraise : snd (fvar_instance_step ttfont desired_locations instance)
                   = Raise KeyError).
  { unfold fvar_instance_step. rewrite Hname. simpl.
    now apply (fvar_axis_loop_undeclared _ _ dl). }
  destruct (fvar_instance_step ttfont desired_locations instance)
    as [i' r]. simpl in *. subst r. simpl.
  now exists pre', i'.
Qed.

Lemma update_fvar_needs_every_tag_witness :
  exists pre' instance',
    update_fvar regular_width_font regular_source
    = (set_fvar_instances regular_width_font (pre' ++ instance' :: []),
       Raise KeyError)
    /\ Forall2 (rewritten regular_width_font
                          [("Regular"%string, [("wght"%string, 450)])])
               [] pre'
    /\ subfamilyNameID instance' = 256%nat
    /\ keys (coordinates instance') = ["wght"%string; "wdth"%string].
Proof.
  apply (update_fvar_needs_every_tag regular_width_font regular_source
           [("Regular"%string, [("wght"%string, 450)])] [] []
           {| subfamilyNameID := 256;
              coordinates := [("wght"%string, 400); ("wdth"%string, 100)] |}
           "Regular" [("wght"%string, 450)]).
  - reflexivity.
  - reflexivity.
  - constructor.
  - reflexivity.
  - reflexivity.
  - exists "wdth"%string. split; [simpl; tauto | reflexivity].
Defined.

(** ** main: the path of the saved font *)

Lemma append_empty_r (s : string) : (s ++ "")%string = s.
Proof. induction s as [|c s IH]; simpl; [reflexivity | now rewrite IH]. Qed.

Lemma append_assoc (a b c : string) :
  ((a ++ b) ++ c)%string = (a ++ (b ++ c))%string.
Proof. induction a as [|x a IH]; simpl; [reflexivity | now rewrite IH]. Qed.

Lemma split_from_without_dot (cur s : string) :
  has_dot s = false -> split_from cur s = [(cur ++ s)%string].
Proof.
  revert cur. induction s as [|c s IH]; intros cur; simpl.
  - intros _. now rewrite append_empty_r.
  - destruct (Ascii.eqb c ".") eqn:E; simpl; [discriminate|].
    intros H. rewrite (IH _ H), append_assoc. reflexivity.
Qed.

Lemma split_from_not_empty (cur s : string) : split_from cur s <> [].
Proof.
  revert cur. induction s as [|c s IH]; intros cur; simpl; [discriminate|].
  destruct (Ascii.eqb c "."); [discriminate | apply IH].
Qed.

(** The last piece of a split is what follows the last dot. *)
Lemma split_from_last_piece (cur stem ext : string) :
  has_dot ext = false ->
  split_from cur (stem ++ String "." ext) = split_from cur stem ++ [ext].
Proof.
  intros Hext. revert cur. induction stem as [|c stem IH]; intros cur; simpl.
  - now rewrite (split_from_without_dot _ _ Hext).
  - destruct (Ascii.eqb c "."); [now rewrite IH | apply IH].
Qed.

(** Joining the pieces of a split with dots gives the string back. *)
Lemma join_split_from (cur s : string) :
  String.concat "." (split_from cur s) = (cur ++ s)%string.
Proof.
  revert cur. induction s as [|c s IH]; intros cur; simpl.
  - now rewrite append_empty_r.
  - destruct (Ascii.eqb c ".") eqn:E.
    + apply Ascii.eqb_eq in E. subst c.
      destruct (split_from "" s) as [|x xs] eqn:Es;
        [now apply split_from_not_empty in Es|].
      change (String.concat "." (cur :: x :: xs))
        with (cur ++ "." ++ String.concat "." (x :: xs))%string.
      rewrite <- Es, IH. reflexivity.
    + rewrite IH, append_assoc. reflexivity.
Qed.

(** X23: for a path whose last dot is followed by [ext], the font is saved
    under the part before that dot with "_avar.ttf" appended: the
    extension is replaced, and dots earlier in the path are kept. *)
Theorem save_path_replaces_extension (stem ext : string) :
  has_dot ext = false ->
  save_path (stem ++ String "." ext) = (stem ++ "_avar.ttf")%string.
Proof.
  intros Hext. unfold save_path, split_dot.
  rewrite (split_from_last_piece _ _ _ Hext), removelast_last.
  now rewrite join_split_from.
Qed.

Lemma save_path_replaces_extension_witness :
  save_path "fonts/My.Font-VF.ttf" = "fonts/My.Font-VF_avar.ttf"%string.
Proof.
  apply (save_path_replaces_extension "fonts/My.Font-VF" "ttf").
  reflexivity.
Defined.

(** X24: for a path without a dot the name of the input is lost: the font
    is saved as "_avar.ttf". *)
Theorem save_path_without_extension (path : string) :
  has_dot path = false -> save_path path = "_avar.ttf"%string.
Proof.
  intros H. unfold save_path, split_dot.
  now rewrite (split_from_without_dot _ _ H).
Qed.

Lemma save_path_without_extension_witness :
  save_path "MyFont" = "_avar.ttf"%string.
Proof.
  apply (save_path_without_extension "MyFont"). reflexivity.
Defined.

(** ** main: the three steps together *)

Lemma update_stat_frame (ttfont : TTFont) (gsfont : GSFont) :
  fvar_axes (fst (update_stat ttfont gsfont)) = fvar_axes ttfont /\
  fvar_instances (fst (update_stat ttfont gsfont)) = fvar_instances ttfont /\
  name_names (fst (update_stat ttfont gsfont)) = name_names ttfont /\
  avar_segments (fst (update_stat ttfont gsfont)) = avar_segments ttfont.
Proof.
  unfold update_stat.
  destruct (get_instance_locations gsfont); simpl; now repeat split.
Qed.

Lemma update_fvar_frame (ttfont : TTFont) (gsfont : GSFont) :
  fvar_axes (fst (update_fvar ttfont gsfont)) = fvar_axes ttfont /\
  name_names (fst (update_fvar ttfont gsfont)) = name_names ttfont /\
  avar_segments (fst (update_fvar ttfont gsfont)) = avar_segments ttfont.
Proof.
  unfold update_fvar.
  destruct (get_instance_locations gsfont); simpl; now repeat split.
Qed.

Lemma Forall2_In_r {A B : Type} (R : A -> B -> Prop) (l : list A)
  (l' : list B) (b : B) :
  Forall2 R l l' -> In b l' -> exists a, In a l /\ R a b.
Proof.
  induction 1 as [|x y l l' Hxy _ IH]; simpl; [intros []|].
  intros [<- | Hb].
  - exists x. split; [now left | assumption].
  - destruct (IH Hb) as (a & Ha & Hr).
    exists a. split; [now right | assumption].
Qed.

(** The value under a key at the end of the loop is the one from the start
    or the one of an instance with that key. *)
Lemma curve_loop_value (verbose : bool) (axis_values : axis_values_t)
  (source_axes_values : sdict axis_values_t)
  (desired_locations : sdict (sdict Q)) (axis_tag : string)
  (items : list (string * sdict Q)) (acc curve : curve_t) (k w : Q) :
  foldM (curve_step verbose axis_values source_axes_values desired_locations
                    axis_tag)
        acc items = Ok curve ->
  qget acc k = Some w ->
  qget curve k = Some w \/
  exists item p,
    In item items /\
    instance_point verbose axis_values source_axes_values desired_locations
                   axis_tag item = Ok p /\
    fst p == k /\ qget curve k = Some (snd p).
Proof.
  revert acc w. induction items as [|x items IH]; intros acc w; simpl.
  - intros H Hk. inversion H; subst. now left.
  - intros H Hk. apply bind_ok in H. destruct H as (acc' & Hstep & H).
    unfold curve_step in Hstep.
    apply bind_ok in Hstep. destruct Hstep as (p & Hp & Hacc').
    inversion Hacc'; subst; clear Hacc'.
    assert (Hlater : forall w',
               qget (qset acc (fst p) (snd p)) k = Some w' ->
               qget curve k = Some w' \/
               exists item q,
                 In item (x :: items) /\
                 instance_point verbose axis_values source_axes_values
                                desired_locations axis_tag item = Ok q /\
                 fst q == k /\ qget curve k = Some (snd q)).
    { intros w' Hw'.
      destruct (IH _ _ H Hw') as [Hc | (item & q & Hi & Hq & Hkq & Hc)].
      - now left.
      - right. exists item, q. repeat split; auto. now right. }
    destruct (Qeq_bool (fst p) k) eqn:E.
    + assert (Hw : qget (qset acc (fst p) (snd p)) k = Some (snd p))
        by now rewrite qget_qset, E.
      destruct (Hlater _ Hw) as [Hc | Hc].
      * right. exists x, p. apply Qeq_bool_iff in E.
        repeat split; auto.
      * now right.
    + apply Hlater. now rewrite qget_qset, E.
Qed.

Lemma transform_steps (ttfont ttfont' : TTFont) (gsfont : GSFont) :
  transform ttfont gsfont = (ttfont', Ok tt) ->
  exists ttfont1 ttfont2,
    create_avar ttfont gsfont true = Ok ttfont1 /\
    update_stat ttfont1 gsfont = (ttfont2, Ok tt) /\
    update_fvar ttfont2 gsfont = (ttfont', Ok tt).
Proof.
  unfold transform.
  destruct (create_avar ttfont gsfont true) as [t1 | e]; [|discriminate].
  destruct (update_stat t1 gsfont) as [t2 [[] | e]] eqn:Es; [|discriminate].
  intros H. now exists t1, t2.
Qed.

Lemma main_saved (path saved : string) (ttfont ttfont' : TTFont)
  (gsfont : GSFont) :
  main path ttfont gsfont = Ok (saved, ttfont') ->
  transform ttfont gsfont = (ttfont', Ok tt) /\ saved = save_path path.
Proof.
  unfold main.
  destruct (transform ttfont gsfont) as [t [[] | e]]; [|discriminate].
  intros H. inversion H. now split.
Qed.

(** X25: in the font that [main] saves, the avar table and the rewritten
    instance table agree: for every coordinate [d] of every instance of
    the saved font on an axis of the font, the curve of that axis has the
    key [N(d)], the normalization of [d] under the axis range of the font,
    and sends it to the normalized interpolation position of an instance
    of the source whose declared location normalizes to that key. *)
Theorem saved_font_is_consistent (path saved : string)
  (ttfont ttfont' : TTFont) (gsfont : GSFont)
  (instance' : NamedInstance) (axis_tag : string) (d : Q)
  (axis_values : axis_values_t) :
  main path ttfont gsfont = Ok (saved, ttfont') ->
  In instance' (fvar_instances ttfont') ->
  sget (coordinates instance') axis_tag = Some d ->
  sget (get_axes_values ttfont') axis_tag = Some axis_values ->
  exists curve k name current desired,
    avar_curve ttfont' axis_tag = Some curve /\
    defaultNormalizedValue axis_values d = Ok k /\
    normalized_pair ttfont gsfont axis_tag name current desired /\
    desired == k /\
    qget curve k = Some current.
Proof.
  intros Hmain Hin Hd Hav.
  destruct (main_saved _ _ _ _ _ Hmain) as [Ht _].
  destruct (transform_steps _ _ _ Ht) as (t1 & t2 & Hc & Hs & Hf).
  destruct (create_avar_ok _ _ _ _ Hc)
    as (sav & dls & segs & Hsav & Hdls & _ & E1).
  pose proof (update_stat_frame t1 gsfont) as (S1 & S2 & S3 & S4).
  rewrite Hs in S1, S2, S3, S4. simpl in S1, S2, S3, S4.
  pose proof (update_fvar_frame t2 gsfont) as (F1 & F2 & F5).
  rewrite Hf in F1, F2, F5. simpl in F1, F2, F5.
  assert (Haxes : get_axes_values ttfont' = get_axes_values ttfont).
  { unfold get_axes_values. rewrite F1, S1, E1. reflexivity. }
  assert (Havar : avar_curve ttfont' axis_tag = avar_curve t1 axis_tag).
  { unfold avar_curve. now rewrite F5, S4. }
  rewrite Haxes in Hav.
  (* the coordinate is a declared value *)
  unfold update_fvar in Hf. rewrite Hdls in Hf.
  destruct (fvar_loop t2 dls (fvar_instances t2)) as [insts r] eqn:El.
  simpl in Hf. inversion Hf; subst ttfont' r; clear Hf. simpl in Hin.
  apply fvar_loop_settles in El.
  destruct (Forall2_In_r _ _ _ _ El Hin)
    as (instance & _ & _ & Hkeys & name & Hname & Hall).
  assert (Htag : In axis_tag (keys (coordinates instance))).
  { rewrite <- Hkeys. apply sget_In in Hd.
    apply in_map_iff. now exists (axis_tag, d). }
  destruct (Hall _ Htag) as (dl & v & Hdl & Hv & Hv').
  assert (v = d) by congruence. subst v.
  (* the instance of that name in the loop of create_avar *)
  assert (Hn : In name (map instance_name (gs_instances gsfont))).
  { unfold get_instance_locations in Hdls.
    destruct (declared_names _ _ _ _ name Hdls) as [Hacc | Hn];
      [rewrite Hdl; discriminate | now elim Hacc | exact Hn]. }
  destruct (get_gvar_instance_locations_key _ _ Hn) as (cl & Hcl).
  destruct (in_split _ _ Hcl) as (pre & post & Hsplit).
  destruct (create_avar_has_curve _ _ _ _ axis_tag Hc) as (curve & Hcurve).
  { apply sget_In in Hav. apply in_map_iff.
    now exists (axis_tag, axis_values). }
  destruct (create_avar_curve _ _ _ _ _ _ Hc Hcurve)
    as (sav' & dls' & av' & Hsav' & Hdls' & Hav' & Hb).
  assert (sav' = sav) by congruence. assert (dls' = dls) by congruence.
  assert (av' = axis_values) by congruence. subst sav' dls' av'.
  unfold build_curve in Hb. rewrite Hsplit in Hb.
  apply curve_loop_app in Hb. destruct Hb as (acc1 & p & _ & Hp & Hpost).
  pose proof (instance_point_ok _ _ _ _ _ _ _ Hp)
    as (src & c & dl' & d' & _ & _ & Hdl' & Hd' & _ & Hkey).
  simpl in Hdl'. assert (dl' = dl) by congruence. subst dl'.
  assert (d' = d) by congruence. subst d'.
  assert (Hitems : forall item,
             item = (name, cl) \/ In item post ->
             In item (get_gvar_instance_locations gsfont)).
  { intros item Hi. rewrite Hsplit. apply in_or_app. right.
    destruct Hi as [-> | Hi]; [now left | now right]. }
  exists curve, (fst p).
  destruct (curve_loop_value _ _ _ _ _ _ _ _ (fst p) (snd p) Hpost)
    as [Hval | (item & q & Hi & Hq & Hkq & Hval)].
  - now rewrite qget_qset, Qeq_bool_refl.
  - exists name, (snd p), (fst p).
    split; [now rewrite Havar|]. split; [exact Hkey|].
    split; [|split; [reflexivity | exact Hval]].
    apply (instance_point_pair ttfont gsfont true axis_values sav dls
             axis_tag (name, cl) p); auto.
  - exists (fst item), (snd q), (fst q).
    split; [now rewrite Havar|]. split; [exact Hkey|].
    split; [|split; [exact Hkq | exact Hval]].
    apply (instance_point_pair ttfont gsfont true axis_values sav dls
             axis_tag item q); auto.
Qed.

Lemma saved_font_is_consistent_witness :
  exists curve k name current desired,
    avar_curve
      (set_fvar_instances
         (set_stat_axis_values
            (set_avar medium_font
               [("wght"%string,
                 [(-1, -1); (0, 0); (1, 1); (100 # 400, 200 # 400)])])
            [ {| Format := 1; AxisIndex := 0; Flags := 0; ValueNameID := 256;
                 Value := 500 |} ])
         [ {| subfamilyNameID := 256;
              coordinates := [("wght"%string, 500)] |} ])
      "wght" = Some curve /\
    defaultNormalizedValue {| v_max := 800; v_min := 100; v_def := 400 |} 500
    = Ok k /\
    normalized_pair medium_font medium_source "wght" name current desired /\
    desired == k /\
    qget curve k = Some current.
Proof.
  apply (saved_font_is_consistent "Medium.ttf" "Medium_avar.ttf" medium_font
           _ medium_source
           {| subfamilyNameID := 256; coordinates := [("wght"%string, 500)] |}
           "wght" 500 {| v_max := 800; v_min := 100; v_def := 400 |}).
  - reflexivity.
  - simpl. now left.
  - reflexivity.
  - reflexivity.
Defined.

(** ** Keys of the two range dicts *)

(** X26: [get_axes_values] files under each tag the maximum, minimum and
    default of the last fvar axis with that tag (of the only one, when the
    tags are pairwise different), and has an entry for the tags of the
    fvar axes and no other. *)
Theorem axis_ranges_are_the_fvar_records (ttfont : TTFont)
  (pre post : list FvarAxis) (a : FvarAxis) :
  fvar_axes ttfont = pre ++ a :: post ->
  ~ In (axisTag a) (map axisTag post) ->
  sget (get_axes_values ttfont) (axisTag a)
  = Some {| v_max := maxValue a; v_min := minValue a;
            v_def := defaultValue a |} /\
  forall tag, sget (get_axes_values ttfont) tag <> None <->
              In tag (map axisTag (fvar_axes ttfont)).
Proof.
  intros Hl Hlast. unfold get_axes_values. split.
  - rewrite Hl.
    now apply (sget_fold_sset_last axisTag
                 (fun a => {| v_max := maxValue a; v_min := minValue a;
                              v_def := defaultValue a |})).
  - intros tag.
    rewrite (sget_fold_sset_key axisTag
               (fun a => {| v_max := maxValue a; v_min := minValue a;
                            v_def := defaultValue a |})).
    simpl. tauto.
Qed.

Lemma axis_ranges_are_the_fvar_records_witness :
  sget (get_axes_values medium_font) "wght"
  = Some {| v_max := 800; v_min := 100; v_def := 400 |} /\
  forall tag, sget (get_axes_values medium_font) tag <> None <->
              In tag (map axisTag (fvar_axes medium_font)).
Proof.
  apply (axis_ranges_are_the_fvar_records medium_font [] []
           {| axisTag := "wght"; minValue := 100; defaultValue := 400;
              maxValue := 800 |}).
  - reflexivity.
  - simpl. tauto.
Defined.

Lemma map_snd_combine_seq {A : Type} (l : list A) (s : nat) :
  map snd (combine (seq s (List.length l)) l) = l.
Proof.
  revert s. induction l as [|x l IH]; intros s; simpl; [reflexivity|].
  now rewrite IH.
Qed.

(** X27: when [get_source_axes_values] returns, it has a range for every
    axis tag of the source and for nothing else. *)
Theorem source_ranges_cover_the_axes (gsfont : GSFont)
  (source_axes_values : sdict axis_values_t) (axis_tag : string) :
  get_source_axes_values gsfont = Ok source_axes_values ->
  sget source_axes_values axis_tag <> None <->
  In axis_tag (map gs_axisTag (gs_axes gsfont)).
Proof.
  unfold get_source_axes_values, list_getitem.
  destruct (filter (is_origin gsfont) (gs_masters gsfont)) as [|dm rest];
    simpl; [discriminate|].
  intros H. inversion H; subst; clear H.
  rewrite (sget_fold_sset_key snd
             (fun p => source_axis_values gsfont dm (fst p))).
  unfold enumerate. rewrite map_snd_combine_seq. simpl. tauto.
Qed.

Lemma source_ranges_cover_the_axes_witness :
  sget [("wght"%string, {| v_max := 900; v_min := 0; v_def := 400 |});
        ("wdth"%string, {| v_max := 120; v_min := 0; v_def := 0 |})]
       "wdth" <> None <->
  In "wdth"%string (map gs_axisTag (gs_axes sparse_source)).
Proof.
  apply (source_ranges_cover_the_axes sparse_source). reflexivity.
Defined.

(** * The amended statements on anchors, identity curves and aborted runs *)

(** The two normalized positions of an instance on an axis are determined
    by the fonts. *)
Lemma normalized_pair_functional (ttfont : TTFont) (gsfont : GSFont)
  (axis_tag name : string) (c d c' d' : Q) :
  normalized_pair ttfont gsfont axis_tag name c d ->
  normalized_pair ttfont gsfont axis_tag name c' d' ->
  c = c' /\ d = d'.
Proof.
  intros (av & sav & src & cl & dls & dl & x & y
          & H1 & H2 & H3 & H4 & H5 & H6 & H7 & H8 & H9 & H10)
         (av' & sav' & src' & cl' & dls' & dl' & x' & y'
          & G1 & G2 & G3 & G4 & G5 & G6 & G7 & G8 & G9 & G10).
  assert (av' = av) by congruence. subst av'.
  assert (sav' = sav) by congruence. subst sav'.
  assert (src' = src) by congruence. subst src'.
  assert (cl' = cl) by congruence. subst cl'.
  assert (dls' = dls) by congruence. subst dls'.
  assert (dl' = dl) by congruence. subst dl'.
  assert (x' = x) by congruence. subst x'.
  assert (y' = y) by congruence. subst y'.
  split; congruence.
Qed.

(** The value read under a key at the end of the loop is the one written
    by the last instance whose key equals it. *)
Lemma curve_loop_last_write (verbose : bool) (axis_values : axis_values_t)
  (source_axes_values : sdict axis_values_t)
  (desired_locations : sdict (sdict Q)) (axis_tag : string)
  (pre post : list (string * sdict Q)) (item : string * sdict Q)
  (acc curve : curve_t) (p : Q * Q) (a : Q) :
  foldM (curve_step verbose axis_values source_axes_values desired_locations
                    axis_tag)
        acc (pre ++ item :: post) = Ok curve ->
  instance_point verbose axis_values source_axes_values desired_locations
                 axis_tag item = Ok p ->
  fst p == a ->
  (forall item' q,
      In item' post ->
      instance_point verbose axis_values source_axes_values desired_locations
                     axis_tag item' = Ok q ->
      ~ fst q == a) ->
  qget curve a = Some (snd p).
Proof.
  intros Hb Hp Hk Hlater.
  apply curve_loop_app in Hb. destruct Hb as (acc1 & p' & _ & Hp' & Hpost).
  assert (p' = p) by congruence. subst p'.
  apply (curve_loop_keeps_value _ _ _ _ _ _ _ _ _ _ Hpost); [|exact Hlater].
  rewrite qget_qset. apply Qeq_bool_iff in Hk. now rewrite Hk.
Qed.

(** The pair of the instance at a position of the loop, for a curve that
    was built. *)
Lemma create_avar_point (ttfont ttfont' : TTFont) (gsfont : GSFont)
  (verbose : bool) (axis_tag : string) (curve : curve_t)
  (pre post : sdict (sdict Q)) (name : string) (cl : sdict Q)
  (current desired : Q) :
  create_avar ttfont gsfont verbose = Ok ttfont' ->
  avar_curve ttfont' axis_tag = Some curve ->
  get_gvar_instance_locations gsfont = pre ++ (name, cl) :: post ->
  normalized_pair ttfont gsfont axis_tag name current desired ->
  exists axis_values source_axes_values desired_locations,
    sget (get_axes_values ttfont) axis_tag = Some axis_values /\
    get_source_axes_values gsfont = Ok source_axes_values /\
    get_instance_locations gsfont = Ok desired_locations /\
    foldM (curve_step verbose axis_values source_axes_values
                      desired_locations axis_tag)
          anchors (pre ++ (name, cl) :: post) = Ok curve /\
    instance_point verbose axis_values source_axes_values desired_locations
                   axis_tag (name, cl) = Ok (desired, current).
Proof.
  intros Hc Hcurve Hl Hpair.
  destruct (create_avar_curve _ _ _ _ _ _ Hc Hcurve)
    as (sav & dls & av & Hsav & Hdls & Hav & Hb).
  unfold build_curve in Hb. rewrite Hl in Hb.
  exists av, sav, dls. repeat (split; [assumption|]).
  pose proof Hb as Hb'.
  apply curve_loop_app in Hb'. destruct Hb' as (_ & p & _ & Hp & _).
  assert (Hin : In (name, cl) (get_gvar_instance_locations gsfont))
    by (rewrite Hl; apply in_or_app; right; now left).
  pose proof (instance_point_pair ttfont gsfont verbose av sav dls axis_tag
                (name, cl) p Hav Hsav Hdls Hin Hp) as Hpair'.
  destruct (normalized_pair_functional _ _ _ _ _ _ _ _ Hpair Hpair')
    as [Hcur Hdes].
  rewrite Hp. destruct p as [k v]. simpl in *. now subst.
Qed.

(** C4 (as amended): every curve that [create_avar] stores has the keys
    -1.0, 0.0 and 1.0; an anchor key maps to itself when no instance's
    declared location normalizes (under the range of the compiled font) to
    that key, and otherwise holds the normalized current position of the
    last instance, in enumeration order, whose declared location normalizes
    to that key. *)
Theorem anchors_stay_keys (ttfont ttfont' : TTFont) (gsfont : GSFont)
  (verbose : bool) (axis_tag : string) (curve : curve_t) (a : Q) :
  create_avar ttfont gsfont verbose = Ok ttfont' ->
  avar_curve ttfont' axis_tag = Some curve ->
  In a [-1; 0; 1] ->
  exists x,
    qget curve a = Some x /\
    ((forall name current desired,
         normalized_pair ttfont gsfont axis_tag name current desired ->
         ~ desired == a) ->
     x = a) /\
    (forall pre post name cl current desired,
        get_gvar_instance_locations gsfont = pre ++ (name, cl) :: post ->
        normalized_pair ttfont gsfont axis_tag name current desired ->
        desired == a ->
        (forall name' current' desired',
            In name' (keys post) ->
            normalized_pair ttfont gsfont axis_tag name' current' desired' ->
            ~ desired' == a) ->
        x = current).
Proof.
  intros Hc Hcurve Ha.
  destruct (create_avar_curve _ _ _ _ _ _ Hc Hcurve)
    as (sav & dls & av & Hsav & Hdls & Hav & Hb).
  unfold build_curve in Hb.
  assert (Hanchor : qget anchors a = Some a).
  { destruct Ha as [<- | [<- | [<- | []]]]; reflexivity. }
  assert (Hkey : qget curve a <> None).
  { apply (curve_loop_keeps_keys _ _ _ _ _ _ _ _ _ Hb).
    rewrite Hanchor. discriminate. }
  destruct (qget curve a) as [x|] eqn:Ex; [|contradiction].
  exists x. split; [reflexivity|]. split.
  - intros Hno.
    assert (Hkeep : qget curve a = Some a).
    { apply (curve_loop_keeps_value _ _ _ _ _ _ _ _ _ _ Hb Hanchor).
      intros item p Hin Hp.
      apply (Hno (fst item) (snd p) (fst p)).
      now apply (instance_point_pair ttfont gsfont verbose av sav dls
                   axis_tag item p). }
    congruence.
  - intros pre post name cl current desired Hl Hpair Hdes Hlater.
    destruct (create_avar_point _ _ _ _ _ _ _ _ _ _ _ _ Hc Hcurve Hl Hpair)
      as (av' & sav' & dls' & Hav' & Hsav' & Hdls' & Hloop & Hp).
    assert (av' = av) by congruence. assert (sav' = sav) by congruence.
    assert (dls' = dls) by congruence. subst av' sav' dls'.
    assert (Hlast : qget curve a = Some current).
    { apply (curve_loop_last_write _ _ _ _ _ _ _ _ _ _ (desired, current) a
               Hloop Hp Hdes).
      intros item q Hin Hq.
      apply (Hlater (fst item) (snd q) (fst q)).
      - apply in_map_iff. now exists item.
      - apply (instance_point_pair ttfont gsfont verbose av sav dls axis_tag
                 item q); try assumption.
        rewrite Hl. apply in_or_app. right. now right. }
    congruence.
Qed.

Lemma light_pair :
  normalized_pair light_font light_source "wght" "Light" (-200 # 400) 0.
Proof.
  unfold normalized_pair.
  do 8 eexists. repeat split; reflexivity.
Qed.

Lemma anchors_stay_keys_witness :
  exists x,
    qget [(-1, -1); (0, -200 # 400); (1, 1)] 0 = Some x /\
    ((forall name current desired,
         normalized_pair light_font light_source "wght" name current desired ->
         ~ desired == 0) ->
     x = 0) /\
    (forall pre post name cl current desired,
        get_gvar_instance_locations light_source = pre ++ (name, cl) :: post ->
        normalized_pair light_font light_source "wght" name current desired ->
        desired == 0 ->
        (forall name' current' desired',
            In name' (keys post) ->
            normalized_pair light_font light_source "wght" name' current'
                            desired' ->
            ~ desired' == 0) ->
        x = current).
Proof.
  apply (anchors_stay_keys light_font
           (set_avar light_font
              [("wght"%string, [(-1, -1); (0, -200 # 400); (1, 1)])])
           light_source true "wght").
  - reflexivity.
  - reflexivity.
  - simpl. right. now left.
Defined.

(** On the font of the counterexample the anchor 0.0 holds -0.5, the
    normalized current position of "Light". *)
Example light_overwrites_the_default_anchor :
  exists ttfont' curve,
    create_avar light_font light_source true = Ok ttfont' /\
    avar_curve ttfont' "wght" = Some curve /\
    qget curve 0 = Some (-200 # 400) /\
    normalized_pair light_font light_source "wght" "Light" (-200 # 400) 0.
Proof.
  do 2 eexists. split; [reflexivity|]. split; [reflexivity|].
  split; [reflexivity | exact light_pair].
Qed.

(** C5 (as amended): when the normalized current position of every instance
    on every axis equals its normalized desired position, every curve that
    [create_avar] stores is the identity on the three anchors and on the
    normalized position of every instance, and nothing else: every entry
    maps its key to itself, the anchors and every instance position are
    keys, every key is an anchor or an instance position, and no key
    occurs twice. *)
Theorem agreeing_locations_give_identity_curves (ttfont ttfont' : TTFont)
  (gsfont : GSFont) (verbose : bool) (axis_tag : string) (curve : curve_t) :
  normalized_locations_agree ttfont gsfont ->
  create_avar ttfont gsfont verbose = Ok ttfont' ->
  avar_curve ttfont' axis_tag = Some curve ->
  identity_curve curve /\
  returns (getitem Qeq_bool curve (-1)) (-1) /\
  returns (getitem Qeq_bool curve 0) 0 /\
  returns (getitem Qeq_bool curve 1) 1 /\
  (forall name current desired,
      normalized_pair ttfont gsfont axis_tag name current desired ->
      returns (getitem Qeq_bool curve desired) desired) /\
  (forall k v,
      In (k, v) curve ->
      In k [-1; 0; 1] \/
      exists name current desired,
        normalized_pair ttfont gsfont axis_tag name current desired /\
        k == desired) /\
  distinct_keys curve.
Proof.
  intros Hagree Hc Hcurve.
  destruct (create_avar_curve _ _ _ _ _ _ Hc Hcurve)
    as (sav & dls & av & Hsav & Hdls & Hav & Hb).
  unfold build_curve in Hb.
  assert (Hid : identity_curve curve).
  { intros k v Hin.
    destruct (curve_loop_entries _ _ _ _ _ _ _ _ _ _ Hb Hin)
      as [Hanchor | (item & p & Hitem & Hp & -> & Hk)].
    - now apply identity_anchors.
    - rewrite Hk. symmetry.
      apply (Hagree axis_tag (fst item)).
      now apply (instance_point_pair ttfont gsfont verbose av sav dls
                   axis_tag item p). }
  assert (Hread : forall a, qget curve a <> None ->
                            returns (getitem Qeq_bool curve a) a).
  { intros a Hkey.
    unfold getitem. fold (qget curve a).
    destruct (qget curve a) as [x|] eqn:Ex; [|contradiction].
    exists x. split; [reflexivity|].
    apply dict_get_In in Ex. destruct Ex as (k' & Hin & Hk').
    apply Qeq_bool_iff in Hk'. rewrite <- Hk'. symmetry. now apply Hid. }
  assert (Hanchor : forall a, qget anchors a <> None ->
                              returns (getitem Qeq_bool curve a) a).
  { intros a Ha. apply Hread.
    now apply (curve_loop_keeps_keys _ _ _ _ _ _ _ _ _ Hb). }
  split; [exact Hid|].
  repeat (split; [apply Hanchor; discriminate|]).
  split; [|split].
  - intros name current desired Hpair. apply Hread.
    pose proof Hpair as (av0 & sav0 & src0 & cl & dls0 & dl0 & c0 & d0
                         & _ & _ & _ & Hcl & _).
    apply sget_In in Hcl.
    destruct (in_split _ _ Hcl) as (pre & post & Hl).
    destruct (create_avar_point _ _ _ _ _ _ _ _ _ _ _ _ Hc Hcurve Hl Hpair)
      as (av' & sav' & dls' & _ & _ & _ & Hloop & Hp).
    apply curve_loop_app in Hloop.
    destruct Hloop as (acc1 & p & _ & Hp' & Hpost).
    assert (p = (desired, current)) by congruence. subst p.
    apply (curve_loop_keeps_keys _ _ _ _ _ _ _ _ _ Hpost).
    simpl. rewrite qget_qset, Qeq_bool_refl. discriminate.
  - intros k v Hin.
    destruct (curve_loop_entries _ _ _ _ _ _ _ _ _ _ Hb Hin)
      as [Hanchor' | (item & p & Hitem & Hp & _ & Hk)].
    + left. simpl in Hanchor'.
      destruct Hanchor' as [H | [H | [H | []]]]; inversion H; simpl; tauto.
    + right. exists (fst item), (snd p), (fst p). split; [|exact Hk].
      now apply (instance_point_pair ttfont gsfont verbose av sav dls
                   axis_tag item p).
  - apply (curve_loop_invariant _ _ _ _ _ _ _ _ Hb).
    simpl. repeat split; reflexivity.
Qed.

Lemma agreeing_locations_give_identity_curves_witness :
  identity_curve [(-1, -1); (0, 0); (1, 1); (300 # 500, 300 # 500)] /\
  returns (getitem Qeq_bool
             [(-1, -1); (0, 0); (1, 1); (300 # 500, 300 # 500)] (-1)) (-1) /\
  returns (getitem Qeq_bool
             [(-1, -1); (0, 0); (1, 1); (300 # 500, 300 # 500)] 0) 0 /\
  returns (getitem Qeq_bool
             [(-1, -1); (0, 0); (1, 1); (300 # 500, 300 # 500)] 1) 1 /\
  (forall name current desired,
      normalized_pair bold_font bold_source "wght" name current desired ->
      returns (getitem Qeq_bool
                 [(-1, -1); (0, 0); (1, 1); (300 # 500, 300 # 500)] desired)
              desired) /\
  (forall k v,
      In (k, v) [(-1, -1); (0, 0); (1, 1); (300 # 500, 300 # 500)] ->
      In k [-1; 0; 1] \/
      exists name current desired,
        normalized_pair bold_font bold_source "wght" name current desired /\
        k == desired) /\
  distinct_keys [(-1, -1); (0, 0); (1, 1); (300 # 500, 300 # 500)].
Proof.
  apply (agreeing_locations_give_identity_curves bold_font
           (set_avar bold_font
              [("wght"%string,
                [(-1, -1); (0, 0); (1, 1); (300 # 500, 300 # 500)])])
           bold_source true "wght").
  - exact bold_locations_agree.
  - reflexivity.
  - reflexivity.
Defined.

Lemma foldS_app {S B : Type} (f : S -> B -> S * result unit) (l1 l2 : list B)
  (s s1 : S) :
  foldS f s l1 = (s1, Ok tt) -> foldS f s (l1 ++ l2) = foldS f s1 l2.
Proof.
  revert s. induction l1 as [|x l1 IH]; intros s; simpl.
  - intros H. now inversion H.
  - destruct (f s x) as [s' [[] | e]]; [apply IH | discriminate].
Qed.

Lemma rewritable_matched (ttfont : TTFont)
  (desired_locations : sdict (sdict Q)) (instance : NamedInstance) :
  rewritable ttfont desired_locations instance ->
  matched ttfont desired_locations instance.
Proof.
  intros (name & dl & Hname & Hdl & _). now exists name, dl.
Qed.

(** C2 (as amended): when the declared locations of the source resolve and
    the first instance of the compiled font that cannot be rewritten has a
    name that no instance of the source carries, [update_fvar] (if that
    instance has a coordinate) and [update_stat] (if STAT has a design
    axis) raise [KeyError], the lookup failure, but only after mutating the
    font: [update_fvar] has overwritten the coordinates of every instance
    before it with the declared values and leaves that instance and the
    later ones as they were; [update_stat] has replaced the axis-value
    array by exactly the records of the instances before it, one per
    declared design axis, in order. *)
Theorem unmatched_instance_aborts_midway (ttfont : TTFont) (gsfont : GSFont)
  (desired_locations : sdict (sdict Q)) (pre post : list NamedInstance)
  (instance : NamedInstance) (name : string) :
  get_instance_locations gsfont = Ok desired_locations ->
  fvar_instances ttfont = pre ++ instance :: post ->
  Forall (rewritable ttfont desired_locations) pre ->
  get_name ttfont (subfamilyNameID instance) = Ok name ->
  ~ In name (map instance_name (gs_instances gsfont)) ->
  (coordinates instance <> [] ->
   exists pre',
     update_fvar ttfont gsfont
     = (set_fvar_instances ttfont (pre' ++ instance :: post), Raise KeyError)
     /\ Forall2 (rewritten ttfont desired_locations) pre pre') /\
  (stat_axes ttfont <> [] ->
   update_stat ttfont gsfont
   = (set_stat_axis_values ttfont
        (flat_map
           (fun i => stat_records (declared_for ttfont desired_locations i)
                                  (stat_axes ttfont) (subfamilyNameID i))
           pre),
      Raise KeyError)).
Proof.
  intros Hdls Hinsts Hpre Hname Hno.
  pose proof (unmatched_name_has_no_location _ _ _ Hdls Hno) as Hnone.
  split.
  - intros Hne. unfold update_fvar. rewrite Hdls, Hinsts.
    destruct (fvar_loop_prefix ttfont desired_locations pre (instance :: post)
                               Hpre) as (pre' & Hrun & Hrew).
    rewrite Hrun, (fvar_loop_unmatched _ _ _ _ _ Hname Hnone Hne). simpl.
    now exists pre'.
  - intros Hne. unfold update_stat. rewrite Hdls, Hinsts.
    assert (Hmatched : Forall (matched ttfont desired_locations) pre).
    { eapply Forall_impl; [|exact Hpre].
      intros i. apply rewritable_matched. }
    rewrite (foldS_app _ _ _ _ _
               (stat_loop_records ttfont desired_locations pre [] Hmatched)).
    rewrite (stat_loop_unmatched _ _ _ _ _ _ Hname Hnone Hne). reflexivity.
Qed.

Lemma unmatched_instance_aborts_midway_witness :
  (coordinates {| subfamilyNameID := 257;
                  coordinates := [("wght"%string, 700)] |} <> [] ->
   exists pre',
     update_fvar regular_bold_font regular_source
     = (set_fvar_instances regular_bold_font
          (pre' ++ [ {| subfamilyNameID := 257;
                        coordinates := [("wght"%string, 700)] |} ]),
        Raise KeyError) /\
     Forall2 (rewritten regular_bold_font
                        [("Regular"%string, [("wght"%string, 450)])])
             [ {| subfamilyNameID := 256;
                  coordinates := [("wght"%string, 400)] |} ] pre') /\
  (stat_axes regular_bold_font <> [] ->
   update_stat regular_bold_font regular_source
   = (set_stat_axis_values regular_bold_font
        (flat_map
           (fun i =>
              stat_records
                (declared_for regular_bold_font
                              [("Regular"%string, [("wght"%string, 450)])] i)
                (stat_axes regular_bold_font) (subfamilyNameID i))
           [ {| subfamilyNameID := 256;
                coordinates := [("wght"%string, 400)] |} ]),
      Raise KeyError)).
Proof.
  apply (unmatched_instance_aborts_midway regular_bold_font regular_source
           [("Regular"%string, [("wght"%string, 450)])]
           [ {| subfamilyNameID := 256;
                coordinates := [("wght"%string, 400)] |} ]
           []
           {| subfamilyNameID := 257; coordinates := [("wght"%string, 700)] |}
           "Bold").
  - reflexivity.
  - reflexivity.
  - constructor; [|constructor]. now apply regular_is_rewritable.
  - reflexivity.
  - simpl. intros [H | []]. discriminate.
Defined.

(** When the declared locations do not resolve, the two rewriters raise
    before they touch the font: an instance of the source without
    "Axis Location" makes both raise a [TypeError], whatever the instances
    of the compiled font are. *)
Lemma rewriters_stop_at_unresolved_declarations (ttfont : TTFont)
  (gsfont : GSFont) (e : exn) :
  get_instance_locations gsfont = Raise e ->
  update_stat ttfont gsfont = (ttfont, Raise e) /\
  update_fvar ttfont gsfont = (ttfont, Raise e).
Proof.
  intros H. unfold update_stat, update_fvar. now rewrite H.
Qed.

Example draft_source_stops_the_rewriters :
  get_instance_locations draft_source = Raise TypeError /\
  update_stat regular_font draft_source = (regular_font, Raise TypeError) /\
  update_fvar regular_font draft_source = (regular_font, Raise TypeError).
Proof. repeat split; reflexivity. Qed.
